(** * LinkedIn Zip bot: a shallow embedding of [linkedin-zip-bot.js]

    The class [LinkedInZipBot] drives a third-party page: it discovers the
    puzzle endpoint ([findGameApiUrl], [detectApiUrl]), retrieves the puzzle
    ([fetchPuzzle]) and replays the solution as arrow keys ([waitForGameBoard],
    [getDirection], [simulateKeyPress], [solvePuzzle]).

    The page is modelled as an explicit environment ([page]) and the script's
    effects are threaded through a state ([state]) holding the clock, the
    current value of [window.fetch], the fields of [this] and a chronological
    trace of the effects the script performs on the page.  Numbers are the
    integers a JavaScript number holds, as [Z]; the one operation of the
    script that rounds, the division of [indexToCoords], is modelled with its
    rounding ([floorQuotient]).  Strings are [string]. *)

From Stdlib Require Import ZArith List String Bool Lia.
From Equations Require Import Equations.
Import ListNotations.
Open Scope string_scope.
Open Scope list_scope.
Open Scope Z_scope.
Set Warnings "-register-all".

(** ** JavaScript helpers *)

(** [s.includes(sub)] *)
Definition includes (s sub : string) : bool :=
  match index 0 sub s with
  | Some _ => true
  | None => false
  end.

(** Truthiness of a string: only the empty string is falsy. *)
Definition truthy (s : string) : bool :=
  match s with
  | EmptyString => false
  | String _ _ => true
  end.

(** ** Coordinate mapper *)

Record coords := { row : Z; col : Z }.

(** [n / d] on numbers, for positive integers [n] and [d]: the quotient is
    rounded to the nearest number with a significand of 53 bits, ties to the
    even significand (IEEE 754 binary64).  The result [(m, e)] stands for
    [m * 2 ^ e], with [2 ^ 52 <= m <= 2 ^ 53].  [e0] places the quotient of
    the scaled operands between [2 ^ 51] and [2 ^ 53]; one more doubling
    brings it to [2 ^ 52] or above.  The exponent is not bounded: the
    quotients of two integers that numbers hold stay below the largest
    number, and the smallest of them are above zero, where [Math.floor] does
    not tell a subnormal from the quotient this function gives. *)
Definition roundedQuotient (n d : Z) : Z * Z :=
  let e0 := Z.log2 n - Z.log2 d - 52 in
  let e := if (n * 2 ^ Z.max 0 (- e0)) / (d * 2 ^ Z.max 0 e0) <? 2 ^ 52
           then e0 - 1 else e0 in
  let num := n * 2 ^ Z.max 0 (- e) in
  let den := d * 2 ^ Z.max 0 e in
  let m0 := num / den in
  let r := num - m0 * den in
  let m := if 2 * r <? den then m0
           else if den <? 2 * r then m0 + 1
           else if Z.even m0 then m0 else m0 + 1 in
  (m, e).

(** [Math.floor(a / b)]: the floor of the rounded quotient, with the sign of
    the quotient.  A zero dividend gives zero; for [b = 0] JavaScript yields
    [NaN] or an infinity, which an integer cannot hold, and the only caller
    of [indexToCoords], [getDirection], treats that case apart. *)
Definition floorQuotient (a b : Z) : Z :=
  if (a =? 0) || (b =? 0) then 0
  else
    let '(m, e) := roundedQuotient (Z.abs a) (Z.abs b) in
    (Z.sgn a * Z.sgn b * m * 2 ^ Z.max 0 e) / 2 ^ Z.max 0 (- e).

Arguments roundedQuotient : simpl never.
Arguments floorQuotient : simpl never.

(** [indexToCoords(index)], with [this.gridSize] passed explicitly.  The
    row is [Math.floor(index / gridSize)], where the division rounds; [%] is
    the truncated remainder ([Z.rem]), which numbers compute exactly. *)
Definition indexToCoords (gridSize index : Z) : coords :=
  {| row := floorQuotient index gridSize;
     col := Z.rem index gridSize |}.

(** [getDirection(fromCell, toCell)].  With [gridSize = 0] both differences
    are [NaN], every [===] test fails and the result is [null].  The two
    subtractions are of integers; rounded or not, their result is [-1], [0]
    or [1] exactly when the difference is. *)
Definition getDirection (gridSize fromCell toCell : Z) : option string :=
  if gridSize =? 0 then None
  else
    let fromCoords := indexToCoords gridSize fromCell in
    let toCoords := indexToCoords gridSize toCell in
    let rowDiff := row toCoords - row fromCoords in
    let colDiff := col toCoords - col fromCoords in
    if (rowDiff =? -1) && (colDiff =? 0) then Some "ArrowUp"
    else if (rowDiff =? 1) && (colDiff =? 0) then Some "ArrowDown"
    else if (rowDiff =? 0) && (colDiff =? -1) then Some "ArrowLeft"
    else if (rowDiff =? 0) && (colDiff =? 1) then Some "ArrowRight"
    else None.

(** The four moves of the data model and the key name the source uses for
    each of them. *)
Inductive Move := Up | Down | Left | Right.

Definition moveKey (m : Move) : string :=
  match m with
  | Up => "ArrowUp"
  | Down => "ArrowDown"
  | Left => "ArrowLeft"
  | Right => "ArrowRight"
  end.

(** Row and column delta of a unit orthogonal step. *)
Definition moveDelta (m : Move) : Z * Z :=
  match m with
  | Up => (-1, 0)
  | Down => (1, 0)
  | Left => (0, -1)
  | Right => (0, 1)
  end.

(** The coordinates of a cell in the words of the specification's data
    model, [row = id div N] and [col = id mod N], to be compared with
    [indexToCoords]. *)
Definition specCoords (gridSize id : Z) : coords :=
  {| row := id / gridSize; col := id mod gridSize |}.

Definition rowDelta (gridSize a b : Z) : Z :=
  row (specCoords gridSize b) - row (specCoords gridSize a).

Definition colDelta (gridSize a b : Z) : Z :=
  col (specCoords gridSize b) - col (specCoords gridSize a).

(** Chebyshev distance between the coordinates of two cells. *)
Definition chebyshev (gridSize a b : Z) : Z :=
  Z.max (Z.abs (rowDelta gridSize a b)) (Z.abs (colDelta gridSize a b)).

(** A cell identifier valid for an N x N grid. *)
Definition validCell (gridSize id : Z) : Prop := 0 <= id < gridSize * gridSize.

(** The integers that numbers hold without rounding, and that every
    operation of the script maps exactly
    ([Number.MIN_SAFE_INTEGER .. Number.MAX_SAFE_INTEGER]). *)
Definition safeInteger (z : Z) : Prop := - 2 ^ 53 < z < 2 ^ 53.

(** An integer that a number holds exactly: its magnitude fits in 53 bits
    once its trailing zero bits are set aside. *)
Definition representable (z : Z) : bool :=
  Z.abs z mod 2 ^ Z.max 0 (Z.log2 (Z.abs z) - 52) =? 0.

(** ** Values, exceptions and outcomes *)

(** JavaScript values as [response.json()] produces them, plus [undefined]
    (the result of reading an absent property). *)
Inductive value :=
| VUndefined
| VNull
| VBool (b : bool)
| VNum (n : Z)
| VStr (s : string)
| VArr (items : list value)
| VObj (fields : list (string * value)).

Inductive exn :=
| TypeError                                (* a property read on undefined or null *)
| HttpError (status : Z) (body : string)   (* new Error(`HTTP ${status}: ${errorText}`) *)
| PageError (msg : string).                (* thrown by the page, the browser or the network *)

(** How a call ends: it returns (an awaited promise resolves) or it throws
    (the promise rejects). *)
Inductive outcome (A : Type) :=
| Returned (a : A)
| Threw (e : exn).
Arguments Returned {A} a.
Arguments Threw {A} e.

(** ** The page *)

(** First argument of a call to [fetch]: a string, or anything else (a
    [Request] or [URL] object), for which [typeof url === 'string'] fails. *)
Inductive fetch_arg :=
| ArgString (url : string)
| ArgObject.

(** The function stored in [window.fetch]: one the page provides, or the
    wrapper [detectApiUrl] installs, which closes over [originalFetch]. *)
Inductive fetch_fn :=
| PageFetch (id : nat)
| Interceptor (originalFetch : fetch_fn).

Fixpoint fetch_fn_eqb (f g : fetch_fn) : bool :=
  match f, g with
  | PageFetch i, PageFetch j => Nat.eqb i j
  | Interceptor f', Interceptor g' => fetch_fn_eqb f' g'
  | _, _ => false
  end.

(** A button of the page: its label, the requests its click handlers issue
    through [window.fetch], and the exception [click()] ends with, if any. *)
Record element := {
  textContent : string;
  click_requests : list fetch_arg;
  click_throws : option exn
}.

(** What the selectors of the script find in the document at one instant. *)
Record document := {
  refresh_button : outcome (option element);  (* querySelector('[data-test-id="refresh-button"]') *)
  buttons : outcome (list element);           (* querySelectorAll('button') *)
  trail_board : bool;                         (* querySelector('.trail-board') *)
  cell_idx : list Z;                          (* the data-cell-idx of each element carrying one *)
  trail_grid : bool                           (* querySelector('[data-trail-grid]') *)
}.

(** A parsed [URL], reduced to the two properties the script reads. *)
Record url := { pathname : string; search : string }.

(** A [Response], reduced to what [fetchPuzzle] reads; reading the body,
    as text or as JSON, can fail. *)
Record response := {
  ok : bool;
  status : Z;
  text : outcome string;
  json : outcome value
}.

(** The third-party page and browser the script runs in.  The headers of
    the request of [fetchPuzzle] (the CSRF token among them) are not part of
    the model; reading the token is. *)
Record page := {
  resource_entries : outcome (list string);  (* names of performance.getEntriesByType('resource') *)
  new_URL : string -> outcome url;           (* new URL(name) *)
  dom_at : Z -> document;                    (* the document at each instant of the clock *)
  timer_lag : Z -> Z;                        (* how late a timer armed at that instant fires *)
  page_requests : Z -> list fetch_arg;       (* calls of window.fetch by the page while the
                                                script is suspended from that instant *)
  network : string -> outcome response;      (* the response to a GET of that path *)
  document_cookie : outcome string;          (* document.cookie, as a string that .match accepts *)
  csrf_meta : option string;                 (* content of meta[name="csrf-token"], if there is one *)
  session_storage : outcome (option (option string))
                                             (* window.sessionStorage, if it exists, and its
                                                JSESSIONID item, if there is one *)
}.

(** ** Effects of the script *)

Inductive level := Warn | Error.

(** The warnings and errors the script prints ([console.warn],
    [console.error]); [console.log] output is not part of the model. *)
Inductive diagnostic :=
| PerformanceApiUnavailable     (* 'Could not access Performance API:' *)
| NoApiUrlCaptured              (* 'No API URL captured. Using fallback URL.' *)
| BoardTimeout (timeout : Z)    (* `Game board did not load within timeout (${timeout}ms)` *)
| HttpFailure (status : Z) (body : string)  (* 'HTTP Error:' *)
| FailedToFetch (e : exn)       (* 'Failed to fetch puzzle:' *)
| NoSolutionLoaded              (* 'No solution loaded. Call fetchPuzzle() first.' *)
| GameBoardNotFound             (* 'Game board not found!' *)
| StartCellNotFound             (* 'Start cell not found!' *)
| InvalidMove (fromCell toCell : Z)  (* `Invalid move from ${fromCell} to ${toCell} - not adjacent!` *)
| CsrfTokenNotFound.            (* 'CSRF token not found, request may fail' *)

Inductive event :=
| SetFetch (f : fetch_fn)                   (* window.fetch = f *)
| CallFetch (f : fetch_fn) (arg : fetch_arg) (* f is called with that first argument *)
| Click (el : element)                      (* el.click() on a button *)
| Focus                                     (* board.focus() *)
| ClickCell (cellIndex : Z)                 (* click() on the element with that data-cell-idx *)
| KeyEvent (type key : string) (keyCode : Z) (* board.dispatchEvent(new KeyboardEvent(type, ...)) *)
| Wait (ms : Z)                             (* a timer of ms milliseconds is awaited *)
| Console (l : level) (d : diagnostic).

(** The mutable world: the clock ([Date.now()]), [window.fetch], the fields
    of [this] and the effects so far, oldest first. *)
Record state := {
  now : Z;
  window_fetch : fetch_fn;
  this_apiUrl : string;
  this_puzzle : value;
  this_gridSize : value;
  this_solution : value;
  trace : list event
}.

Definition set_now (t : Z) (st : state) : state :=
  {| now := t; window_fetch := window_fetch st; this_apiUrl := this_apiUrl st;
     this_puzzle := this_puzzle st; this_gridSize := this_gridSize st;
     this_solution := this_solution st; trace := trace st |}.

Definition set_window_fetch (f : fetch_fn) (st : state) : state :=
  {| now := now st; window_fetch := f; this_apiUrl := this_apiUrl st;
     this_puzzle := this_puzzle st; this_gridSize := this_gridSize st;
     this_solution := this_solution st; trace := trace st |}.

Definition set_apiUrl (u : string) (st : state) : state :=
  {| now := now st; window_fetch := window_fetch st; this_apiUrl := u;
     this_puzzle := this_puzzle st; this_gridSize := this_gridSize st;
     this_solution := this_solution st; trace := trace st |}.

Definition set_puzzle (v : value) (st : state) : state :=
  {| now := now st; window_fetch := window_fetch st; this_apiUrl := this_apiUrl st;
     this_puzzle := v; this_gridSize := this_gridSize st;
     this_solution := this_solution st; trace := trace st |}.

Definition set_gridSize (v : value) (st : state) : state :=
  {| now := now st; window_fetch := window_fetch st; this_apiUrl := this_apiUrl st;
     this_puzzle := this_puzzle st; this_gridSize := v;
     this_solution := this_solution st; trace := trace st |}.

Definition set_solution (v : value) (st : state) : state :=
  {| now := now st; window_fetch := window_fetch st; this_apiUrl := this_apiUrl st;
     this_puzzle := this_puzzle st; this_gridSize := this_gridSize st;
     this_solution := v; trace := trace st |}.

Definition add_event (e : event) (st : state) : state :=
  {| now := now st; window_fetch := window_fetch st; this_apiUrl := this_apiUrl st;
     this_puzzle := this_puzzle st; this_gridSize := this_gridSize st;
     this_solution := this_solution st; trace := trace st ++ [e] |}.

(** A computation of the script: it reads and updates the world and either
    returns or throws. *)
Definition M (A : Type) : Type := state -> outcome A * state.

Definition ret {A} (a : A) : M A := fun st => (Returned a, st).

Definition throw {A} (e : exn) : M A := fun st => (Threw e, st).

Definition bind {A B} (m : M A) (k : A -> M B) : M B :=
  fun st =>
    match m st with
    | (Returned a, st') => k a st'
    | (Threw e, st') => (Threw e, st')
    end.

(** [try { m } catch (e) { h e }] *)
Definition try_catch {A} (m : M A) (h : exn -> M A) : M A :=
  fun st =>
    match m st with
    | (Returned a, st') => (Returned a, st')
    | (Threw e, st') => h e st'
    end.

Definition lift {A} (o : outcome A) : M A := fun st => (o, st).

Definition modify (f : state -> state) : M unit := fun st => (Returned tt, f st).

Definition emit (e : event) : M unit := modify (add_event e).

Definition read {A} (f : state -> A) : M A := fun st => (Returned (f st), st).

Declare Scope js_scope.
Delimit Scope js_scope with js.
Notation "x <- m ;; k" := (bind m (fun x => k))
  (at level 100, m at next level, right associativity) : js_scope.
Notation "m ;;; k" := (bind m (fun _ => k))
  (at level 100, right associativity) : js_scope.
Open Scope js_scope.

(** [document] as the script sees it now. *)
Definition document_now (pg : page) : M document :=
  read (fun st => dom_at pg (now st)).

(** The delay of [setTimeout(resolve, ms)]: the argument is converted to a
    signed 32-bit integer, so that it wraps modulo [2 ^ 32], and a negative
    result counts as zero. *)
Definition toInt32 (z : Z) : Z := (z + 2 ^ 31) mod 2 ^ 32 - 2 ^ 31.

Definition timerDelay (ms : Z) : Z := Z.max 0 (toInt32 ms).

(** [await this.sleep(ms)]: the timer fires after its delay, or later still
    when the page keeps the event loop busy or the browser holds back a short
    timer. *)
Definition sleep (pg : page) (ms : Z) : M unit :=
  emit (Wait ms) ;;;
  modify (fun st => set_now (now st + timerDelay ms + Z.max 0 (timer_lag pg (now st))) st).

(** ** Input driver: waiting for the board *)

(** [gameBoard && cells.length > 0] *)
Definition boardReady (d : document) : bool :=
  trail_board d && (0 <? Z.of_nat (List.length (cell_idx d))).

Definition inspect {A} (a : A) : {b : A | a = b} := exist _ a eq_refl.

(** The [while] loop of [waitForGameBoard]: each round that finds the board
    not ready awaits [sleep(200)], so the time left before [timeout] shrinks
    and the loop ends. *)
Equations? pollGameBoard (pg : page) (startTime timeout : Z) (st : state)
  : outcome bool * state
  by wf (Z.to_nat (startTime + timeout - now st)) lt :=
pollGameBoard pg startTime timeout st with inspect (now st - startTime <? timeout) := {
  | exist _ true Hlt =>
      if boardReady (dom_at pg (now st)) then (Returned true, st)
      else pollGameBoard pg startTime timeout (snd (sleep pg 200 st))
  | exist _ false _ =>
      (emit (Console Warn (BoardTimeout timeout)) ;;; ret false) st }.
Proof.
  apply Z.ltb_lt in Hlt. cbn - [timerDelay]. change (timerDelay 200) with 200. lia.
Qed.

(** [waitForGameBoard(timeout)] *)
Definition waitForGameBoard (pg : page) (timeout : Z) : M bool :=
  d <- document_now pg ;;
  if boardReady d then ret true
  else
    startTime <- read now ;;
    pollGameBoard pg startTime timeout.

(** ** Input driver: replaying the solution *)

Definition keyCodeOf (key : string) : Z :=
  if (key =? "ArrowUp")%string then 38
  else if (key =? "ArrowDown")%string then 40
  else if (key =? "ArrowLeft")%string then 37
  else 39.

(** [simulateKeyPress(key)] *)
Definition simulateKeyPress (pg : page) (key : string) : M bool :=
  d <- document_now pg ;;
  if negb (trail_grid d) then ret false
  else
    emit (KeyEvent "keydown" key (keyCodeOf key)) ;;;
    emit (KeyEvent "keyup" key (keyCodeOf key)) ;;;
    ret true.

(** The [for] loop of [solvePuzzle]: [fromCell] is [solution[i - 1]] and the
    list holds [solution[i]], [solution[i + 1]], ...  A pair without a
    direction ends the loop ([break]). *)
Fixpoint replay (pg : page) (gridSize speed fromCell : Z) (rest : list Z) : M unit :=
  match rest with
  | [] => ret tt
  | toCell :: rest' =>
      match getDirection gridSize fromCell toCell with
      | None => emit (Console Error (InvalidMove fromCell toCell))
      | Some direction =>
          simulateKeyPress pg direction ;;;
          sleep pg speed ;;;
          replay pg gridSize speed toCell rest'
      end
  end.

(** [getCellElement(cellIndex)] finds an element. *)
Definition hasCellElement (d : document) (cellIndex : Z) : bool :=
  existsb (Z.eqb cellIndex) (cell_idx d).

(** [solvePuzzle(speed)], with [this.gridSize] and [this.solution] passed
    explicitly as the integers they hold after a well-formed retrieval.  The
    result of [waitForGameBoard] is not used.  The last step reads the "won"
    marker and only prints to [console.log]. *)
Definition solvePuzzle (pg : page) (gridSize : Z) (solution : list Z) (speed : Z) : M unit :=
  match solution with
  | [] => emit (Console Error NoSolutionLoaded)
  | startCell :: rest =>
      waitForGameBoard pg 10000 ;;;
      board <- document_now pg ;;
      if negb (trail_board board) then emit (Console Error GameBoardNotFound)
      else
        emit Focus ;;;
        sleep pg 200 ;;;
        d <- document_now pg ;;
        if negb (hasCellElement d startCell) then emit (Console Error StartCellNotFound)
        else
          emit (ClickCell startCell) ;;;
          sleep pg 300 ;;;
          replay pg gridSize speed startCell rest ;;;
          sleep pg 1500
  end.

(** ** Endpoint discoverer *)

(** The filter both scans apply to a URL. *)
Definition isGameApiUrl (name : string) : bool :=
  includes name "/voyager/api/graphql" && includes name "gameTypeId:6".

(** [findGameApiUrl()]: [None] is [null]. *)
Definition findGameApiUrl (pg : page) : M (option string) :=
  try_catch
    (perfEntries <- lift (resource_entries pg) ;;
     match find isGameApiUrl perfEntries with
     | Some name =>
         u <- lift (new_URL pg name) ;;
         ret (Some (pathname u ++ search u)%string)
     | None => ret None
     end)
    (fun _ => emit (Console Warn PerformanceApiUnavailable) ;;; ret None).

(** The value the constructor gives [this.apiUrl]. *)
Definition constructorApiUrl : string :=
  "/voyager/api/graphql?includeWebMetadata=true&variables=(gameTypeId:6)&queryId=voyagerIdentityDashGames.b13494b14a45c551e881ca8aa820dff0".

(** The literal [detectApiUrl] resolves with when nothing was captured. *)
Definition fallbackApiUrl : string :=
  "/voyager/api/graphql?includeWebMetadata=true&variables=(gameTypeId:6)&queryId=voyagerIdentityDashGames.b13494b14a45c551e881ca8aa820dff0".

(** [window.fetch = f] *)
Definition assign_fetch (f : fetch_fn) : M unit :=
  modify (set_window_fetch f) ;;;
  emit (SetFetch f).

(** One call of the wrapper: a matching string is pushed on [capturedUrls],
    and every call is forwarded to [originalFetch]. *)
Definition interceptor (originalFetch : fetch_fn) (capturedUrls : list string)
    (arg : fetch_arg) : M (list string) :=
  let capturedUrls' :=
    match arg with
    | ArgString url => if isGameApiUrl url then capturedUrls ++ [url] else capturedUrls
    | ArgObject => capturedUrls
    end in
  emit (CallFetch originalFetch arg) ;;;
  ret capturedUrls'.

(** The page calls [window.fetch] while the wrapper is installed. *)
Fixpoint intercepted (originalFetch : fetch_fn) (capturedUrls : list string)
    (args : list fetch_arg) : M (list string) :=
  match args with
  | [] => ret capturedUrls
  | arg :: rest =>
      capturedUrls' <- interceptor originalFetch capturedUrls arg ;;
      intercepted originalFetch capturedUrls' rest
  end.

(** [el.click()] while the wrapper is installed. *)
Definition click (originalFetch : fetch_fn) (capturedUrls : list string)
    (el : element) : M (list string) :=
  emit (Click el) ;;;
  capturedUrls' <- intercepted originalFetch capturedUrls (click_requests el) ;;
  match click_throws el with
  | Some e => throw e
  | None => ret capturedUrls'
  end.

Definition isRefreshOrPlay (btn : element) : bool :=
  includes (textContent btn) "Refresh" || includes (textContent btn) "Play".

(** Locating and activating the refresh/play affordance (the part of the
    promise executor between installing the wrapper and arming the timer). *)
Definition triggerRefresh (pg : page) (originalFetch : fetch_fn)
    (capturedUrls : list string) : M (list string) :=
  d <- document_now pg ;;
  refreshButton <- lift (refresh_button d) ;;
  match refreshButton with
  | Some el => click originalFetch capturedUrls el
  | None =>
      btns <- lift (buttons d) ;;
      match find isRefreshOrPlay btns with
      | Some btn => click originalFetch capturedUrls btn
      | None => ret capturedUrls
      end
  end.

(** The 3000 ms between arming the timer and its callback: the page may call
    [window.fetch], which is the wrapper. *)
Definition observationWindow (pg : page) (originalFetch : fetch_fn)
    (capturedUrls : list string) : M (list string) :=
  emit (Wait 3000) ;;;
  t <- read now ;;
  capturedUrls' <- intercepted originalFetch capturedUrls (page_requests pg t) ;;
  modify (set_now (t + 3000 + Z.max 0 (timer_lag pg t))) ;;;
  ret capturedUrls'.

(** The interception session up to the timer callback: the wrapper is
    installed, the affordance is activated, the timer is armed and awaited.
    An exception before the timer is armed ends the session at once. *)
Definition captureSession (pg : page) (originalFetch : fetch_fn) : M (list string) :=
  assign_fetch (Interceptor originalFetch) ;;;
  capturedUrls <- triggerRefresh pg originalFetch [] ;;
  observationWindow pg originalFetch capturedUrls.

(** The active path of [detectApiUrl]: the promise executor and the timer
    callback.  An exception in the executor rejects the promise: the timer
    is never armed and its callback never runs. *)
Definition interceptApiUrl (pg : page) : M string :=
  originalFetch <- read window_fetch ;;
  capturedUrls <- captureSession pg originalFetch ;;
  assign_fetch originalFetch ;;;
  match capturedUrls with
  | gameUrl :: _ => ret gameUrl
  | [] =>
      emit (Console Warn NoApiUrlCaptured) ;;;
      ret fallbackApiUrl
  end.

(** [detectApiUrl()] *)
Definition detectApiUrl (pg : page) : M string :=
  existingUrl <- findGameApiUrl pg ;;
  match existingUrl with
  | Some existing =>
      if truthy existing then
        modify (set_apiUrl existing) ;;;
        ret existing
      else interceptApiUrl pg
  | None => interceptApiUrl pg
  end.

(** ** The forgery-protection token *)

(** The double quote, the semicolon, the space and the equals sign. *)
Definition dquote : Ascii.ascii := Ascii.ascii_of_nat 34.
Definition semicolon : Ascii.ascii := Ascii.ascii_of_nat 59.
Definition space : Ascii.ascii := Ascii.ascii_of_nat 32.
Definition equals : Ascii.ascii := Ascii.ascii_of_nat 61.

(** The string has no occurrence of the character. *)
Fixpoint noChar (c : Ascii.ascii) (s : string) : bool :=
  match s with
  | EmptyString => true
  | String c' rest => negb (Ascii.eqb c' c) && noChar c rest
  end.

Definition sessionKey : string := "JSESSIONID=".

(** The key followed by a double quote. *)
Definition quotedSessionKey : string := (sessionKey ++ String dquote EmptyString)%string.

(** The characters before the first double quote, if there is one. *)
Fixpoint untilQuote (s : string) : option string :=
  match s with
  | EmptyString => None
  | String c rest =>
      if Ascii.eqb c dquote then Some EmptyString
      else option_map (String c) (untilQuote rest)
  end.

Fixpoint dropChars (n : nat) (s : string) : string :=
  match n, s with
  | O, _ => s
  | S n', String _ rest => dropChars n' rest
  | S _, EmptyString => EmptyString
  end.

(** The regular expression of method 1 tried at the start of the string:
    the key and a double quote, then the longest run of characters other
    than a double quote, which must not be empty and must be followed by a
    double quote.  The result is the captured group. *)
Definition quotedSessionAt (s : string) : option string :=
  if prefix quotedSessionKey s then
    match untilQuote (dropChars 12 s) with
    | Some (String c body) => Some (String c body)
    | _ => None
    end
  else None.

(** [document.cookie.match(...)] of method 1: the leftmost position where
    the expression matches; [None] is [null]. *)
Fixpoint matchQuotedSession (s : string) : option string :=
  match quotedSessionAt s with
  | Some group => Some group
  | None =>
      match s with
      | EmptyString => None
      | String _ rest => matchQuotedSession rest
      end
  end.

(** The string without its last character, and that character. *)
Fixpoint splitLast (s : string) : option (string * Ascii.ascii) :=
  match s with
  | EmptyString => None
  | String c rest =>
      match splitLast rest with
      | None => Some (EmptyString, c)
      | Some (middle, last) => Some (String c middle, last)
      end
  end.

(** A line terminator, which [.] does not match: LF, CR, U+2028 or U+2029
    (in UTF-8). *)
Definition hasLineTerminator (s : string) : bool :=
  negb (noChar (Ascii.ascii_of_nat 10) s) ||
  negb (noChar (Ascii.ascii_of_nat 13) s) ||
  includes s (String (Ascii.ascii_of_nat 226) (String (Ascii.ascii_of_nat 128)
                (String (Ascii.ascii_of_nat 168) EmptyString))) ||
  includes s (String (Ascii.ascii_of_nat 226) (String (Ascii.ascii_of_nat 128)
                (String (Ascii.ascii_of_nat 169) EmptyString))).

(** The [replace] of method 1: a string in double quotes, with at least one
    character and no line terminator between them, loses them. *)
Definition stripOuterQuotes (s : string) : string :=
  match s with
  | String c rest =>
      if Ascii.eqb c dquote then
        match splitLast rest with
        | Some (String m middle, last) =>
            if Ascii.eqb last dquote && negb (hasLineTerminator (String m middle))
            then String m middle
            else s
        | _ => s
        end
      else s
  | EmptyString => s
  end.

(** [s.split('; ')], with the piece read so far. *)
Fixpoint splitCookies (piece s : string) : list string :=
  match s with
  | EmptyString => [piece]
  | String c rest =>
      match rest with
      | String c' rest' =>
          if Ascii.eqb c semicolon && Ascii.eqb c' space
          then piece :: splitCookies EmptyString rest'
          else splitCookies (piece ++ String c EmptyString)%string rest
      | EmptyString => [(piece ++ String c EmptyString)%string]
      end
  end.

(** [s.split(sep)] for a separator of one character, with the piece read so
    far. *)
Fixpoint splitAt (sep : Ascii.ascii) (piece s : string) : list string :=
  match s with
  | EmptyString => [piece]
  | String c rest =>
      if Ascii.eqb c sep then piece :: splitAt sep EmptyString rest
      else splitAt sep (piece ++ String c EmptyString)%string rest
  end.

(** The [replace] of method 3: every double quote is removed. *)
Fixpoint removeQuotes (s : string) : string :=
  match s with
  | EmptyString => EmptyString
  | String c rest =>
      if Ascii.eqb c dquote then removeQuotes rest else String c (removeQuotes rest)
  end.

(** What [getCSRFToken] reads: [document.cookie], the [content] of the
    [csrf-token] meta tag if there is one, and, if [window.sessionStorage]
    exists, its [JSESSIONID] item if there is one. *)
Record csrfSources := {
  cookie : string;
  metaContent : option string;
  sessionStored : option (option string)
}.

(** Method 4 of [getCSRFToken], and its last lines: the second component
    tells whether the warning was printed. *)
Definition tokenFromStorage (b : csrfSources) : string * bool :=
  match sessionStored b with
  | Some (Some stored) => if truthy stored then (stored, false) else (EmptyString, true)
  | _ => (EmptyString, true)
  end.

(** Method 3 and what follows.  The row found starts with the key, so that
    its second piece exists. *)
Definition tokenFromCookieRow (b : csrfSources) : string * bool :=
  match find (prefix sessionKey) (splitCookies EmptyString (cookie b)) with
  | Some csrfCookie =>
      (removeQuotes (nth 1 (splitAt equals EmptyString csrfCookie) EmptyString), false)
  | None => tokenFromStorage b
  end.

(** Method 2 and what follows. *)
Definition tokenFromMeta (b : csrfSources) : string * bool :=
  match metaContent b with
  | Some content => if truthy content then (content, false) else tokenFromCookieRow b
  | None => tokenFromCookieRow b
  end.

(** [getCSRFToken()]: the token, and whether the warning was printed. *)
Definition getCSRFToken (b : csrfSources) : string * bool :=
  match matchQuotedSession (cookie b) with
  | Some group => (stripOuterQuotes group, false)
  | None => tokenFromMeta b
  end.

(** [this.getCSRFToken()] as [fetchPuzzle] calls it.  [document.cookie] is
    read first, and methods 1 to 3 need nothing else that can fail;
    [window.sessionStorage] is read only when they find nothing.  Either read
    can throw, and the warning is printed when all four methods fail. *)
Definition readCSRFToken (pg : page) : M string :=
  cookie <- lift (document_cookie pg) ;;
  let sources stored :=
    {| cookie := cookie; metaContent := csrf_meta pg; sessionStored := stored |} in
  if negb (snd (getCSRFToken (sources None))) then ret (fst (getCSRFToken (sources None)))
  else
    stored <- lift (session_storage pg) ;;
    (if snd (getCSRFToken (sources stored))
     then emit (Console Warn CsrfTokenNotFound)
     else ret tt) ;;;
    ret (fst (getCSRFToken (sources stored))).

(** ** Puzzle retriever *)

Fixpoint lookup (k : string) (fields : list (string * value)) : value :=
  match fields with
  | [] => VUndefined
  | (k', v) :: rest => if (k =? k')%string then v else lookup k rest
  end.

(** [v.k]: reading a property of [undefined] or [null] throws. *)
Definition getProp (v : value) (k : string) : outcome value :=
  match v with
  | VUndefined | VNull => Threw TypeError
  | VObj fields => Returned (lookup k fields)
  | VArr items =>
      Returned (if (k =? "length")%string then VNum (Z.of_nat (List.length items))
                else VUndefined)
  | VStr s =>
      Returned (if (k =? "length")%string then VNum (Z.of_nat (String.length s))
                else VUndefined)
  | VBool _ | VNum _ => Returned VUndefined
  end.

(** [v[0]] *)
Definition getFirst (v : value) : outcome value :=
  match v with
  | VUndefined | VNull => Threw TypeError
  | VArr items => Returned (nth 0 items VUndefined)
  | VObj fields => Returned (lookup "0" fields)
  | VStr s =>
      Returned (match s with
                | String c _ => VStr (String c EmptyString)
                | EmptyString => VUndefined
                end)
  | VBool _ | VNum _ => Returned VUndefined
  end.

(** The extraction step of [fetchPuzzle] ("Extract puzzle data from
    response"): the reads of the envelope, the three assignments, and the
    reads of the [console.log] lines that follow them. *)
Definition extractPuzzle (data : value) : M value :=
  included <- lift (getProp data "included") ;;
  gameData <- lift (getFirst included) ;;
  gamePuzzle <- lift (getProp gameData "gamePuzzle") ;;
  puzzle <- lift (getProp gamePuzzle "trailGamePuzzle") ;;
  modify (set_puzzle puzzle) ;;;
  gridSize <- lift (getProp puzzle "gridSize") ;;
  modify (set_gridSize gridSize) ;;;
  solution <- lift (getProp puzzle "solution") ;;
  modify (set_solution solution) ;;;
  _ <- lift (getProp solution "length") ;;
  _ <- lift (getProp puzzle "orderedSequence") ;;
  ret puzzle.

(** [fetchPuzzle()] *)
Definition fetchPuzzle (pg : page) : M value :=
  try_catch
    (csrfToken <- readCSRFToken pg ;;
     apiUrl <- read this_apiUrl ;;
     f <- read window_fetch ;;
     emit (CallFetch f (ArgString apiUrl)) ;;;
     response <- lift (network pg apiUrl) ;;
     (if negb (ok response) then
        errorText <- lift (text response) ;;
        emit (Console Error (HttpFailure (status response) errorText)) ;;;
        throw (HttpError (status response) errorText)
      else ret tt) ;;;
     data <- lift (json response) ;;
     extractPuzzle data)
    (fun error =>
       emit (Console Error (FailedToFetch error)) ;;;
       throw error).

(** ** Reading a trace *)

Definition isKeyEvent (e : event) : bool :=
  match e with
  | KeyEvent _ _ _ => true
  | _ => false
  end.

(** An activation is a [click()], on a cell or on a button. *)
Definition isActivation (e : event) : bool :=
  match e with
  | ClickCell _ | Click _ => true
  | _ => false
  end.

Definition keyEvents (tr : list event) : list event := filter isKeyEvent tr.

Definition activations (tr : list event) : list event := filter isActivation tr.

(** The keys of the [keydown] events, in order. *)
Definition pressedKeys (tr : list event) : list string :=
  flat_map (fun e =>
              match e with
              | KeyEvent type key _ => if (type =? "keydown")%string then [key] else []
              | _ => []
              end) tr.

(** Events that touch neither the board nor [window.fetch]: timers and
    console output. *)
Definition passive (e : event) : Prop :=
  match e with
  | Wait _ | Console _ _ => True
  | _ => False
  end.

(** The keydown/keyup pair [simulateKeyPress] dispatches. *)
Definition keyPair (key : string) : list event :=
  [KeyEvent "keydown" key (keyCodeOf key); KeyEvent "keyup" key (keyCodeOf key)].

(** The world after one step of the replay loop: the key press, then
    [sleep(speed)]. *)
Definition afterStep (pg : page) (direction : string) (speed : Z) (st : state) : state :=
  snd (sleep pg speed (snd (simulateKeyPress pg direction st))).

(** How many times a trace assigns [f] to [window.fetch]. *)
Definition assignments (f : fetch_fn) (tr : list event) : nat :=
  List.length (filter (fun e =>
                         match e with
                         | SetFetch g => fetch_fn_eqb f g
                         | _ => false
                         end) tr).

(** Several effects, in order. *)
Definition add_events (evs : list event) (st : state) : state :=
  fold_left (fun s e => add_event e s) evs st.

(** The URLs the wrapper records among the calls it sees. *)
Definition matching (args : list fetch_arg) : list string :=
  flat_map (fun arg =>
              match arg with
              | ArgString url => if isGameApiUrl url then [url] else []
              | ArgObject => []
              end) args.

(** What an interception session does besides assigning [window.fetch]:
    clicks, forwarded calls and the timer. *)
Definition sessionEvent (e : event) : Prop :=
  match e with
  | Click _ | CallFetch _ _ | Wait _ => True
  | _ => False
  end.

(** The result of the passive scan sends [detectApiUrl] to the active path:
    [null], or an empty string. *)
Definition falsy (existingUrl : option string) : Prop :=
  existingUrl = None \/ existingUrl = Some "".

(** ** Reading the response envelope *)

(** One step of a traversal: a property, or the first element. *)
Inductive step :=
| Key (k : string)
| First.

Definition getStep (v : value) (s : step) : outcome value :=
  match s with
  | Key k => getProp v k
  | First => getFirst v
  end.

(** A read that yields [undefined] where the plain read throws (optional
    chaining, [v?.k]). *)
Definition readStep (v : value) (s : step) : value :=
  match getStep v s with
  | Returned x => x
  | Threw _ => VUndefined
  end.

(** What lies at the end of a path in the envelope; [undefined] when a
    field along the path is missing. *)
Definition dig (data : value) (path : list step) : value :=
  fold_left readStep path data.

(** A field is absent when reading it gives [undefined], or [null]. *)
Definition absent (v : value) : bool :=
  match v with
  | VUndefined | VNull => true
  | _ => false
  end.

(** [data.included[0].gamePuzzle.trailGamePuzzle] *)
Definition puzzlePath : list step :=
  [Key "included"; First; Key "gamePuzzle"; Key "trailGamePuzzle"].

(** ** Example pages *)

(** A document with the board, the given cells and the key grid, and no
    refresh or play button. *)
Definition boardDocument (cells : list Z) : document :=
  {| refresh_button := Returned None;
     buttons := Returned [];
     trail_board := true;
     cell_idx := cells;
     trail_grid := true |}.

(** The cookies of a signed-in page. *)
Definition sessionCookie : string := "lang=en; JSESSIONID=ajax:0123456789".

(** A page with the given documents whose timers fire on time, which has
    logged no resource, issues no request of its own and whose network is
    down. *)
Definition quietPage (dom : Z -> document) : page :=
  {| resource_entries := Returned [];
     new_URL := fun _ => Threw (PageError "Invalid URL");
     dom_at := dom;
     timer_lag := fun _ => 0;
     page_requests := fun _ => [];
     network := fun _ => Threw (PageError "Failed to fetch");
     document_cookie := Returned sessionCookie;
     csrf_meta := None;
     session_storage := Returned (Some None) |}.

(** The world right after [new LinkedInZipBot()]. *)
Definition initialState : state :=
  {| now := 0;
     window_fetch := PageFetch 0;
     this_apiUrl := constructorApiUrl;
     this_puzzle := VNull;
     this_gridSize := VNum 0;
     this_solution := VArr [];
     trace := [] |}.

(** A 5 x 5 board that is there from the start. *)
Definition readyPage : page :=
  quietPage (fun _ => boardDocument (map Z.of_nat (seq 0 25))).

(** A 2 x 2 board whose root is there from the start and whose cells are
    rendered 10.1 s later. *)
Definition latePage : page :=
  quietPage (fun t => boardDocument (if t <? 10100 then [] else [0; 1; 2; 3])).

(** A ready 5 x 5 board without the element that takes the key events. *)
Definition gridlessPage : page :=
  quietPage (fun _ =>
               {| refresh_button := Returned None;
                  buttons := Returned [];
                  trail_board := true;
                  cell_idx := map Z.of_nat (seq 0 25);
                  trail_grid := false |}).

(** The page of [readyPage] with a refresh button whose [click()] throws. *)
Definition brokenButton : element :=
  {| textContent := "Refresh";
     click_requests := [];
     click_throws := Some (PageError "click failed") |}.

Definition throwingPage : page :=
  quietPage (fun _ =>
               {| refresh_button := Returned (Some brokenButton);
                  buttons := Returned [brokenButton];
                  trail_board := true;
                  cell_idx := map Z.of_nat (seq 0 25);
                  trail_grid := true |}).

(** A page with a "Play again" button whose click requests the puzzle. *)
Definition gameRequest : string :=
  "/voyager/api/graphql?variables=(gameTypeId:6)&queryId=voyagerIdentityDashGames.0123".

Definition playButton : element :=
  {| textContent := "Play again";
     click_requests := [ArgObject; ArgString "/voyager/api/graphql?variables=(count:3)";
                        ArgString gameRequest];
     click_throws := None |}.

Definition playPage : page :=
  quietPage (fun _ =>
               {| refresh_button := Returned None;
                  buttons := Returned [playButton];
                  trail_board := true;
                  cell_idx := map Z.of_nat (seq 0 25);
                  trail_grid := true |}).

(** A page whose resource-timing log holds the puzzle request. *)
Definition loggedRequest : string :=
  "https://www.linkedin.com/voyager/api/graphql?variables=(gameTypeId:6)&queryId=voyagerIdentityDashGames.0123".

Definition loggedPage : page :=
  {| resource_entries := Returned ["https://www.linkedin.com/games/zip"; loggedRequest];
     new_URL := fun name =>
                  if (name =? loggedRequest)%string
                  then Returned {| pathname := "/voyager/api/graphql";
                                   search := "?variables=(gameTypeId:6)&queryId=voyagerIdentityDashGames.0123" |}
                  else Threw (PageError "Invalid URL");
     dom_at := fun _ => boardDocument (map Z.of_nat (seq 0 25));
     timer_lag := fun _ => 0;
     page_requests := fun _ => [];
     network := fun _ => Threw (PageError "Failed to fetch");
     document_cookie := Returned sessionCookie;
     csrf_meta := None;
     session_storage := Returned (Some None) |}.

(** A page whose resource-timing log holds an entry with both markers in its
    fragment: the URL has an empty path and no query. *)
Definition fragmentRequest : string :=
  "x:#/voyager/api/graphql?variables=(gameTypeId:6)".

Definition fragmentPage : page :=
  {| resource_entries := Returned [fragmentRequest];
     new_URL := fun name =>
                  if (name =? fragmentRequest)%string
                  then Returned {| pathname := ""; search := "" |}
                  else Threw (PageError "Invalid URL");
     dom_at := fun _ => boardDocument (map Z.of_nat (seq 0 25));
     timer_lag := fun _ => 0;
     page_requests := fun _ => [];
     network := fun _ => Threw (PageError "Failed to fetch");
     document_cookie := Returned sessionCookie;
     csrf_meta := None;
     session_storage := Returned (Some None) |}.

(** A page that answers every request with the given body. *)
Definition answeringPage (data : value) : page :=
  {| resource_entries := Returned [];
     new_URL := fun _ => Threw (PageError "Invalid URL");
     dom_at := fun _ => boardDocument (map Z.of_nat (seq 0 9));
     timer_lag := fun _ => 0;
     page_requests := fun _ => [];
     network := fun _ => Returned {| ok := true; status := 200; text := Returned "";
                                     json := Returned data |};
     document_cookie := Returned sessionCookie;
     csrf_meta := None;
     session_storage := Returned (Some None) |}.

Definition envelope (puzzle : value) : value :=
  VObj [("data", VObj []);
        ("included", VArr [VObj [("gamePuzzle", VObj [("trailGamePuzzle", puzzle)])]])].

(** The end-to-end example of the specification: a 3 x 3 puzzle. *)
Definition examplePuzzle : value :=
  VObj [("gridSize", VNum 3);
        ("solution", VArr [VNum 0; VNum 1; VNum 4; VNum 7; VNum 8]);
        ("orderedSequence", VArr [VNum 0; VNum 8])].

(** The same puzzle without its [gridSize]. *)
Definition puzzleWithoutGridSize : value :=
  VObj [("solution", VArr [VNum 0; VNum 1; VNum 4; VNum 7; VNum 8]);
        ("orderedSequence", VArr [VNum 0; VNum 8])].

(** The same puzzle without its [solution]. *)
Definition puzzleWithoutSolution : value :=
  VObj [("gridSize", VNum 3);
        ("orderedSequence", VArr [VNum 0; VNum 8])].

(** A page that answers like [answeringPage] and holds no token anywhere:
    no cookie, no meta tag, an empty session storage. *)
Definition signedOutPage (data : value) : page :=
  {| resource_entries := Returned [];
     new_URL := fun _ => Threw (PageError "Invalid URL");
     dom_at := fun _ => boardDocument (map Z.of_nat (seq 0 9));
     timer_lag := fun _ => 0;
     page_requests := fun _ => [];
     network := fun _ => Returned {| ok := true; status := 200; text := Returned "";
                                     json := Returned data |};
     document_cookie := Returned "";
     csrf_meta := None;
     session_storage := Returned (Some None) |}.

(** A page that answers like [answeringPage] in a document whose cookies
    cannot be read. *)
Definition cookielessPage (data : value) : page :=
  {| resource_entries := Returned [];
     new_URL := fun _ => Threw (PageError "Invalid URL");
     dom_at := fun _ => boardDocument (map Z.of_nat (seq 0 9));
     timer_lag := fun _ => 0;
     page_requests := fun _ => [];
     network := fun _ => Returned {| ok := true; status := 200; text := Returned "";
                                     json := Returned data |};
     document_cookie := Threw TypeError;
     csrf_meta := None;
     session_storage := Returned (Some None) |}.

(** ** Further readings of the code *)

(** The key of the reverse move. *)
Definition oppositeKey (key : string) : string :=
  if (key =? "ArrowUp")%string then "ArrowDown"
  else if (key =? "ArrowDown")%string then "ArrowUp"
  else if (key =? "ArrowLeft")%string then "ArrowRight"
  else "ArrowLeft".

(** The keys the replay loop computes for a path: one for each consecutive
    pair, up to the first pair without a direction. *)
Fixpoint directions (gridSize fromCell : Z) (rest : list Z) : list string :=
  match rest with
  | [] => []
  | toCell :: rest' =>
      match getDirection gridSize fromCell toCell with
      | Some direction => direction :: directions gridSize toCell rest'
      | None => []
      end
  end.

(** The four keys [getDirection] can return. *)
Definition arrowKeys : list string :=
  ["ArrowUp"; "ArrowDown"; "ArrowLeft"; "ArrowRight"].

(** The later world differs from the earlier one at most in its trace and
    its clock, which has not gone back: [window.fetch] and the fields of
    [this] are as they were. *)
Definition untouched (st st' : state) : Prop :=
  window_fetch st' = window_fetch st /\
  this_apiUrl st' = this_apiUrl st /\
  this_puzzle st' = this_puzzle st /\
  this_gridSize st' = this_gridSize st /\
  this_solution st' = this_solution st /\
  now st <= now st'.

(** The element [detectApiUrl] activates: the refresh button if there is
    one, else the first button labelled Refresh or Play, if any.  Looking
    for it may throw. *)
Definition affordance (d : document) : outcome (option element) :=
  match refresh_button d with
  | Threw e => Threw e
  | Returned (Some el) => Returned (Some el)
  | Returned None =>
      match buttons d with
      | Threw e => Threw e
      | Returned btns => Returned (find isRefreshOrPlay btns)
      end
  end.

(** The requests a click on the affordance issues. *)
Definition affordanceRequests (target : option element) : list fetch_arg :=
  match target with
  | Some el => click_requests el
  | None => []
  end.

(** Steps 1 and 2 of the [try] block of [run()]: the endpoint is detected,
    stored in [this.apiUrl], and the puzzle is fetched. *)
Definition detectThenFetch (pg : page) : M value :=
  apiUrl <- detectApiUrl pg ;;
  modify (set_apiUrl apiUrl) ;;;
  fetchPuzzle pg.

(** A trace holds no call of a [fetch] function. *)
Definition isCallFetch (e : event) : bool :=
  match e with
  | CallFetch _ _ => true
  | _ => false
  end.

(** A page whose server refuses the request and whose response body cannot
    be read. *)
Definition brokenBodyPage : page :=
  {| resource_entries := Returned [];
     new_URL := fun _ => Threw (PageError "Invalid URL");
     dom_at := fun _ => boardDocument (map Z.of_nat (seq 0 9));
     timer_lag := fun _ => 0;
     page_requests := fun _ => [];
     network := fun _ => Returned {| ok := false; status := 502;
                                     text := Threw (PageError "body stream already read");
                                     json := Threw (PageError "body stream already read") |};
     document_cookie := Returned sessionCookie;
     csrf_meta := None;
     session_storage := Returned (Some None) |}.

(** A page whose server refuses the request, with a body that holds a
    puzzle all the same. *)
Definition forbiddenPage : page :=
  {| resource_entries := Returned [];
     new_URL := fun _ => Threw (PageError "Invalid URL");
     dom_at := fun _ => boardDocument (map Z.of_nat (seq 0 9));
     timer_lag := fun _ => 0;
     page_requests := fun _ => [];
     network := fun _ => Returned {| ok := false; status := 403;
                                     text := Returned "CSRF check failed";
                                     json := Returned (envelope examplePuzzle) |};
     document_cookie := Returned sessionCookie;
     csrf_meta := None;
     session_storage := Returned (Some None) |}.

(** * Properties *)

(** ** Coordinate mapper *)

Lemma rem_is_mod (gridSize id : Z) :
  0 < gridSize -> 0 <= id -> Z.rem id gridSize = id mod gridSize.
Proof.
  intros HN Hid. apply Z.rem_mod_nonneg; lia.
Qed.

(** Rounding a quotient whose dividend is below [2 ^ 53] never reaches the
    next integer: the floor of the rounded quotient is the floor of the
    quotient, for either sign.  [P] and [T] are the powers of two that scale
    the dividend and the divisor. *)
Lemma round_floor_exact (n d P T m0 m r : Z) :
  0 < n < 2 ^ 53 -> 0 < d -> 0 < P -> 0 < T -> P = 1 \/ T = 1 ->
  m0 = (n * P) / (d * T) -> r = n * P - m0 * (d * T) -> 2 ^ 52 <= m0 ->
  (m = m0 /\ 2 * r <= d * T) \/ (m = m0 + 1 /\ d * T <= 2 * r) ->
  (m * T) / P = n / d /\ (- (m * T)) / P = (- n) / d.
Proof.
  intros Hn Hd HP HT HPT Hm0 Hr H52 Hm.
  assert (E52 : 2 ^ 52 = 4503599627370496) by reflexivity.
  assert (E53 : 2 ^ 53 = 9007199254740992) by reflexivity.
  rewrite E52 in H52. rewrite E53 in Hn. clear E52 E53.
  assert (HdT : 0 < d * T) by nia.
  pose proof (Z.div_mod (n * P) (d * T) ltac:(lia)) as Hdm.
  pose proof (Z.mod_pos_bound (n * P) (d * T) HdT) as Hmb.
  rewrite <- Hm0 in Hdm.
  assert (Hr' : r = (n * P) mod (d * T)) by lia.
  rewrite <- Hr' in Hmb. clear Hr'.
  destruct HPT as [-> | ->].
  - (* no scaling of the dividend: the quotient is at least 2^52 *)
    rewrite !Z.mul_1_r in *. rewrite !Z.div_1_r.
    assert (d * T = 1) by nia.
    assert (d = 1 /\ T = 1) as [-> ->] by nia.
    rewrite !Z.div_1_r. nia.
  - rewrite !Z.mul_1_r in *.
    pose proof (Z.div_mod n d ltac:(lia)) as Hq.
    pose proof (Z.mod_pos_bound n d Hd) as Hqb.
    pose proof (Z.div_mod (- n) d ltac:(lia)) as Hq'.
    pose proof (Z.mod_pos_bound (- n) d Hd) as Hqb'.
    set (Q := n / d) in *. set (R := n mod d) in *.
    set (Q' := (- n) / d) in *. set (R' := (- n) mod d) in *.
    assert (Hbig : 2 * P <= d -> False).
    { intros Hbig. nia. }
    split.
    + symmetry. apply Z.div_unique with (r := m - Q * P); [ | lia ].
      left. split.
      * assert (Q * P <= m0) by nia. lia.
      * assert (m0 < (Q + 1) * P) by nia.
        destruct Hm as [[-> _] | [-> Hup]]; [ lia | ].
        destruct (Z.eq_dec m0 ((Q + 1) * P - 1)) as [Heq | Hne]; [ | lia ].
        exfalso. apply Hbig. nia.
    + symmetry. apply Z.div_unique with (r := - m - Q' * P); [ | lia ].
      left. split.
      * (* m <= - Q' * P *)
        assert (m0 <= - Q' * P) by nia.
        destruct Hm as [[-> _] | [-> Hup]]; [ lia | ].
        destruct (Z.eq_dec m0 (- Q' * P)) as [Heq | Hne]; [ | lia ].
        exfalso. nia.
      * (* (- Q' - 1) * P < m *)
        assert ((- Q' - 1) * P <= m0) by nia.
        destruct Hm as [[-> Hdown] | [-> _]]; [ | lia ].
        destruct (Z.eq_dec m0 ((- Q' - 1) * P)) as [Heq | Hne]; [ | lia ].
        exfalso.
        destruct (Z.eq_dec R' 0) as [HR0 | HR0].
        -- nia.
        -- apply Hbig. nia.
Qed.

(** With the first exponent the scaled quotient is at least [2 ^ 51]. *)
Lemma scaled_lower (n d e0 : Z) :
  0 < n -> 0 < d -> e0 = Z.log2 n - Z.log2 d - 52 ->
  2 ^ 51 * (d * 2 ^ Z.max 0 e0) <= n * 2 ^ Z.max 0 (- e0).
Proof.
  intros Hn Hd He0.
  pose proof (Z.log2_spec n Hn) as [Hn1 Hn2].
  pose proof (Z.log2_spec d Hd) as [Hd1 Hd2].
  pose proof (Z.log2_nonneg n) as Hln. pose proof (Z.log2_nonneg d) as Hld.
  set (ln := Z.log2 n) in *. set (ld := Z.log2 d) in *.
  rewrite Z.pow_succ_r in Hd2 by lia. rewrite Z.pow_succ_r in Hn2 by lia.
  assert (Hpos : forall k, 0 < 2 ^ Z.max 0 k) by (intros; apply Z.pow_pos_nonneg; lia).
  assert (Hkey : 2 ^ ln * 2 ^ Z.max 0 (- e0) = 2 ^ 52 * 2 ^ ld * 2 ^ Z.max 0 e0).
  { rewrite <- !Z.pow_add_r by lia. f_equal. lia. }
  pose proof (Hpos e0). pose proof (Hpos (- e0)).
  assert (H52 : 2 ^ 52 = 2 * 2 ^ 51) by reflexivity.
  rewrite H52 in Hkey.
  set (A := 2 ^ 51) in *. assert (0 < A) by (subst A; reflexivity).
  nia.
Qed.

(** What [roundedQuotient] computes: the scaled quotient [m0] has 53 bits,
    and the significand is [m0] or [m0 + 1], whichever is nearer. *)
Lemma roundedQuotient_spec (n d : Z) :
  0 < n -> 0 < d ->
  let m := fst (roundedQuotient n d) in
  let e := snd (roundedQuotient n d) in
  let P := 2 ^ Z.max 0 (- e) in
  let T := 2 ^ Z.max 0 e in
  let m0 := (n * P) / (d * T) in
  let r := n * P - m0 * (d * T) in
  0 < P /\ 0 < T /\ (P = 1 \/ T = 1) /\ 2 ^ 52 <= m0 /\
  ((m = m0 /\ 2 * r <= d * T) \/ (m = m0 + 1 /\ d * T <= 2 * r)).
Proof.
  intros Hn Hd. unfold roundedQuotient.
  set (e0 := Z.log2 n - Z.log2 d - 52).
  pose proof (scaled_lower n d e0 Hn Hd eq_refl) as Hlow.
  assert (Hpos : forall k, 0 < 2 ^ Z.max 0 k) by (intros; apply Z.pow_pos_nonneg; lia).
  set (e := if _ <? 2 ^ 52 then e0 - 1 else e0).
  cbn [fst snd].
  assert (He : 2 ^ 52 <= (n * 2 ^ Z.max 0 (- e)) / (d * 2 ^ Z.max 0 e)).
  { pose proof (Hpos e). pose proof (Hpos (- e)).
    apply Z.div_le_lower_bound; [ nia | ].
    subst e. destruct (Z.ltb_spec ((n * 2 ^ Z.max 0 (- e0)) / (d * 2 ^ Z.max 0 e0)) (2 ^ 52)) as [Hlt | Hge].
    - assert (H52 : 2 ^ 52 = 2 * 2 ^ 51) by reflexivity. rewrite H52.
      destruct (Z.le_gt_cases e0 0) as [Hneg | Hposi].
      + replace (Z.max 0 (e0 - 1)) with 0 by lia.
        replace (Z.max 0 (- (e0 - 1))) with (Z.succ (Z.max 0 (- e0))) by lia.
        rewrite Z.pow_succ_r by lia.
        replace (Z.max 0 e0) with 0 in Hlow by lia. nia.
      + replace (Z.max 0 (- (e0 - 1))) with 0 by lia.
        replace (Z.max 0 (- e0)) with 0 in Hlow by lia.
        replace (Z.max 0 e0) with (Z.succ (Z.max 0 (e0 - 1))) in Hlow by lia.
        rewrite Z.pow_succ_r in Hlow by lia. nia.
    - pose proof (Hpos e0). pose proof (Hpos (- e0)).
      pose proof (Z.mul_div_le (n * 2 ^ Z.max 0 (- e0)) (d * 2 ^ Z.max 0 e0) ltac:(nia)).
      nia. }
  repeat match goal with |- _ /\ _ => split end.
  - apply Hpos.
  - apply Hpos.
  - destruct (Z.le_gt_cases e 0).
    + right. replace (Z.max 0 e) with 0 by lia. reflexivity.
    + left. replace (Z.max 0 (- e)) with 0 by lia. reflexivity.
  - exact He.
  - set (num := n * 2 ^ Z.max 0 (- e)). set (den := d * 2 ^ Z.max 0 e).
    set (m0 := num / den).
    destruct (Z.ltb_spec (2 * (num - m0 * den)) den) as [H1 | H1]; [ left; split; [ reflexivity | lia ] | ].
    destruct (Z.ltb_spec den (2 * (num - m0 * den))) as [H2 | H2]; [ right; split; [ reflexivity | lia ] | ].
    destruct (Z.even m0); [ left | right ]; (split; [ reflexivity | lia ]).
Qed.

(** On safe integers [Math.floor(a / b)] is floor division. *)
Lemma floorQuotient_exact (a b : Z) :
  0 < b -> safeInteger a -> floorQuotient a b = a / b.
Proof.
  unfold safeInteger. intros Hb Ha. unfold floorQuotient.
  destruct (Z.eqb_spec a 0) as [-> | Ha0]; [ reflexivity | ].
  destruct (Z.eqb_spec b 0) as [-> | _]; [ lia | ].
  cbn [orb].
  assert (Hn : 0 < Z.abs a < 2 ^ 53) by lia.
  replace (Z.abs b) with b by lia.
  pose proof (roundedQuotient_spec (Z.abs a) b (proj1 Hn) Hb) as Hspec.
  destruct (roundedQuotient (Z.abs a) b) as [m e]. cbn [fst snd] in Hspec. cbv zeta in Hspec.
  destruct Hspec as (HP & HT & HPT & H52 & Hm).
  pose proof (round_floor_exact (Z.abs a) b _ _ _ m _ Hn Hb HP HT HPT eq_refl eq_refl H52 Hm)
    as [Hpos Hneg].
  replace (Z.sgn b) with 1 by lia.
  destruct (Z.lt_total a 0) as [Hlt | [Heq | Hgt]]; [ | lia | ].
  - replace (Z.sgn a) with (-1) by lia. replace (Z.abs a) with (- a) in * by lia.
    replace (-1 * 1 * m * 2 ^ Z.max 0 e) with (- (m * 2 ^ Z.max 0 e)) by lia.
    rewrite Hneg. f_equal. lia.
  - replace (Z.sgn a) with 1 by lia. replace (Z.abs a) with a in * by lia.
    replace (1 * 1 * m * 2 ^ Z.max 0 e) with (m * 2 ^ Z.max 0 e) by lia.
    exact Hpos.
Qed.

(** On a safe, non-negative identifier the code computes the coordinates of
    the data model. *)
Lemma indexToCoords_spec (gridSize id : Z) :
  0 < gridSize -> 0 <= id -> safeInteger id ->
  indexToCoords gridSize id = specCoords gridSize id.
Proof.
  intros HN Hid Hsafe. unfold indexToCoords, specCoords.
  rewrite floorQuotient_exact by assumption.
  rewrite rem_is_mod by assumption. reflexivity.
Qed.

(** C7 (as amended): for a positive grid size and a valid cell identifier
    that is a safe integer (below 2^53), [indexToCoords] returns
    row = floor(id / gridSize) and col = id mod gridSize, both within the
    grid, and row * gridSize + col = id. *)
Theorem indexToCoords_roundtrip (gridSize id : Z) :
  0 < gridSize ->
  validCell gridSize id ->
  safeInteger id ->
  row (indexToCoords gridSize id) = id / gridSize /\
  col (indexToCoords gridSize id) = id mod gridSize /\
  row (indexToCoords gridSize id) * gridSize + col (indexToCoords gridSize id) = id /\
  0 <= row (indexToCoords gridSize id) < gridSize /\
  0 <= col (indexToCoords gridSize id) < gridSize.
Proof.
  intros HN [Hid Hlt] Hsafe.
  rewrite indexToCoords_spec by assumption. cbn [specCoords row col].
  pose proof (Z.div_mod id gridSize ltac:(lia)) as Hdm.
  pose proof (Z.mod_pos_bound id gridSize HN) as Hmod.
  repeat split; try lia.
  - apply Z.div_pos; lia.
  - apply Z.div_lt_upper_bound; lia.
Qed.

Lemma indexToCoords_roundtrip_witness :
  row (indexToCoords 5 7) = 7 / 5 /\
  col (indexToCoords 5 7) = 7 mod 5 /\
  row (indexToCoords 5 7) * 5 + col (indexToCoords 5 7) = 7 /\
  0 <= row (indexToCoords 5 7) < 5 /\
  0 <= col (indexToCoords 5 7) < 5.
Proof.
  apply (indexToCoords_roundtrip 5 7); unfold validCell, safeInteger; lia.
Defined.

(** C7 as stated fails on large grids: cell 38000000390000000 is valid for
    grid size 200000001 and a number holds it exactly, its quotient by the
    grid size rounds up to the next integer, and the row the code returns is
    one more than floor(id / gridSize), so that row * gridSize + col is not
    the identifier. *)
Lemma indexToCoords_rounding_counterexample :
  let gridSize := 200000001 in
  let id := 38000000390000000 in
  0 < gridSize /\
  validCell gridSize id /\
  representable gridSize = true /\ representable id = true /\
  id / gridSize = 190000000 /\
  row (indexToCoords gridSize id) = 190000001 /\
  col (indexToCoords gridSize id) = id mod gridSize /\
  row (indexToCoords gridSize id) <> id / gridSize /\
  row (indexToCoords gridSize id) * gridSize + col (indexToCoords gridSize id) <> id.
Proof.
  cbv zeta. unfold validCell.
  assert (Hrow : row (indexToCoords 200000001 38000000390000000) = 190000001)
    by (vm_compute; reflexivity).
  assert (Hcol : col (indexToCoords 200000001 38000000390000000) = 200000000)
    by (vm_compute; reflexivity).
  assert (Hdiv : 38000000390000000 / 200000001 = 190000000) by (vm_compute; reflexivity).
  assert (Hmod : 38000000390000000 mod 200000001 = 200000000) by (vm_compute; reflexivity).
  rewrite Hrow, Hcol, Hdiv, Hmod.
  repeat match goal with |- _ /\ _ => split end;
    try (vm_compute; reflexivity); lia.
Qed.

(** Coordinates of a valid, safe cell, as linear facts. *)
Lemma coords_facts (gridSize id : Z) :
  0 < gridSize -> 0 <= id ->
  id = gridSize * row (specCoords gridSize id) + col (specCoords gridSize id) /\
  0 <= col (specCoords gridSize id) < gridSize.
Proof.
  intros HN Hid. cbn [specCoords row col].
  split.
  - apply Z.div_mod. lia.
  - apply Z.mod_pos_bound. assumption.
Qed.

(** [getDirection] in terms of the two deltas of the data model. *)
Lemma getDirection_deltas (gridSize a b : Z) :
  0 < gridSize -> 0 <= a -> 0 <= b -> safeInteger a -> safeInteger b ->
  getDirection gridSize a b =
    let rowDiff := rowDelta gridSize a b in
    let colDiff := colDelta gridSize a b in
    if (rowDiff =? -1) && (colDiff =? 0) then Some "ArrowUp"
    else if (rowDiff =? 1) && (colDiff =? 0) then Some "ArrowDown"
    else if (rowDiff =? 0) && (colDiff =? -1) then Some "ArrowLeft"
    else if (rowDiff =? 0) && (colDiff =? 1) then Some "ArrowRight"
    else None.
Proof.
  intros HN Ha Hb Sa Sb. unfold getDirection, rowDelta, colDelta.
  destruct (Z.eqb_spec gridSize 0); [lia |].
  rewrite !indexToCoords_spec by assumption. reflexivity.
Qed.

Ltac split_eqb :=
  repeat match goal with
         | |- context [Z.eqb ?x ?y] => destruct (Z.eqb_spec x y)
         end; cbn [andb].

(** C8 (as amended): for cells valid for grid size N that are safe integers
    (below 2^53), [getDirection] is [null] exactly when the cells are equal,
    or their Chebyshev distance exceeds 1, or both deltas are nonzero;
    otherwise it is the key of the one move whose unit orthogonal step leads
    from the first cell to the second. *)
Theorem getDirection_None_iff (gridSize a b : Z) :
  0 < gridSize ->
  validCell gridSize a ->
  validCell gridSize b ->
  safeInteger a ->
  safeInteger b ->
  (getDirection gridSize a b = None <->
     a = b \/ 1 < chebyshev gridSize a b \/
     (rowDelta gridSize a b <> 0 /\ colDelta gridSize a b <> 0)) /\
  (forall m : Move,
     getDirection gridSize a b = Some (moveKey m) <->
     (rowDelta gridSize a b, colDelta gridSize a b) = moveDelta m) /\
  (getDirection gridSize a b <> None ->
   exists m : Move, getDirection gridSize a b = Some (moveKey m) /\
     forall m' : Move, getDirection gridSize a b = Some (moveKey m') -> m' = m).
Proof.
  intros HN [Ha _] [Hb _] Sa Sb.
  destruct (coords_facts gridSize a HN Ha) as [Ea Ca].
  destruct (coords_facts gridSize b HN Hb) as [Eb Cb].
  rewrite getDirection_deltas by assumption.
  unfold chebyshev, rowDelta, colDelta in *.
  set (ra := row (specCoords gridSize a)) in *.
  set (ca := col (specCoords gridSize a)) in *.
  set (rb := row (specCoords gridSize b)) in *.
  set (cb := col (specCoords gridSize b)) in *.
  clearbody ra ca rb cb. cbv zeta.
  assert (Hsame : a = b <-> rb - ra = 0 /\ cb - ca = 0).
  { split.
    - intros ->. assert (ra = rb) by nia. lia.
    - intros [Hr Hc]. assert (ra = rb) by lia. subst rb. lia. }
  split; [| split].
  - rewrite Hsame.
    split_eqb; split; intros H; try discriminate; try reflexivity; lia.
  - intros m; destruct m; cbn [moveKey moveDelta]; split_eqb;
      split; intros H; try discriminate; try reflexivity;
      try (inversion H; lia); try (exfalso; congruence); f_equal; lia.
  - split_eqb; intros H; try (exfalso; congruence).
    + exists Up; split; [reflexivity |]. intros m'; destruct m'; cbn; congruence.
    + exists Down; split; [reflexivity |]. intros m'; destruct m'; cbn; congruence.
    + exists Left; split; [reflexivity |]. intros m'; destruct m'; cbn; congruence.
    + exists Right; split; [reflexivity |]. intros m'; destruct m'; cbn; congruence.
Qed.

Lemma getDirection_None_iff_witness :
  (getDirection 5 2 7 = None <->
     2 = 7 \/ 1 < chebyshev 5 2 7 \/ (rowDelta 5 2 7 <> 0 /\ colDelta 5 2 7 <> 0)) /\
  (forall m : Move,
     getDirection 5 2 7 = Some (moveKey m) <->
     (rowDelta 5 2 7, colDelta 5 2 7) = moveDelta m) /\
  (getDirection 5 2 7 <> None ->
   exists m : Move, getDirection 5 2 7 = Some (moveKey m) /\
     forall m' : Move, getDirection 5 2 7 = Some (moveKey m') -> m' = m).
Proof.
  apply (getDirection_None_iff 5 2 7); unfold validCell, safeInteger; lia.
Defined.

(** C8 as stated fails on large grids: on grid size 134217729 the cells
    9007199590285312 and 9007199456067584 are valid and numbers hold them
    exactly; the second lies one row up and one column to the right of the
    first, so both deltas are nonzero, yet the rounded quotients put both in
    the same row and [getDirection] answers ArrowRight. *)
Lemma getDirection_rounding_counterexample :
  let gridSize := 134217729 in
  let a := 9007199590285312 in
  let b := 9007199456067584 in
  0 < gridSize /\ validCell gridSize a /\ validCell gridSize b /\
  representable gridSize = true /\ representable a = true /\ representable b = true /\
  b = a - gridSize + 1 /\
  rowDelta gridSize a b = -1 /\ colDelta gridSize a b = 1 /\
  (rowDelta gridSize a b <> 0 /\ colDelta gridSize a b <> 0) /\
  getDirection gridSize a b = Some "ArrowRight" /\
  getDirection gridSize a b <> None.
Proof.
  cbv zeta. unfold validCell.
  assert (Hr : rowDelta 134217729 9007199590285312 9007199456067584 = -1)
    by (vm_compute; reflexivity).
  assert (Hc : colDelta 134217729 9007199590285312 9007199456067584 = 1)
    by (vm_compute; reflexivity).
  assert (Hd : getDirection 134217729 9007199590285312 9007199456067584 = Some "ArrowRight")
    by (vm_compute; reflexivity).
  rewrite Hr, Hc, Hd.
  repeat match goal with |- _ /\ _ => split end;
    try lia; try (vm_compute; reflexivity); discriminate.
Qed.

(** ** Running the script *)

Lemma sleep_run (pg : page) (ms : Z) (st : state) :
  sleep pg ms st =
    (Returned tt,
     set_now (now st + timerDelay ms + Z.max 0 (timer_lag pg (now st)))
       (add_event (Wait ms) st)).
Proof. reflexivity. Qed.

(** Delays of the signed 32-bit range are armed as they are. *)
Lemma timerDelay_small (ms : Z) : 0 <= ms < 2 ^ 31 -> timerDelay ms = ms.
Proof.
  intros H. unfold timerDelay, toInt32.
  assert (E31 : 2 ^ 31 = 2147483648) by reflexivity.
  assert (E32 : 2 ^ 32 = 4294967296) by reflexivity.
  rewrite E31, E32 in *.
  rewrite Z.mod_small by lia. lia.
Qed.

Lemma timerDelay_nonneg (ms : Z) : 0 <= timerDelay ms.
Proof. unfold timerDelay. lia. Qed.

(** In the signed 32-bit range a negative delay counts as zero. *)
Lemma timerDelay_range (ms : Z) :
  - 2 ^ 31 <= ms < 2 ^ 31 -> timerDelay ms = Z.max 0 ms.
Proof.
  intros H. unfold timerDelay, toInt32.
  assert (E31 : 2 ^ 31 = 2147483648) by reflexivity.
  assert (E32 : 2 ^ 32 = 4294967296) by reflexivity.
  rewrite E31, E32 in *.
  rewrite Z.mod_small by lia. lia.
Qed.

Lemma emit_run (e : event) (st : state) :
  emit e st = (Returned tt, add_event e st).
Proof. reflexivity. Qed.

Lemma simulateKeyPress_run (pg : page) (key : string) (st : state) :
  simulateKeyPress pg key st =
    if trail_grid (dom_at pg (now st))
    then (Returned true,
          add_event (KeyEvent "keyup" key (keyCodeOf key))
            (add_event (KeyEvent "keydown" key (keyCodeOf key)) st))
    else (Returned false, st).
Proof.
  unfold simulateKeyPress, bind, document_now, read.
  destruct (trail_grid (dom_at pg (now st))); reflexivity.
Qed.

Lemma Forall_passive_keyEvents (evs : list event) :
  Forall passive evs -> keyEvents evs = [].
Proof.
  induction 1 as [| e evs He _ IH]; [reflexivity |].
  unfold keyEvents in *. cbn [filter].
  destruct e; cbn in *; try contradiction; assumption.
Qed.

Lemma Forall_passive_activations (evs : list event) :
  Forall passive evs -> activations evs = [].
Proof.
  induction 1 as [| e evs He _ IH]; [reflexivity |].
  unfold activations in *. cbn [filter].
  destruct e; cbn in *; try contradiction; assumption.
Qed.

(** The polling loop always returns, and only waits and warns. *)
Lemma pollGameBoard_passive (pg : page) (startTime timeout : Z) (st : state) :
  exists (r : bool) (st' : state) (evs : list event),
    pollGameBoard pg startTime timeout st = (Returned r, st') /\
    trace st' = trace st ++ evs /\
    Forall passive evs /\
    (r = false -> In (Console Warn (BoardTimeout timeout)) evs) /\
    now st <= now st'.
Proof.
  funelim (pollGameBoard pg startTime timeout st).
  - destruct (boardReady (dom_at pg (now st))) eqn:Hready.
    + exists true, st, []. rewrite app_nil_r.
      repeat split; [constructor | discriminate | lia].
    + destruct H as (r & st' & evs & Hrun & Htr & Hpas & Hwarn & Hnow).
      exists r, st', (Wait 200 :: evs).
      split; [exact Hrun |].
      split; [| split; [| split]].
      * rewrite Htr. cbn. rewrite <- app_assoc. reflexivity.
      * constructor; [exact I | assumption].
      * intros Hr. right. auto.
      * cbn in Hnow. lia.
  - exists false, (add_event (Console Warn (BoardTimeout timeout)) st),
      [Console Warn (BoardTimeout timeout)].
    repeat split.
    + constructor; [exact I | constructor].
    + intros _. left. reflexivity.
    + cbn. lia.
Qed.

(** Polling a board that is not ready at any instant before the deadline
    ends with [false]. *)
Lemma pollGameBoard_timeout (pg : page) (startTime timeout : Z) (st : state) :
  (forall t, now st <= t < startTime + timeout -> boardReady (dom_at pg t) = false) ->
  fst (pollGameBoard pg startTime timeout st) = Returned false.
Proof.
  funelim (pollGameBoard pg startTime timeout st); intros Hnever.
  - pose proof (proj1 (Z.ltb_lt _ _) Hlt) as Hlt'.
    rewrite Hnever by lia.
    apply H. intros t Ht. apply Hnever. cbn in Ht. lia.
  - reflexivity.
Qed.

Lemma waitForGameBoard_passive (pg : page) (timeout : Z) (st : state) :
  exists (r : bool) (st' : state) (evs : list event),
    waitForGameBoard pg timeout st = (Returned r, st') /\
    trace st' = trace st ++ evs /\
    Forall passive evs /\
    (r = false -> In (Console Warn (BoardTimeout timeout)) evs) /\
    now st <= now st'.
Proof.
  unfold waitForGameBoard, bind, document_now, read.
  destruct (boardReady (dom_at pg (now st))).
  - exists true, st, []. rewrite app_nil_r.
    repeat split; [constructor | discriminate | lia].
  - apply pollGameBoard_passive.
Qed.

Lemma waitForGameBoard_timeout (pg : page) (timeout : Z) (st : state) :
  (forall t, now st <= t < now st + timeout -> boardReady (dom_at pg t) = false) ->
  0 < timeout ->
  fst (waitForGameBoard pg timeout st) = Returned false.
Proof.
  intros Hnever Hpos.
  unfold waitForGameBoard, bind, document_now, read.
  rewrite Hnever by lia.
  apply pollGameBoard_timeout. assumption.
Qed.

(** The three ways a run of [solvePuzzle] on a non-empty solution goes: no
    board, no start cell, or the replay loop followed by the final wait. *)
Lemma solvePuzzle_shape (pg : page) (gridSize speed startCell : Z)
    (rest : list Z) (st : state) :
  exists (waited : bool) (st1 : state) (evs : list event),
    waitForGameBoard pg 10000 st = (Returned waited, st1) /\
    trace st1 = trace st ++ evs /\
    Forall passive evs /\
    (waited = false -> In (Console Warn (BoardTimeout 10000)) evs) /\
    now st <= now st1 /\
    ((trail_board (dom_at pg (now st1)) = false /\
      solvePuzzle pg gridSize (startCell :: rest) speed st =
        (Returned tt, add_event (Console Error GameBoardNotFound) st1)) \/
     (exists st2 : state,
        trail_board (dom_at pg (now st1)) = true /\
        sleep pg 200 (add_event Focus st1) = (Returned tt, st2) /\
        ((hasCellElement (dom_at pg (now st2)) startCell = false /\
          solvePuzzle pg gridSize (startCell :: rest) speed st =
            (Returned tt, add_event (Console Error StartCellNotFound) st2)) \/
         (exists st3 : state,
            hasCellElement (dom_at pg (now st2)) startCell = true /\
            sleep pg 300 (add_event (ClickCell startCell) st2) = (Returned tt, st3) /\
            solvePuzzle pg gridSize (startCell :: rest) speed st =
              (replay pg gridSize speed startCell rest ;;; sleep pg 1500) st3)))).
Proof.
  destruct (waitForGameBoard_passive pg 10000 st)
    as (r & st1 & evs & Hw & Htr & Hpas & Hwarn & Hnow).
  exists r, st1, evs. repeat (split; [assumption |]).
  unfold solvePuzzle, bind, document_now, read. rewrite Hw.
  destruct (trail_board (dom_at pg (now st1))) eqn:Hboard; cbn [negb].
  - right. rewrite emit_run, sleep_run.
    eexists. split; [reflexivity |]. split; [reflexivity |].
    match goal with
    | |- context [hasCellElement ?d startCell] =>
        destruct (hasCellElement d startCell) eqn:Hcell
    end; cbn [negb].
    + right. rewrite emit_run, sleep_run.
      eexists. split; [reflexivity |]. split; [reflexivity |].
      reflexivity.
    + left. split; reflexivity.
  - left. split; reflexivity.
Qed.

(** ** The replay loop *)

Section Replay.
Variable pg : page.
Variables gridSize speed : Z.

Lemma replay_step (fromCell toCell : Z) (rest : list Z) (direction : string)
    (st : state) :
  getDirection gridSize fromCell toCell = Some direction ->
  replay pg gridSize speed fromCell (toCell :: rest) st =
    replay pg gridSize speed toCell rest (afterStep pg direction speed st).
Proof.
  intros Hdir. cbn [replay]. rewrite Hdir.
  unfold afterStep, bind. rewrite simulateKeyPress_run, sleep_run.
  destruct (trail_grid (dom_at pg (now st))); cbn [snd]; reflexivity.
Qed.

Lemma replay_break (fromCell toCell : Z) (rest : list Z) (st : state) :
  getDirection gridSize fromCell toCell = None ->
  replay pg gridSize speed fromCell (toCell :: rest) st =
    (Returned tt, add_event (Console Error (InvalidMove fromCell toCell)) st).
Proof.
  intros Hdir. cbn [replay]. rewrite Hdir. reflexivity.
Qed.

Lemma afterStep_trace (direction : string) (st : state) :
  trace (afterStep pg direction speed st) =
    trace st ++
    (if trail_grid (dom_at pg (now st)) then keyPair direction else []) ++
    [Wait speed].
Proof.
  unfold afterStep. rewrite simulateKeyPress_run, sleep_run.
  destruct (trail_grid (dom_at pg (now st))); cbn.
  - rewrite <- !app_assoc. reflexivity.
  - reflexivity.
Qed.

Lemma keyEvents_app (xs ys : list event) :
  keyEvents (xs ++ ys) = keyEvents xs ++ keyEvents ys.
Proof. apply filter_app. Qed.

Lemma activations_app (xs ys : list event) :
  activations (xs ++ ys) = activations xs ++ activations ys.
Proof. apply filter_app. Qed.

Lemma step_events_keys (direction : string) (grid : bool) :
  (List.length (keyEvents ((if grid then keyPair direction else []) ++ [Wait speed])) <= 2)%nat.
Proof. destruct grid; cbn; lia. Qed.

Lemma step_events_activations (direction : string) (grid : bool) :
  activations ((if grid then keyPair direction else []) ++ [Wait speed]) = [].
Proof. destruct grid; reflexivity. Qed.

(** A solution with a pair that has no direction: the loop returns, its
    last effect is the error for the first such pair, the keys it
    dispatched belong to the pairs before that one, and whatever follows
    the pair in the solution plays no part. *)
Lemma replay_broken_pair (pre : list Z) :
  forall (fromCell : Z) (rest post : list Z) (a b : Z) (st : state),
    fromCell :: rest = pre ++ a :: b :: post ->
    getDirection gridSize a b = None ->
    exists (st' : state) (evs : list event) (pre' post' : list Z) (x y : Z),
      replay pg gridSize speed fromCell rest st = (Returned tt, st') /\
      trace st' = trace st ++ evs ++ [Console Error (InvalidMove x y)] /\
      fromCell :: rest = pre' ++ x :: y :: post' /\
      (List.length pre' <= List.length pre)%nat /\
      getDirection gridSize x y = None /\
      (List.length (keyEvents evs) <= 2 * List.length pre')%nat /\
      activations evs = [].
Proof.
  induction pre as [| p pre IH]; intros fromCell rest post a b st Hsol Hdir.
  - cbn in Hsol. injection Hsol as -> ->.
    exists (add_event (Console Error (InvalidMove a b)) st), [], [], post, a, b.
    rewrite replay_break by assumption.
    repeat split; try reflexivity; try assumption; cbn; lia.
  - cbn in Hsol. injection Hsol as -> Hrest.
    destruct rest as [| toCell rest'];
      [destruct pre; discriminate |].
    destruct (getDirection gridSize p toCell) as [direction |] eqn:Hstep.
    + rewrite (replay_step _ _ _ _ _ Hstep).
      destruct (IH toCell rest' post a b (afterStep pg direction speed st) Hrest Hdir)
        as (st' & evs & pre' & post' & x & y & Hrun & Htr & Hsplit & Hlen & Hxy & Hkeys & Hact).
      exists st', ((if trail_grid (dom_at pg (now st)) then keyPair direction else [])
                   ++ [Wait speed] ++ evs), (p :: pre'), post', x, y.
      split; [exact Hrun |].
      split; [rewrite Htr, afterStep_trace; rewrite <- !app_assoc; reflexivity |].
      split; [cbn; rewrite Hsplit; reflexivity |].
      split; [cbn; lia |].
      split; [exact Hxy |].
      split.
      * rewrite app_assoc, keyEvents_app, length_app.
        pose proof (step_events_keys direction (trail_grid (dom_at pg (now st)))).
        cbn [List.length]. lia.
      * rewrite app_assoc, activations_app, step_events_activations, Hact. reflexivity.
    + rewrite replay_break by assumption.
      exists (add_event (Console Error (InvalidMove p toCell)) st), [], [], rest', p, toCell.
      repeat split; try reflexivity; try assumption; cbn; lia.
Qed.

Lemma replay_truncate (pre : list Z) :
  forall (fromCell : Z) (rest rest' post : list Z) (a b : Z) (st : state),
    fromCell :: rest = pre ++ a :: b :: post ->
    fromCell :: rest' = pre ++ [a; b] ->
    getDirection gridSize a b = None ->
    replay pg gridSize speed fromCell rest st =
    replay pg gridSize speed fromCell rest' st.
Proof.
  induction pre as [| p pre IH]; intros fromCell rest rest' post a b st Hsol Hcut Hdir.
  - cbn in Hsol, Hcut. injection Hsol as -> ->. injection Hcut as ->.
    rewrite !replay_break by assumption. reflexivity.
  - cbn in Hsol, Hcut. injection Hsol as -> Hrest. injection Hcut as Hrest'.
    destruct rest as [| toCell rest1]; [destruct pre; discriminate |].
    destruct rest' as [| toCell' rest1']; [destruct pre; discriminate |].
    assert (toCell' = toCell) as ->.
    { destruct pre; cbn in Hrest, Hrest'; congruence. }
    destruct (getDirection gridSize p toCell) as [direction |] eqn:Hstep.
    + rewrite !(replay_step _ _ _ _ _ Hstep).
      apply (IH toCell rest1 rest1' post a b); assumption.
    + rewrite !replay_break by assumption. reflexivity.
Qed.

End Replay.

(** ** The input driver *)

Lemma solvePuzzle_ext (pg : page) (gridSize speed startCell : Z)
    (rest rest' : list Z) (st : state) :
  (forall s, replay pg gridSize speed startCell rest s =
             replay pg gridSize speed startCell rest' s) ->
  solvePuzzle pg gridSize (startCell :: rest) speed st =
  solvePuzzle pg gridSize (startCell :: rest') speed st.
Proof.
  intros Hext. unfold solvePuzzle, bind.
  destruct (waitForGameBoard pg 10000 st) as [[waited | e] st1]; [| reflexivity].
  destruct (document_now pg st1) as [[d | e] st2]; [| reflexivity].
  destruct (negb (trail_board d)); [reflexivity |].
  destruct (emit Focus st2) as [[[] | e] st3]; [| reflexivity].
  destruct (sleep pg 200 st3) as [[[] | e] st4]; [| reflexivity].
  destruct (document_now pg st4) as [[d' | e] st5]; [| reflexivity].
  destruct (negb (hasCellElement d' startCell)); [reflexivity |].
  destruct (emit (ClickCell startCell) st5) as [[[] | e] st6]; [| reflexivity].
  destruct (sleep pg 300 st6) as [[[] | e] st7]; [| reflexivity].
  rewrite Hext. reflexivity.
Qed.

(** C4 (as amended): when a consecutive pair [a], [b] of the solution has
    no direction, nothing is raised: the run returns normally, and the cells
    after the pair play no part in it.  If the board root is missing after
    the wait, or the start cell after the focus settle, the run ends with the
    matching error and has dispatched nothing.  Otherwise the replay loop
    stops at a pair [x], [y] without direction, no later than [a], [b]: the
    only key events are those of the pairs before it (at most two for each),
    the error for the pair follows them, and the only effect after the error
    is the closing wait of 1.5 s. *)
Theorem solvePuzzle_broken_path (pg : page) (gridSize speed a b startCell : Z)
    (rest pre post : list Z) (st : state) :
  startCell :: rest = pre ++ a :: b :: post ->
  getDirection gridSize a b = None ->
  let st1 := snd (waitForGameBoard pg 10000 st) in
  let st2 := snd (sleep pg 200 (add_event Focus st1)) in
  let st3 := snd (sleep pg 300 (add_event (ClickCell startCell) st2)) in
  exists st' : state,
    solvePuzzle pg gridSize (startCell :: rest) speed st = (Returned tt, st') /\
    solvePuzzle pg gridSize (pre ++ [a; b]) speed st = (Returned tt, st') /\
    if trail_board (dom_at pg (now st1)) then
      if hasCellElement (dom_at pg (now st2)) startCell then
        exists (evs1 : list event) (pre' post' : list Z) (x y : Z),
          trace st' = trace st3 ++ evs1 ++ [Console Error (InvalidMove x y); Wait 1500] /\
          startCell :: rest = pre' ++ x :: y :: post' /\
          (List.length pre' <= List.length pre)%nat /\
          getDirection gridSize x y = None /\
          (List.length (keyEvents evs1) <= 2 * List.length pre')%nat /\
          activations evs1 = []
      else st' = add_event (Console Error StartCellNotFound) st2
    else st' = add_event (Console Error GameBoardNotFound) st1.
Proof.
  intros Hsol Hdir. cbv zeta.
  assert (Hcut : exists rest', pre ++ [a; b] = startCell :: rest').
  { destruct pre as [| p pre']; cbn in *; injection Hsol as -> _; eauto. }
  destruct Hcut as (rest' & Hcut).
  rewrite Hcut.
  rewrite <- (solvePuzzle_ext pg gridSize speed startCell rest rest')
    by (intros s; apply (replay_truncate pg gridSize speed pre _ _ _ post a b);
        [exact Hsol | symmetry; exact Hcut | exact Hdir]).
  destruct (solvePuzzle_shape pg gridSize speed startCell rest st)
    as (waited & st1 & evs & Hw & Htr & Hpas & _ & _ & Hcases).
  rewrite Hw. cbn [snd]. rewrite !sleep_run. cbn [snd].
  repeat change (now (add_event ?e ?s)) with (now s).
  destruct Hcases as [[Hboard Hrun] | (st2 & Hboard & Hs2 & [[Hcell Hrun] | (st3 & Hcell & Hs3 & Hrun)])].
  - rewrite Hboard. eexists. split; [exact Hrun |]. split; [exact Hrun |]. reflexivity.
  - rewrite sleep_run in Hs2. injection Hs2 as <-.
    rewrite Hboard, Hcell.
    eexists. split; [exact Hrun |]. split; [exact Hrun |]. reflexivity.
  - rewrite sleep_run in Hs2. injection Hs2 as <-.
    rewrite sleep_run in Hs3. injection Hs3 as <-.
    rewrite Hboard, Hcell.
    match type of Hrun with _ = _ ?s => set (st3 := s) in * end.
    destruct (replay_broken_pair pg gridSize speed pre startCell rest post a b st3
                Hsol Hdir)
      as (st4 & evs1 & pre' & post' & x & y & Hrep & Htr4 & Hsplit & Hlen & Hxy & Hkeys & Hact).
    unfold bind in Hrun. rewrite Hrep, sleep_run in Hrun.
    eexists. split; [exact Hrun |]. split; [exact Hrun |].
    exists evs1, pre', post', x, y.
    split; [transitivity (trace st4 ++ [Wait 1500]);
            [reflexivity | rewrite Htr4, <- !app_assoc; reflexivity] |].
    repeat match goal with |- _ /\ _ => split end; assumption.
Qed.

Lemma solvePuzzle_broken_path_witness :
  exists st' : state,
    solvePuzzle readyPage 5 [0; 2; 3] 100 initialState = (Returned tt, st') /\
    solvePuzzle readyPage 5 [0; 2] 100 initialState = (Returned tt, st') /\
    exists (evs1 : list event) (pre' post' : list Z) (x y : Z),
      trace st' = [Focus; Wait 200; ClickCell 0; Wait 300] ++ evs1 ++
                  [Console Error (InvalidMove x y); Wait 1500] /\
      [0; 2; 3] = pre' ++ x :: y :: post' /\
      (List.length pre' <= 0)%nat /\
      getDirection 5 x y = None /\
      (List.length (keyEvents evs1) <= 2 * List.length pre')%nat /\
      activations evs1 = [].
Proof.
  exact (solvePuzzle_broken_path readyPage 5 100 0 2 0 [2; 3] [] [3] initialState
           eq_refl eq_refl).
Defined.

(** C4 as stated fails: a broken pair is not fatal.  On a ready 5 x 5 board
    the solution [0, 2] makes the run print the error and then go on to the
    closing wait; it returns normally, so that nothing reaches the caller
    ([run()] reports success). *)
Lemma solvePuzzle_broken_path_counterexample :
  getDirection 5 0 2 = None /\
  fst (solvePuzzle readyPage 5 [0; 2] 100 initialState) = Returned tt /\
  (forall e : exn, fst (solvePuzzle readyPage 5 [0; 2] 100 initialState) <> Threw e) /\
  trace (snd (solvePuzzle readyPage 5 [0; 2] 100 initialState)) =
    [Focus; Wait 200; ClickCell 0; Wait 300; Console Error (InvalidMove 0 2); Wait 1500] /\
  now (snd (solvePuzzle readyPage 5 [0; 2] 100 initialState)) = 2000.
Proof.
  assert (Hrun : solvePuzzle readyPage 5 [0; 2] 100 initialState =
                 (Returned tt,
                  {| now := 2000;
                     window_fetch := PageFetch 0;
                     this_apiUrl := constructorApiUrl;
                     this_puzzle := VNull;
                     this_gridSize := VNum 0;
                     this_solution := VArr [];
                     trace := [Focus; Wait 200; ClickCell 0; Wait 300;
                               Console Error (InvalidMove 0 2); Wait 1500] |}))
    by (vm_compute; reflexivity).
  rewrite Hrun. cbn [fst snd trace now].
  repeat match goal with |- _ /\ _ => split end;
    try (vm_compute; reflexivity).
  intros e H. discriminate H.
Qed.

(** The pair 0, 2 of the specification's example is broken on every grid
    wider than two cells. *)
Lemma getDirection_0_2 (gridSize : Z) :
  2 < gridSize -> getDirection gridSize 0 2 = None.
Proof.
  intros HN. rewrite getDirection_deltas by (unfold safeInteger; lia).
  unfold rowDelta, colDelta, specCoords; cbn [row col].
  rewrite !Z.div_small, !Z.mod_small by lia.
  reflexivity.
Qed.

Lemma waitForGameBoard_ready (pg : page) (timeout : Z) (st : state) :
  boardReady (dom_at pg (now st)) = true ->
  waitForGameBoard pg timeout st = (Returned true, st).
Proof.
  intros Hready. unfold waitForGameBoard, bind, document_now, read.
  rewrite Hready. reflexivity.
Qed.

Lemma hasCellElement_cells (d : document) (cellIndex : Z) :
  hasCellElement d cellIndex = true ->
  (0 <? Z.of_nat (List.length (cell_idx d))) = true.
Proof.
  unfold hasCellElement. destruct (cell_idx d); [discriminate |].
  intros _. cbn [List.length]. apply Z.ltb_lt. lia.
Qed.

Lemma pressedKeys_app (xs ys : list event) :
  pressedKeys (xs ++ ys) = pressedKeys xs ++ pressedKeys ys.
Proof. apply flat_map_app. Qed.

(** C9: on a 5 x 5 grid the consecutive pairs of the solution
    [0, 1, 2, 7, 12] get the moves Right, Right, Down, Down, and on a page
    whose board, start cell and key grid are there, [solvePuzzle] presses
    exactly these four keys, in this order. *)
Theorem solvePuzzle_example_moves (pg : page) (speed : Z) (st : state) :
  (forall t, trail_board (dom_at pg t) = true) ->
  (forall t, hasCellElement (dom_at pg t) 0 = true) ->
  (forall t, trail_grid (dom_at pg t) = true) ->
  [getDirection 5 0 1; getDirection 5 1 2; getDirection 5 2 7; getDirection 5 7 12] =
    map (fun m => Some (moveKey m)) [Right; Right; Down; Down] /\
  exists st' : state,
    solvePuzzle pg 5 [0; 1; 2; 7; 12] speed st = (Returned tt, st') /\
    pressedKeys (trace st') =
      pressedKeys (trace st) ++ map moveKey [Right; Right; Down; Down] /\
    trace st' =
      trace st ++ [Focus; Wait 200; ClickCell 0; Wait 300] ++
      keyPair "ArrowRight" ++ [Wait speed] ++
      keyPair "ArrowRight" ++ [Wait speed] ++
      keyPair "ArrowDown" ++ [Wait speed] ++
      keyPair "ArrowDown" ++ [Wait speed] ++ [Wait 1500].
Proof.
  intros Hboard Hcell Hgrid.
  split; [vm_compute; reflexivity |].
  assert (Htrace : forall s, trace (snd (solvePuzzle pg 5 [0; 1; 2; 7; 12] speed s)) =
      trace s ++ [Focus; Wait 200; ClickCell 0; Wait 300] ++
      keyPair "ArrowRight" ++ [Wait speed] ++
      keyPair "ArrowRight" ++ [Wait speed] ++
      keyPair "ArrowDown" ++ [Wait speed] ++
      keyPair "ArrowDown" ++ [Wait speed] ++ [Wait 1500] /\
      fst (solvePuzzle pg 5 [0; 1; 2; 7; 12] speed s) = Returned tt).
  { intros s. unfold solvePuzzle, bind.
    rewrite waitForGameBoard_ready
      by (unfold boardReady; rewrite Hboard, (hasCellElement_cells _ 0 (Hcell _)); reflexivity).
    unfold document_now, read. rewrite Hboard. cbn [negb].
    rewrite emit_run, sleep_run, Hcell. cbn [negb].
    rewrite emit_run, sleep_run.
    rewrite (replay_step pg 5 speed 0 1 _ "ArrowRight") by (vm_compute; reflexivity).
    rewrite (replay_step pg 5 speed 1 2 _ "ArrowRight") by (vm_compute; reflexivity).
    rewrite (replay_step pg 5 speed 2 7 _ "ArrowDown") by (vm_compute; reflexivity).
    rewrite (replay_step pg 5 speed 7 12 _ "ArrowDown") by (vm_compute; reflexivity).
    cbn [replay ret]. rewrite sleep_run. cbn [fst snd].
    split; [| reflexivity].
    cbn [trace set_now add_event].
    rewrite !afterStep_trace, !Hgrid. cbn [trace set_now add_event].
    rewrite <- !app_assoc. reflexivity. }
  exists (snd (solvePuzzle pg 5 [0; 1; 2; 7; 12] speed st)).
  destruct (Htrace st) as [Htr Hout].
  split; [| split].
  - destruct (solvePuzzle pg 5 [0; 1; 2; 7; 12] speed st) as [o s']; cbn [fst snd] in *.
    rewrite Hout. reflexivity.
  - rewrite Htr, pressedKeys_app. reflexivity.
  - exact Htr.
Qed.

Lemma solvePuzzle_example_moves_witness :
  [getDirection 5 0 1; getDirection 5 1 2; getDirection 5 2 7; getDirection 5 7 12] =
    map (fun m => Some (moveKey m)) [Right; Right; Down; Down] /\
  exists st' : state,
    solvePuzzle readyPage 5 [0; 1; 2; 7; 12] 100 initialState = (Returned tt, st') /\
    pressedKeys (trace st') =
      pressedKeys (trace initialState) ++ map moveKey [Right; Right; Down; Down] /\
    trace st' =
      trace initialState ++ [Focus; Wait 200; ClickCell 0; Wait 300] ++
      keyPair "ArrowRight" ++ [Wait 100] ++
      keyPair "ArrowRight" ++ [Wait 100] ++
      keyPair "ArrowDown" ++ [Wait 100] ++
      keyPair "ArrowDown" ++ [Wait 100] ++ [Wait 1500].
Proof.
  apply (solvePuzzle_example_moves readyPage 100 initialState);
    intros t; reflexivity.
Defined.

(** C10: when the document has no [data-trail-grid] element at a step of
    the replay, [simulateKeyPress] dispatches nothing and returns [false],
    and the loop goes on with the next pair after the usual wait, as it does
    after a key press: no error is printed and the run is not aborted. *)
Theorem simulateKeyPress_without_grid (pg : page) (gridSize speed fromCell toCell : Z)
    (rest : list Z) (direction : string) (st : state) :
  trail_grid (dom_at pg (now st)) = false ->
  getDirection gridSize fromCell toCell = Some direction ->
  simulateKeyPress pg direction st = (Returned false, st) /\
  replay pg gridSize speed fromCell (toCell :: rest) st =
    replay pg gridSize speed toCell rest (snd (sleep pg speed st)) /\
  trace (snd (sleep pg speed st)) = trace st ++ [Wait speed].
Proof.
  intros Hgrid Hdir.
  assert (Hkey : simulateKeyPress pg direction st = (Returned false, st)).
  { rewrite simulateKeyPress_run, Hgrid. reflexivity. }
  split; [exact Hkey |]. split; [| reflexivity].
  rewrite (replay_step pg gridSize speed _ _ _ _ _ Hdir).
  unfold afterStep. rewrite Hkey. reflexivity.
Qed.

Lemma simulateKeyPress_without_grid_witness :
  simulateKeyPress gridlessPage "ArrowRight" initialState = (Returned false, initialState) /\
  replay gridlessPage 5 100 0 [1; 2] initialState =
    replay gridlessPage 5 100 1 [2] (snd (sleep gridlessPage 100 initialState)) /\
  trace (snd (sleep gridlessPage 100 initialState)) = trace initialState ++ [Wait 100].
Proof.
  apply (simulateKeyPress_without_grid gridlessPage 5 100 0 1 [2] "ArrowRight" initialState);
    reflexivity.
Defined.

(** A whole run without the key grid: every step is taken, nothing is
    dispatched after the start click and no error is printed. *)
Example solvePuzzle_gridless_run :
  solvePuzzle gridlessPage 5 [0; 1; 2; 7; 12] 100 initialState =
    (Returned tt,
     {| now := 2400;
        window_fetch := PageFetch 0;
        this_apiUrl := constructorApiUrl;
        this_puzzle := VNull;
        this_gridSize := VNum 0;
        this_solution := VArr [];
        trace := [Focus; Wait 200; ClickCell 0; Wait 300;
                  Wait 100; Wait 100; Wait 100; Wait 100; Wait 1500] |}).
Proof. vm_compute. reflexivity. Qed.

(** The replay loop returns, and only adds to the trace. *)
Lemma replay_returns (pg : page) (gridSize speed : Z) (rest : list Z) :
  forall (fromCell : Z) (st : state),
    exists (st' : state) (evs : list event),
      replay pg gridSize speed fromCell rest st = (Returned tt, st') /\
      trace st' = trace st ++ evs.
Proof.
  induction rest as [| toCell rest IH]; intros fromCell st.
  - exists st, []. rewrite app_nil_r. split; reflexivity.
  - destruct (getDirection gridSize fromCell toCell) as [direction |] eqn:Hdir.
    + rewrite (replay_step pg gridSize speed _ _ _ _ _ Hdir).
      destruct (IH toCell (afterStep pg direction speed st)) as (st' & evs & Hrun & Htr).
      eexists st', _. split; [exact Hrun |].
      rewrite Htr, afterStep_trace, <- !app_assoc. reflexivity.
    + rewrite replay_break by assumption.
      eexists _, [_]. split; reflexivity.
Qed.

(** C5 (as amended): for a non-empty solution, when the board is not ready
    at any instant of the readiness timeout, [solvePuzzle] prints the timeout
    warning of [waitForGameBoard] and returns without throwing.  It
    dispatches no click exactly when the root container is still missing at
    the end of the wait or the start cell is missing after the focus settle,
    and then it dispatches no key event either. *)
Theorem solvePuzzle_board_never_there (pg : page) (gridSize speed startCell : Z)
    (rest : list Z) (st : state) :
  (forall t, now st <= t < now st + 10000 -> boardReady (dom_at pg t) = false) ->
  let st1 := snd (waitForGameBoard pg 10000 st) in
  let st2 := snd (sleep pg 200 (add_event Focus st1)) in
  exists (st' : state) (evs : list event),
    solvePuzzle pg gridSize (startCell :: rest) speed st = (Returned tt, st') /\
    trace st' = trace st ++ evs /\
    In (Console Warn (BoardTimeout 10000)) evs /\
    (trail_board (dom_at pg (now st1)) = false \/
     hasCellElement (dom_at pg (now st2)) startCell = false <->
     activations evs = []) /\
    (trail_board (dom_at pg (now st1)) = false \/
     hasCellElement (dom_at pg (now st2)) startCell = false ->
     keyEvents evs = []).
Proof.
  intros Hnot. cbv zeta.
  destruct (solvePuzzle_shape pg gridSize speed startCell rest st)
    as (waited & st1 & evs & Hw & Htr & Hpas & Hwarn & Hnow & Hcases).
  assert (waited = false) as ->.
  { pose proof (waitForGameBoard_timeout pg 10000 st Hnot ltac:(lia)) as Hto.
    rewrite Hw in Hto. cbn [fst] in Hto. congruence. }
  rewrite Hw. cbn [snd]. rewrite sleep_run. cbn [snd].
  repeat change (now (add_event ?e ?s)) with (now s).
  pose proof (Forall_passive_keyEvents evs Hpas) as Hk.
  pose proof (Forall_passive_activations evs Hpas) as Ha.
  destruct Hcases as [[Hboard Hrun] | (st2 & Hboard & Hs2 & Hcases)].
  - exists (add_event (Console Error GameBoardNotFound) st1),
      (evs ++ [Console Error GameBoardNotFound]).
    split; [exact Hrun |].
    split; [cbn; rewrite Htr, <- app_assoc; reflexivity |].
    split; [apply in_or_app; left; auto |].
    rewrite keyEvents_app, activations_app, Hk, Ha.
    split; [split; [reflexivity | left; exact Hboard] | reflexivity].
  - rewrite sleep_run in Hs2. injection Hs2 as <-.
    destruct Hcases as [[Hcell Hrun] | (st3 & Hcell & Hs3 & Hrun)].
    + eexists _, (evs ++ [Focus; Wait 200; Console Error StartCellNotFound]).
      split; [exact Hrun |].
      split; [cbn; rewrite Htr, <- !app_assoc; reflexivity |].
      split; [apply in_or_app; left; auto |].
      rewrite keyEvents_app, activations_app, Hk, Ha.
      split; [split; [reflexivity | right; exact Hcell] | reflexivity].
    + rewrite sleep_run in Hs3. injection Hs3 as <-.
      match type of Hrun with _ = _ ?s => set (st3 := s) in * end.
      destruct (replay_returns pg gridSize speed rest startCell st3)
        as (st4 & evs2 & Hrep & Htr4).
      unfold bind in Hrun. rewrite Hrep, sleep_run in Hrun.
      eexists _, (evs ++ [Focus; Wait 200; ClickCell startCell; Wait 300] ++ evs2 ++ [Wait 1500]).
      split; [exact Hrun |].
      split.
      { transitivity (trace st4 ++ [Wait 1500]); [reflexivity |].
        rewrite Htr4. subst st3. cbn [trace set_now add_event].
        rewrite Htr, <- !app_assoc. reflexivity. }
      split; [apply in_or_app; left; auto |].
      rewrite Hboard, Hcell.
      split; [split |].
      * intros [H | H]; discriminate H.
      * rewrite activations_app, Ha. cbn. discriminate.
      * intros [H | H]; discriminate H.
Qed.

Lemma solvePuzzle_board_never_there_witness :
  exists (st' : state) (evs : list event),
    solvePuzzle (quietPage (fun _ => boardDocument [])) 5 (0 :: [1; 2]) 100 initialState
      = (Returned tt, st') /\
    trace st' = trace initialState ++ evs /\
    In (Console Warn (BoardTimeout 10000)) evs /\
    activations evs = [] /\
    keyEvents evs = [].
Proof.
  destruct (solvePuzzle_board_never_there (quietPage (fun _ => boardDocument []))
              5 100 0 [1; 2] initialState (fun t _ => eq_refl))
    as (st' & evs & Hrun & Htr & Hwarn & Hact & Hkeys).
  exists st', evs.
  split; [exact Hrun |]. split; [exact Htr |]. split; [exact Hwarn |].
  split.
  - apply Hact. right. vm_compute. reflexivity.
  - apply Hkeys. right. vm_compute. reflexivity.
Defined.

(** C5, as stated, fails: on [latePage] the board is not ready at any
    instant of the 10 s the wait lasts and [waitForGameBoard] returns
    [false], yet the run goes on, clicks the start cell and presses a key:
    [solvePuzzle] discards the result of the wait and looks for the board
    again. *)
Lemma solvePuzzle_late_board_counterexample :
  (forall t, now initialState <= t <= now initialState + 10000 ->
             boardReady (dom_at latePage t) = false) /\
  fst (waitForGameBoard latePage 10000 initialState) = Returned false /\
  fst (solvePuzzle latePage 2 [0; 1] 100 initialState) = Returned tt /\
  activations (trace (snd (solvePuzzle latePage 2 [0; 1] 100 initialState)))
    = [ClickCell 0] /\
  keyEvents (trace (snd (solvePuzzle latePage 2 [0; 1] 100 initialState)))
    = keyPair "ArrowRight".
Proof.
  split.
  - intros t Ht. cbn in Ht. unfold boardReady. cbn.
    destruct (Z.ltb_spec t 10100); [reflexivity | lia].
  - repeat split; vm_compute; reflexivity.
Qed.

(** ** The endpoint discoverer *)

Lemma fallback_is_constructor_default : fallbackApiUrl = constructorApiUrl.
Proof. reflexivity. Qed.

(** The passive scan never throws, and it changes nothing unless it ends in
    its [catch] branch, which prints a warning and returns [null]. *)
Lemma findGameApiUrl_run (pg : page) (st : state) :
  exists existingUrl : option string,
    (findGameApiUrl pg st = (Returned existingUrl, st)) \/
    (existingUrl = None /\
     findGameApiUrl pg st =
       (Returned None, add_event (Console Warn PerformanceApiUnavailable) st)).
Proof.
  unfold findGameApiUrl, try_catch, bind, lift.
  destruct (resource_entries pg) as [perfEntries | e].
  - destruct (find isGameApiUrl perfEntries) as [name |].
    + destruct (new_URL pg name) as [u | e].
      * eexists. left. reflexivity.
      * exists None. right. split; reflexivity.
    + exists None. left. reflexivity.
  - exists None. right. split; reflexivity.
Qed.

(** The passive scan on a log that holds a matching entry whose name
    [new URL] parses: the result is the path and query of the first such
    entry. *)
Lemma findGameApiUrl_hit (pg : page) (st : state) (perfEntries : list string)
    (name : string) (u : url) :
  resource_entries pg = Returned perfEntries ->
  find isGameApiUrl perfEntries = Some name ->
  new_URL pg name = Returned u ->
  findGameApiUrl pg st = (Returned (Some (pathname u ++ search u)%string), st).
Proof.
  intros Hlog Hfind Hurl.
  unfold findGameApiUrl, try_catch, bind, lift.
  rewrite Hlog, Hfind, Hurl. reflexivity.
Qed.

(** A path that starts with a slash, as that of every http(s) URL does,
    makes a truthy string. *)
Lemma path_and_query_truthy (u : url) (rest : string) :
  pathname u = ("/" ++ rest)%string -> truthy (pathname u ++ search u) = true.
Proof. intros ->. reflexivity. Qed.

(** C3 (as amended): when the passive scan returns a path and query string
    that is not empty ([detectApiUrl] tests it for truthiness), the string is
    stored in [this.apiUrl] and returned at once: nothing else of the world
    changes, so [window.fetch] is left alone and no button is clicked. *)
Theorem detectApiUrl_passive_hit (pg : page) (st : state) (existing : string) :
  fst (findGameApiUrl pg st) = Returned (Some existing) ->
  truthy existing = true ->
  detectApiUrl pg st = (Returned existing, set_apiUrl existing st) /\
  window_fetch (snd (detectApiUrl pg st)) = window_fetch st /\
  trace (snd (detectApiUrl pg st)) = trace st.
Proof.
  intros Hfind Htruthy.
  assert (Hrun : detectApiUrl pg st = (Returned existing, set_apiUrl existing st)).
  { unfold detectApiUrl. unfold bind at 1.
    destruct (findGameApiUrl_run pg st) as [r [Hr | [-> Hr]]];
      rewrite Hr in Hfind |- *; cbn [fst] in Hfind; [| discriminate].
    injection Hfind as ->. rewrite Htruthy. reflexivity. }
  rewrite Hrun. repeat split.
Qed.

Lemma detectApiUrl_passive_hit_witness :
  detectApiUrl loggedPage initialState =
    (Returned "/voyager/api/graphql?variables=(gameTypeId:6)&queryId=voyagerIdentityDashGames.0123",
     set_apiUrl "/voyager/api/graphql?variables=(gameTypeId:6)&queryId=voyagerIdentityDashGames.0123"
       initialState) /\
  window_fetch (snd (detectApiUrl loggedPage initialState)) = window_fetch initialState /\
  trace (snd (detectApiUrl loggedPage initialState)) = trace initialState.
Proof.
  apply (detectApiUrl_passive_hit loggedPage initialState); reflexivity.
Defined.

(** C3 as stated fails: on [fragmentPage] the passive scan finds a matching
    entry and returns its path and query, the empty string; [detectApiUrl]
    takes it for no result, installs the wrapper, waits the 3 s of the
    window and returns the fallback. *)
Lemma detectApiUrl_empty_path_counterexample :
  resource_entries fragmentPage = Returned [fragmentRequest] /\
  find isGameApiUrl [fragmentRequest] = Some fragmentRequest /\
  findGameApiUrl fragmentPage initialState = (Returned (Some EmptyString), initialState) /\
  fst (detectApiUrl fragmentPage initialState) = Returned fallbackApiUrl /\
  trace (snd (detectApiUrl fragmentPage initialState)) =
    [SetFetch (Interceptor (PageFetch 0)); Wait 3000; SetFetch (PageFetch 0);
     Console Warn NoApiUrlCaptured] /\
  In (SetFetch (Interceptor (window_fetch initialState)))
     (trace (snd (detectApiUrl fragmentPage initialState))).
Proof.
  assert (Hrun : trace (snd (detectApiUrl fragmentPage initialState)) =
                 [SetFetch (Interceptor (PageFetch 0)); Wait 3000; SetFetch (PageFetch 0);
                  Console Warn NoApiUrlCaptured]) by (vm_compute; reflexivity).
  rewrite Hrun.
  repeat match goal with |- _ /\ _ => split end; try (vm_compute; reflexivity).
  left. reflexivity.
Qed.

Lemma add_events_trace (evs : list event) (st : state) :
  trace (add_events evs st) = trace st ++ evs.
Proof.
  revert st. induction evs as [| e evs IH]; intros st; cbn.
  - symmetry. apply app_nil_r.
  - unfold add_events in IH. rewrite IH. cbn. rewrite <- app_assoc. reflexivity.
Qed.

Lemma add_events_window_fetch (evs : list event) (st : state) :
  window_fetch (add_events evs st) = window_fetch st.
Proof.
  revert st. induction evs as [| e evs IH]; intros st; cbn; [reflexivity |].
  unfold add_events in IH. rewrite IH. reflexivity.
Qed.

Lemma add_events_now (evs : list event) (st : state) :
  now (add_events evs st) = now st.
Proof.
  revert st. induction evs as [| e evs IH]; intros st; cbn; [reflexivity |].
  unfold add_events in IH. rewrite IH. reflexivity.
Qed.

Lemma add_events_app (xs ys : list event) (st : state) :
  add_events (xs ++ ys) st = add_events ys (add_events xs st).
Proof. apply fold_left_app. Qed.

(** The wrapper is transparent: every call it sees is forwarded, in order,
    and the matching strings are recorded. *)
Lemma intercepted_run (originalFetch : fetch_fn) (args : list fetch_arg) :
  forall (capturedUrls : list string) (st : state),
    intercepted originalFetch capturedUrls args st =
      (Returned (capturedUrls ++ matching args),
       add_events (map (CallFetch originalFetch) args) st).
Proof.
  induction args as [| arg args IH]; intros capturedUrls st.
  - cbn. rewrite app_nil_r. reflexivity.
  - cbn [intercepted]. unfold bind at 1. unfold interceptor, bind. rewrite emit_run.
    cbn [ret]. rewrite IH. cbn [map matching flat_map].
    destruct arg as [url |]; [destruct (isGameApiUrl url) |];
      cbn; rewrite <- ?app_assoc; reflexivity.
Qed.

Lemma click_run (originalFetch : fetch_fn) (capturedUrls : list string)
    (el : element) (st : state) :
  click originalFetch capturedUrls el st =
    (match click_throws el with
     | Some e => Threw e
     | None => Returned (capturedUrls ++ matching (click_requests el))
     end,
     add_events (Click el :: map (CallFetch originalFetch) (click_requests el)) st).
Proof.
  unfold click, bind. rewrite emit_run, intercepted_run.
  destruct (click_throws el); reflexivity.
Qed.

Lemma Forall_sessionEvent_calls (originalFetch : fetch_fn) (args : list fetch_arg) :
  Forall sessionEvent (map (CallFetch originalFetch) args).
Proof.
  induction args; cbn; constructor; [exact I | assumption].
Qed.

(** Whatever the outcome, locating and activating the affordance leaves
    [window.fetch] and the clock alone; what it records matches the filter. *)
Lemma triggerRefresh_run (pg : page) (originalFetch : fetch_fn) (st : state) :
  exists (o : outcome (list string)) (evs : list event),
    triggerRefresh pg originalFetch [] st = (o, add_events evs st) /\
    Forall sessionEvent evs /\
    (forall capturedUrls, o = Returned capturedUrls ->
                          forallb isGameApiUrl capturedUrls = true).
Proof.
  assert (Hmatch : forall args, forallb isGameApiUrl (matching args) = true).
  { induction args as [| [url |] args IH]; cbn; [reflexivity | | assumption].
    destruct (isGameApiUrl url) eqn:Hurl; cbn; [rewrite Hurl |]; assumption. }
  assert (Hclick : forall el,
             exists o evs,
               click originalFetch [] el st = (o, add_events evs st) /\
               Forall sessionEvent evs /\
               (forall capturedUrls, o = Returned capturedUrls ->
                                     forallb isGameApiUrl capturedUrls = true)).
  { intros el. rewrite click_run. eexists _, _. split; [reflexivity |]. split.
    - constructor; [exact I | apply Forall_sessionEvent_calls].
    - intros capturedUrls Ho. destruct (click_throws el); [discriminate |].
      injection Ho as <-. apply Hmatch. }
  unfold triggerRefresh, bind, document_now, read, lift.
  destruct (refresh_button (dom_at pg (now st))) as [[el |] | e].
  - apply Hclick.
  - destruct (buttons (dom_at pg (now st))) as [btns | e].
    + destruct (find isRefreshOrPlay btns) as [btn |].
      * apply Hclick.
      * exists (Returned []), []. repeat split; [constructor |].
        intros capturedUrls Ho. injection Ho as <-. reflexivity.
    + exists (Threw e), []. repeat split; [constructor | discriminate].
  - exists (Threw e), []. repeat split; [constructor | discriminate].
Qed.

Lemma observationWindow_run (pg : page) (originalFetch : fetch_fn)
    (capturedUrls : list string) (st : state) :
  observationWindow pg originalFetch capturedUrls st =
    (Returned (capturedUrls ++ matching (page_requests pg (now st))),
     set_now (now st + 3000 + Z.max 0 (timer_lag pg (now st)))
       (add_events (Wait 3000 :: map (CallFetch originalFetch) (page_requests pg (now st)))
          st)).
Proof.
  unfold observationWindow, bind. rewrite emit_run.
  unfold read. cbn [now add_event]. rewrite intercepted_run. reflexivity.
Qed.

Lemma matching_all (args : list fetch_arg) :
  forallb isGameApiUrl (matching args) = true.
Proof.
  induction args as [| [url |] args IH]; cbn; [reflexivity | | assumption].
  destruct (isGameApiUrl url) eqn:Hurl; cbn; [rewrite Hurl |]; assumption.
Qed.

(** An interception session installs the wrapper, and from then on only
    clicks, forwards calls and waits: whether it reaches the end of the
    window or throws, [window.fetch] is the wrapper when it ends. *)
Lemma captureSession_run (pg : page) (originalFetch : fetch_fn) (st : state) :
  exists (o : outcome (list string)) (st' : state) (evs : list event),
    captureSession pg originalFetch st = (o, st') /\
    trace st' = trace st ++ SetFetch (Interceptor originalFetch) :: evs /\
    Forall sessionEvent evs /\
    window_fetch st' = Interceptor originalFetch /\
    (forall capturedUrls, o = Returned capturedUrls ->
                          forallb isGameApiUrl capturedUrls = true).
Proof.
  unfold captureSession, assign_fetch, bind, modify. rewrite emit_run.
  set (st1 := add_event _ _).
  destruct (triggerRefresh_run pg originalFetch st1) as (o & evs & Hrun & Hevs & Hurls).
  rewrite Hrun. destruct o as [capturedUrls | e].
  - rewrite observationWindow_run.
    eexists _, _, (evs ++ Wait 3000 :: map (CallFetch originalFetch) _).
    split; [reflexivity |]. cbn [trace set_now window_fetch].
    rewrite !add_events_trace, !add_events_window_fetch. subst st1. cbn.
    split; [rewrite <- !app_assoc; reflexivity |].
    split; [| split; [reflexivity |]].
    + apply Forall_app. split; [assumption |].
      constructor; [exact I | apply Forall_sessionEvent_calls].
    + intros urls Ho. injection Ho as <-.
      rewrite forallb_app, (Hurls capturedUrls eq_refl), matching_all. reflexivity.
  - exists (Threw e), (add_events evs st1), evs.
    split; [reflexivity |].
    rewrite add_events_trace, add_events_window_fetch. subst st1. cbn.
    split; [rewrite <- app_assoc; reflexivity |].
    repeat split; [assumption | discriminate].
Qed.

Lemma fetch_fn_eqb_refl (f : fetch_fn) : fetch_fn_eqb f f = true.
Proof. induction f; cbn; [apply Nat.eqb_refl | assumption]. Qed.

Lemma fetch_fn_eqb_wrapper (f : fetch_fn) : fetch_fn_eqb f (Interceptor f) = false.
Proof. induction f; cbn; [reflexivity | assumption]. Qed.

Lemma assignments_app (f : fetch_fn) (xs ys : list event) :
  assignments f (xs ++ ys) = (assignments f xs + assignments f ys)%nat.
Proof. unfold assignments. rewrite filter_app, length_app. reflexivity. Qed.

Lemma assignments_session (f : fetch_fn) (evs : list event) :
  Forall sessionEvent evs -> assignments f evs = 0%nat.
Proof.
  induction 1 as [| e evs He _ IH]; [reflexivity |].
  unfold assignments in *. cbn [filter].
  destruct e; cbn in He; try contradiction; assumption.
Qed.

(** The active path, once the session reached the end of the window: the
    timer callback restores [window.fetch] and resolves. *)
Lemma interceptApiUrl_completes (pg : page) (st : state) (capturedUrls : list string) :
  fst (captureSession pg (window_fetch st) st) = Returned capturedUrls ->
  exists (st' : state) (evs : list event),
    interceptApiUrl pg st = (Returned (hd fallbackApiUrl capturedUrls), st') /\
    trace st' =
      trace st ++ SetFetch (Interceptor (window_fetch st)) :: evs ++
      SetFetch (window_fetch st) ::
      (match capturedUrls with
       | [] => [Console Warn NoApiUrlCaptured]
       | _ :: _ => []
       end) /\
    Forall sessionEvent evs /\
    window_fetch st' = window_fetch st /\
    forallb isGameApiUrl capturedUrls = true.
Proof.
  intros Hsession.
  destruct (captureSession_run pg (window_fetch st) st)
    as (o & st1 & evs & Hrun & Htr & Hevs & Hwf & Hurls).
  rewrite Hrun in Hsession. cbn [fst] in Hsession. subst o.
  unfold interceptApiUrl, bind, read, assign_fetch, bind, modify.
  rewrite Hrun, emit_run.
  destruct capturedUrls as [| gameUrl others].
  - rewrite emit_run. eexists _, evs. split; [reflexivity |].
    cbn [trace add_event set_window_fetch window_fetch hd]. rewrite Htr.
    split; [rewrite <- !app_assoc; reflexivity |].
    repeat split; assumption || reflexivity.
  - eexists _, evs. split; [reflexivity |].
    cbn [trace add_event set_window_fetch window_fetch]. rewrite Htr.
    split; [rewrite <- !app_assoc; reflexivity |].
    repeat split; [assumption | apply (Hurls _ eq_refl)].
Qed.

(** The active path when the session throws: the promise is rejected with
    the wrapper still installed. *)
Lemma interceptApiUrl_rejects (pg : page) (st : state) (e : exn) :
  fst (captureSession pg (window_fetch st) st) = Threw e ->
  fst (interceptApiUrl pg st) = Threw e /\
  window_fetch (snd (interceptApiUrl pg st)) = Interceptor (window_fetch st).
Proof.
  intros Hsession.
  destruct (captureSession_run pg (window_fetch st) st)
    as (o & st1 & evs & Hrun & Htr & Hevs & Hwf & Hurls).
  rewrite Hrun in Hsession. cbn [fst] in Hsession. subst o.
  unfold interceptApiUrl, bind, read. rewrite Hrun. split; [reflexivity | exact Hwf].
Qed.

(** What the passive scan leaves behind when it sends [detectApiUrl] to the
    active path. *)
Lemma detectApiUrl_active (pg : page) (st : state) (existingUrl : option string) :
  fst (findGameApiUrl pg st) = Returned existingUrl ->
  falsy existingUrl ->
  exists (st1 : state) (warned : list event),
    findGameApiUrl pg st = (Returned existingUrl, st1) /\
    detectApiUrl pg st = interceptApiUrl pg st1 /\
    trace st1 = trace st ++ warned /\
    Forall passive warned /\
    window_fetch st1 = window_fetch st.
Proof.
  intros Hfind Hfalsy.
  unfold detectApiUrl. unfold bind at 1.
  destruct (findGameApiUrl_run pg st) as [r [Hr | [-> Hr]]];
    rewrite Hr in Hfind |- *; cbn [fst] in Hfind; injection Hfind as <-.
  - exists st, []. rewrite app_nil_r.
    repeat split; [| constructor].
    destruct Hfalsy as [-> | ->]; reflexivity.
  - exists (add_event (Console Warn PerformanceApiUnavailable) st),
      [Console Warn PerformanceApiUnavailable].
    repeat split. constructor; [exact I | constructor].
Qed.

Lemma assignments_passive (f : fetch_fn) (evs : list event) :
  Forall passive evs -> assignments f evs = 0%nat.
Proof.
  induction 1 as [| e evs He _ IH]; [reflexivity |].
  unfold assignments in *. cbn [filter].
  destruct e; cbn in He; try contradiction; assumption.
Qed.

Lemma add_events_apiUrl (evs : list event) (st : state) :
  this_apiUrl (add_events evs st) = this_apiUrl st.
Proof.
  revert st. induction evs as [| e evs IH]; intros st; cbn; [reflexivity |].
  unfold add_events in IH. rewrite IH. reflexivity.
Qed.

Lemma add_events_puzzle (evs : list event) (st : state) :
  this_puzzle (add_events evs st) = this_puzzle st /\
  this_gridSize (add_events evs st) = this_gridSize st /\
  this_solution (add_events evs st) = this_solution st.
Proof.
  revert st. induction evs as [| e evs IH]; intros st; cbn; [repeat split |].
  unfold add_events in IH. destruct (IH (add_event e st)) as (Hp & Hg & Hs).
  rewrite Hp, Hg, Hs. repeat split.
Qed.

Lemma triggerRefresh_affordance (pg : page) (originalFetch : fetch_fn)
    (capturedUrls : list string) (st : state) :
  triggerRefresh pg originalFetch capturedUrls st =
    match affordance (dom_at pg (now st)) with
    | Threw e => (Threw e, st)
    | Returned None => (Returned capturedUrls, st)
    | Returned (Some el) => click originalFetch capturedUrls el st
    end.
Proof.
  unfold triggerRefresh, affordance, bind, document_now, read, lift.
  destruct (refresh_button (dom_at pg (now st))) as [[el |] | e]; try reflexivity.
  destruct (buttons (dom_at pg (now st))) as [btns | e]; [| reflexivity].
  destruct (find isRefreshOrPlay btns); reflexivity.
Qed.

(** The interception session when the affordance is found (or there is
    none) and its click throws nothing: it reaches the end of the window with
    the matching requests of the click and of the window recorded. *)
Lemma captureSession_outcome (pg : page) (originalFetch : fetch_fn) (st : state)
    (target : option element) :
  affordance (dom_at pg (now st)) = Returned target ->
  (forall el, target = Some el -> click_throws el = None) ->
  fst (captureSession pg originalFetch st) =
    Returned (matching (affordanceRequests target ++ page_requests pg (now st))).
Proof.
  intros Htarget Hclick.
  assert (Hmatch : forall xs ys, matching (xs ++ ys) = matching xs ++ matching ys)
    by (intros; apply flat_map_app).
  unfold captureSession, assign_fetch, bind, modify.
  rewrite !emit_run, triggerRefresh_affordance.
  cbn [now add_event set_window_fetch]. rewrite Htarget.
  destruct target as [el |].
  - rewrite click_run, (Hclick el eq_refl), observationWindow_run.
    rewrite add_events_now. cbn [now add_event set_window_fetch app fst affordanceRequests].
    rewrite Hmatch. reflexivity.
  - rewrite observationWindow_run.
    cbn [now add_event set_window_fetch app fst affordanceRequests]. reflexivity.
Qed.

(** C1 (as amended): when the passive scan returns [null], locating and
    activating the affordance throws nothing, and no request of the click or
    of the 3 s window matches, [detectApiUrl] resolves with the hardcoded
    default, the string the constructor gives [this.apiUrl]; [window.fetch]
    is again the function it was, restored just before the warning that
    precedes the result. *)
Theorem detectApiUrl_fallback (pg : page) (st : state) (target : option element) :
  fst (findGameApiUrl pg st) = Returned None ->
  affordance (dom_at pg (now st)) = Returned target ->
  (forall el, target = Some el -> click_throws el = None) ->
  matching (affordanceRequests target ++ page_requests pg (now st)) = [] ->
  exists (st' : state) (evs : list event),
    detectApiUrl pg st = (Returned constructorApiUrl, st') /\
    fallbackApiUrl = constructorApiUrl /\
    window_fetch st' = window_fetch st /\
    trace st' =
      trace st ++ evs ++ [SetFetch (window_fetch st); Console Warn NoApiUrlCaptured].
Proof.
  intros Hfind Htarget Hclick Hnone.
  destruct (detectApiUrl_active pg st None Hfind (or_introl eq_refl))
    as (st1 & warned & Hscan & Hdetect & Htr1 & _ & Hwf1).
  assert (Hnow1 : now st1 = now st).
  { destruct (findGameApiUrl_run pg st) as [r [Hr | [_ Hr]]];
      rewrite Hr in Hscan; inversion Hscan; reflexivity. }
  assert (Hsession : fst (captureSession pg (window_fetch st1) st1) = Returned []).
  { rewrite (captureSession_outcome pg (window_fetch st1) st1 target)
      by (rewrite ?Hnow1; assumption).
    rewrite Hnow1, Hnone. reflexivity. }
  destruct (interceptApiUrl_completes pg st1 [] Hsession)
    as (st' & evs & Hrun & Htr & _ & Hwf & _).
  exists st', (warned ++ SetFetch (Interceptor (window_fetch st)) :: evs).
  split; [rewrite Hdetect; exact Hrun |].
  split; [reflexivity |].
  split; [congruence |].
  rewrite Htr, Htr1, Hwf1. rewrite <- !app_assoc. reflexivity.
Qed.

Lemma detectApiUrl_fallback_witness :
  exists (st' : state) (evs : list event),
    detectApiUrl readyPage initialState = (Returned constructorApiUrl, st') /\
    fallbackApiUrl = constructorApiUrl /\
    window_fetch st' = window_fetch initialState /\
    trace st' =
      trace initialState ++ evs ++
      [SetFetch (window_fetch initialState); Console Warn NoApiUrlCaptured].
Proof.
  apply (detectApiUrl_fallback readyPage initialState None).
  - reflexivity.
  - reflexivity.
  - intros el H. discriminate H.
  - reflexivity.
Defined.

(** C1 as stated fails: on [throwingPage] the passive scan finds nothing and
    neither the click nor the page issues a request that could be captured,
    yet [detectApiUrl] does not resolve with the default: the button's
    [click()] throws, the promise is rejected before the timer is armed, and
    [window.fetch] stays the wrapper. *)
Lemma detectApiUrl_fallback_counterexample :
  fst (findGameApiUrl throwingPage initialState) = Returned None /\
  affordance (dom_at throwingPage (now initialState)) = Returned (Some brokenButton) /\
  matching (click_requests brokenButton ++ page_requests throwingPage (now initialState)) = [] /\
  fst (detectApiUrl throwingPage initialState) = Threw (PageError "click failed") /\
  fst (detectApiUrl throwingPage initialState) <> Returned constructorApiUrl /\
  window_fetch (snd (detectApiUrl throwingPage initialState)) =
    Interceptor (window_fetch initialState) /\
  window_fetch (snd (detectApiUrl throwingPage initialState)) <> window_fetch initialState.
Proof.
  repeat match goal with |- _ /\ _ => split end;
    try (vm_compute; reflexivity); vm_compute; discriminate.
Qed.

(** C2, as amended: in every execution of [detectApiUrl] that installs the
    wrapper and in which locating and activating the affordance throws
    nothing, so that the session reaches the end of the window,
    [window.fetch] is assigned the original function exactly once and holds
    it at the end, and [detectApiUrl] resolves with the first URL recorded,
    which matches the filter, or else with the hardcoded fallback. *)
Theorem detectApiUrl_restores_once (pg : page) (st : state)
    (existingUrl : option string) (capturedUrls : list string) :
  fst (findGameApiUrl pg st) = Returned existingUrl ->
  falsy existingUrl ->
  fst (captureSession pg (window_fetch st) (snd (findGameApiUrl pg st)))
    = Returned capturedUrls ->
  exists (st' : state) (evs : list event),
    detectApiUrl pg st = (Returned (hd fallbackApiUrl capturedUrls), st') /\
    (isGameApiUrl (hd fallbackApiUrl capturedUrls) = true \/
     (capturedUrls = [] /\ hd fallbackApiUrl capturedUrls = fallbackApiUrl)) /\
    trace st' = trace st ++ evs /\
    In (SetFetch (Interceptor (window_fetch st))) evs /\
    assignments (window_fetch st) evs = 1%nat /\
    window_fetch st' = window_fetch st.
Proof.
  intros Hfind Hfalsy Hsession.
  destruct (detectApiUrl_active pg st existingUrl Hfind Hfalsy)
    as (st1 & warned & Hscan & Hdetect & Htr1 & Hwarned & Hwf1).
  rewrite Hscan in Hsession. cbn [snd] in Hsession. rewrite <- Hwf1 in Hsession.
  destruct (interceptApiUrl_completes pg st1 capturedUrls Hsession)
    as (st' & evs & Hrun & Htr & Hevs & Hwf & Hurls).
  rewrite Hwf1 in Htr, Hwf.
  eexists st', _.
  split; [rewrite Hdetect; exact Hrun |].
  split.
  { destruct capturedUrls as [| gameUrl others]; [right; split; reflexivity | left].
    cbn in Hurls |- *. apply andb_true_iff in Hurls. apply Hurls. }
  split; [rewrite Htr, Htr1, <- app_assoc; reflexivity |].
  split; [apply in_or_app; right; left; reflexivity |].
  split; [| exact Hwf].
  rewrite assignments_app, (assignments_passive _ _ Hwarned).
  change (SetFetch (Interceptor (window_fetch st)) :: evs ++ ?tl)
    with ([SetFetch (Interceptor (window_fetch st))] ++ evs ++ tl).
  rewrite !assignments_app, (assignments_session _ _ Hevs).
  unfold assignments at 1. cbn [filter]. rewrite fetch_fn_eqb_wrapper.
  destruct capturedUrls; unfold assignments; cbn [filter];
    rewrite fetch_fn_eqb_refl; reflexivity.
Qed.

Lemma detectApiUrl_restores_once_witness :
  exists (st' : state) (evs : list event),
    detectApiUrl playPage initialState = (Returned (hd fallbackApiUrl [gameRequest]), st') /\
    (isGameApiUrl (hd fallbackApiUrl [gameRequest]) = true \/
     ([gameRequest] = [] /\ hd fallbackApiUrl [gameRequest] = fallbackApiUrl)) /\
    trace st' = trace initialState ++ evs /\
    In (SetFetch (Interceptor (window_fetch initialState))) evs /\
    assignments (window_fetch initialState) evs = 1%nat /\
    window_fetch st' = window_fetch initialState.
Proof.
  apply (detectApiUrl_restores_once playPage initialState None [gameRequest]).
  - reflexivity.
  - left. reflexivity.
  - reflexivity.
Defined.

(** C2, as stated, fails: on [throwingPage] the passive scan finds nothing,
    the wrapper is installed, and the refresh button's [click()] throws; the
    promise of [detectApiUrl] is rejected, the original function is never
    assigned back and [window.fetch] stays the wrapper. *)
Lemma detectApiUrl_click_throws_counterexample :
  fst (findGameApiUrl throwingPage initialState) = Returned None /\
  trace (snd (detectApiUrl throwingPage initialState)) =
    [SetFetch (Interceptor (PageFetch 0)); Click brokenButton] /\
  fst (detectApiUrl throwingPage initialState) = Threw (PageError "click failed") /\
  assignments (window_fetch initialState)
    (trace (snd (detectApiUrl throwingPage initialState))) = 0%nat /\
  window_fetch (snd (detectApiUrl throwingPage initialState)) =
    Interceptor (window_fetch initialState).
Proof. repeat split. Qed.

(** The run of [playPage]: the wrapper forwards the three calls of the click
    handler, records the one that matches, and is removed by the timer. *)
Example detectApiUrl_play_run :
  detectApiUrl playPage initialState =
    (Returned gameRequest,
     {| now := 3000;
        window_fetch := PageFetch 0;
        this_apiUrl := constructorApiUrl;
        this_puzzle := VNull;
        this_gridSize := VNum 0;
        this_solution := VArr [];
        trace := [SetFetch (Interceptor (PageFetch 0));
                  Click playButton;
                  CallFetch (PageFetch 0) ArgObject;
                  CallFetch (PageFetch 0) (ArgString "/voyager/api/graphql?variables=(count:3)");
                  CallFetch (PageFetch 0) (ArgString gameRequest);
                  Wait 3000;
                  SetFetch (PageFetch 0)] |}).
Proof. vm_compute. reflexivity. Qed.

(** ** The puzzle retriever *)

Lemma getStep_absent (v : value) (s : step) :
  absent v = true -> getStep v s = Threw TypeError.
Proof. destruct v, s; cbn; intros H; discriminate || reflexivity. Qed.

Lemma getStep_present (v : value) (s : step) :
  absent v = false -> getStep v s = Returned (readStep v s).
Proof.
  unfold readStep. destruct v, s; cbn; intros H; discriminate || reflexivity.
Qed.

Lemma readStep_absent (v : value) (s : step) :
  absent v = true -> readStep v s = VUndefined.
Proof. intros H. unfold readStep. rewrite getStep_absent by assumption. reflexivity. Qed.

Lemma dig_app (data : value) (p q : list step) :
  dig data (p ++ q) = dig (dig data p) q.
Proof. apply fold_left_app. Qed.

(** Past a missing field every read is [undefined]. *)
Lemma dig_absent (q : list step) :
  forall v : value, absent v = true -> absent (dig v q) = true.
Proof.
  induction q as [| s q IH]; intros v Hv; [exact Hv |].
  cbn. apply IH. rewrite readStep_absent by assumption. reflexivity.
Qed.

Lemma dig_present (data : value) (p q : list step) :
  absent (dig data (p ++ q)) = false -> absent (dig data p) = false.
Proof.
  intros H. destruct (absent (dig data p)) eqn:Hp; [| reflexivity].
  rewrite dig_app, dig_absent in H by assumption. discriminate.
Qed.

(** The extraction step throws exactly when something is absent on the way
    to the solution; otherwise it stores and returns the puzzle. *)
Lemma extractPuzzle_run (data : value) (st : state) :
  let puzzle := dig data puzzlePath in
  let solution := dig data (puzzlePath ++ [Key "solution"]) in
  if absent solution
  then exists st' : state,
         extractPuzzle data st = (Threw TypeError, st') /\ trace st' = trace st
  else extractPuzzle data st =
         (Returned puzzle,
          set_solution solution
            (set_gridSize (dig data (puzzlePath ++ [Key "gridSize"]))
               (set_puzzle puzzle st))).
Proof.
  cbv zeta.
  set (v1 := readStep data (Key "included")).
  set (v2 := readStep v1 First).
  set (v3 := readStep v2 (Key "gamePuzzle")).
  set (v4 := readStep v3 (Key "trailGamePuzzle")).
  set (sol := readStep v4 (Key "solution")).
  change (dig data puzzlePath) with v4.
  change (dig data (puzzlePath ++ [Key "solution"])) with sol.
  change (dig data (puzzlePath ++ [Key "gridSize"])) with (readStep v4 (Key "gridSize")).
  assert (Hpast : forall v s, absent v = true -> absent (readStep v s) = true)
    by (intros v s Hv; rewrite readStep_absent by assumption; reflexivity).
  unfold extractPuzzle, bind, lift, modify.
  change (getProp data "included") with (getStep data (Key "included")).
  destruct (absent data) eqn:H0.
  { rewrite (getStep_absent data) by assumption.
    subst sol v4 v3 v2 v1. rewrite !Hpast by (rewrite ?Hpast; auto). eauto. }
  rewrite (getStep_present data) by assumption. fold v1.
  change (getFirst v1) with (getStep v1 First).
  destruct (absent v1) eqn:H1.
  { rewrite (getStep_absent v1) by assumption.
    subst sol v4 v3 v2. rewrite !Hpast by (rewrite ?Hpast; auto). eauto. }
  rewrite (getStep_present v1) by assumption. fold v2.
  change (getProp v2 "gamePuzzle") with (getStep v2 (Key "gamePuzzle")).
  destruct (absent v2) eqn:H2.
  { rewrite (getStep_absent v2) by assumption.
    subst sol v4 v3. rewrite !Hpast by (rewrite ?Hpast; auto). eauto. }
  rewrite (getStep_present v2) by assumption. fold v3.
  change (getProp v3 "trailGamePuzzle") with (getStep v3 (Key "trailGamePuzzle")).
  destruct (absent v3) eqn:H3.
  { rewrite (getStep_absent v3) by assumption.
    subst sol v4. rewrite !Hpast by (rewrite ?Hpast; auto). eauto. }
  rewrite (getStep_present v3) by assumption. fold v4.
  change (getProp v4 "gridSize") with (getStep v4 (Key "gridSize")).
  change (getProp v4 "solution") with (getStep v4 (Key "solution")).
  change (getProp v4 "orderedSequence") with (getStep v4 (Key "orderedSequence")).
  destruct (absent v4) eqn:H4.
  { rewrite (getStep_absent v4) by assumption.
    subst sol. rewrite !Hpast by (rewrite ?Hpast; auto). eauto. }
  rewrite !(getStep_present v4) by assumption. fold sol.
  change (getProp sol "length") with (getStep sol (Key "length")).
  destruct (absent sol) eqn:H5.
  { rewrite (getStep_absent sol) by assumption. eauto. }
  rewrite (getStep_present sol) by assumption. reflexivity.
Qed.

(** The warning of [getCSRFToken] goes with the empty token. *)
Lemma getCSRFToken_warned (b : csrfSources) :
  snd (getCSRFToken b) = true -> fst (getCSRFToken b) = EmptyString.
Proof.
  unfold getCSRFToken, tokenFromMeta, tokenFromCookieRow, tokenFromStorage.
  destruct (matchQuotedSession (cookie b)); [discriminate |].
  destruct (metaContent b) as [content |];
    [destruct (truthy content); [discriminate |] |];
    (destruct (find (prefix sessionKey) (splitCookies EmptyString (cookie b)));
     [discriminate |]);
    (destruct (sessionStored b) as [[stored |] |];
     [destruct (truthy stored); [discriminate |] | |]); reflexivity.
Qed.

(** Reading the token changes nothing of the world but, at most, the trace:
    the one warning, printed when no source holds a token and the empty
    string is returned.  The outcome depends on the page alone. *)
Lemma readCSRFToken_run (pg : page) (st : state) :
  exists warned : list event,
    readCSRFToken pg st = (fst (readCSRFToken pg st), add_events warned st) /\
    (warned = [] \/
     (warned = [Console Warn CsrfTokenNotFound] /\
      fst (readCSRFToken pg st) = Returned EmptyString)).
Proof.
  unfold readCSRFToken, bind, lift.
  destruct (document_cookie pg) as [c | e]; [| exists []; split; [reflexivity | left; reflexivity]].
  destruct (snd (getCSRFToken _)) eqn:Hearly; cbn [negb];
    [| exists []; split; [reflexivity | left; reflexivity]].
  destruct (session_storage pg) as [stored | e];
    [| exists []; split; [reflexivity | left; reflexivity]].
  destruct (snd (getCSRFToken
                   {| cookie := c; metaContent := csrf_meta pg; sessionStored := stored |}))
    eqn:Hwarned.
  - exists [Console Warn CsrfTokenNotFound]. rewrite emit_run. cbn [fst ret].
    rewrite (getCSRFToken_warned _ Hwarned).
    split; [reflexivity | right; split; reflexivity].
  - exists []. split; [reflexivity | left; reflexivity].
Qed.

Lemma readCSRFToken_fst (pg : page) (st st' : state) :
  fst (readCSRFToken pg st) = fst (readCSRFToken pg st').
Proof.
  unfold readCSRFToken, bind, lift.
  destruct (document_cookie pg) as [c | e]; [| reflexivity].
  destruct (snd (getCSRFToken _)); cbn [negb]; [| reflexivity].
  destruct (session_storage pg) as [stored | e]; [| reflexivity].
  destruct (snd (getCSRFToken _)); reflexivity.
Qed.

(** When reading the token throws, [fetchPuzzle] prints the failure and
    rethrows: no request is issued. *)
Lemma fetchPuzzle_token_throws (pg : page) (st : state) (e : exn) :
  fst (readCSRFToken pg st) = Threw e ->
  fetchPuzzle pg st = (Threw e, add_event (Console Error (FailedToFetch e)) st).
Proof.
  intros Hread.
  destruct (readCSRFToken_run pg st) as (warned & Hrun & Hwarned).
  rewrite Hread in Hrun, Hwarned.
  destruct Hwarned as [-> | [_ Habs]]; [| discriminate].
  unfold fetchPuzzle, try_catch. unfold bind at 1. rewrite Hrun. reflexivity.
Qed.

(** Once the token is read, [fetchPuzzle] is the request and what follows
    it, in the world the read leaves: the world of the call, with the
    warning printed or not. *)
Lemma fetchPuzzle_token_read (pg : page) (st st0 : state) (csrfToken : string) :
  readCSRFToken pg st = (Returned csrfToken, st0) ->
  (st0 = st \/ st0 = add_event (Console Warn CsrfTokenNotFound) st) /\
  fetchPuzzle pg st =
    try_catch
      (emit (CallFetch (window_fetch st) (ArgString (this_apiUrl st))) ;;;
       response <- lift (network pg (this_apiUrl st)) ;;
       (if negb (ok response) then
          errorText <- lift (text response) ;;
          emit (Console Error (HttpFailure (status response) errorText)) ;;;
          throw (HttpError (status response) errorText)
        else ret tt) ;;;
       data <- lift (json response) ;;
       extractPuzzle data)
      (fun error => emit (Console Error (FailedToFetch error)) ;;; throw error)
      st0.
Proof.
  intros Hread.
  destruct (readCSRFToken_run pg st) as (warned & Hrun & Hwarned).
  rewrite Hread in Hrun. injection Hrun as Hst0. cbn [fst] in Hwarned.
  assert (Hcase : st0 = st \/ st0 = add_event (Console Warn CsrfTokenNotFound) st).
  { destruct Hwarned as [-> | [-> _]]; [left | right]; exact Hst0. }
  split; [exact Hcase |].
  unfold fetchPuzzle, try_catch. unfold bind at 1. rewrite Hread.
  unfold bind at 1 2. unfold read.
  destruct Hcase as [-> | ->]; reflexivity.
Qed.

(** After a success response with a body that parses, [fetchPuzzle] is the
    extraction step inside the [catch] that logs and rethrows. *)
Lemma fetchPuzzle_success_response (pg : page) (st st0 : state) (csrfToken : string)
    (r : response) (data : value) :
  readCSRFToken pg st = (Returned csrfToken, st0) ->
  network pg (this_apiUrl st) = Returned r ->
  ok r = true ->
  json r = Returned data ->
  fetchPuzzle pg st =
    try_catch (extractPuzzle data)
      (fun error => emit (Console Error (FailedToFetch error)) ;;; throw error)
      (add_event (CallFetch (window_fetch st) (ArgString (this_apiUrl st))) st0).
Proof.
  intros Hread Hnet Hok Hjson.
  destruct (fetchPuzzle_token_read pg st st0 csrfToken Hread) as [_ ->].
  unfold try_catch. unfold bind at 1 2 3 4.
  unfold lift at 1. rewrite emit_run, Hnet, Hok, Hjson. reflexivity.
Qed.

(** C6 (as amended): once the token is read, on a success response
    [fetchPuzzle] returns what lies at
    [included[0].gamePuzzle.trailGamePuzzle] and stores it with its
    [gridSize] and [solution]; when [included], its first element,
    [gamePuzzle], [trailGamePuzzle] or [solution] is missing (or [null]),
    it prints the failure and throws a [TypeError].  The only effect before
    the request is the warning of a token not found. *)
Theorem fetchPuzzle_extracts (pg : page) (st st0 : state) (csrfToken : string)
    (r : response) (data : value) :
  readCSRFToken pg st = (Returned csrfToken, st0) ->
  network pg (this_apiUrl st) = Returned r ->
  ok r = true ->
  json r = Returned data ->
  let request := CallFetch (window_fetch st) (ArgString (this_apiUrl st)) in
  (st0 = st \/ st0 = add_event (Console Warn CsrfTokenNotFound) st) /\
  (absent (dig data (puzzlePath ++ [Key "solution"])) = false ->
   fetchPuzzle pg st =
     (Returned (dig data puzzlePath),
      set_solution (dig data (puzzlePath ++ [Key "solution"]))
        (set_gridSize (dig data (puzzlePath ++ [Key "gridSize"]))
           (set_puzzle (dig data puzzlePath) (add_event request st0))))) /\
  (forall prefix rest : list step,
     puzzlePath ++ [Key "solution"] = prefix ++ rest ->
     absent (dig data prefix) = true ->
     exists st' : state,
       fetchPuzzle pg st = (Threw TypeError, st') /\
       trace st' = trace st0 ++ [request; Console Error (FailedToFetch TypeError)]).
Proof.
  intros Hread Hnet Hok Hjson request.
  split; [apply (fetchPuzzle_token_read pg st st0 csrfToken Hread) |].
  rewrite (fetchPuzzle_success_response pg st st0 csrfToken r data Hread Hnet Hok Hjson).
  fold request. unfold try_catch.
  pose proof (extractPuzzle_run data (add_event request st0)) as Hrun. cbv zeta in Hrun.
  split.
  - intros Hsol. rewrite Hsol in Hrun. rewrite Hrun. reflexivity.
  - intros prefix rest Hsplit Hprefix.
    assert (Hsol : absent (dig data (puzzlePath ++ [Key "solution"])) = true)
      by (rewrite Hsplit, dig_app; apply dig_absent; exact Hprefix).
    rewrite Hsol in Hrun. destruct Hrun as (st1 & Hrun & Htr).
    rewrite Hrun. eexists. split; [reflexivity |].
    cbn. rewrite Htr. cbn. rewrite <- app_assoc. reflexivity.
Qed.

Lemma fetchPuzzle_extracts_witness :
  let request := CallFetch (PageFetch 0) (ArgString constructorApiUrl) in
  fetchPuzzle (answeringPage (envelope examplePuzzle)) initialState =
    (Returned examplePuzzle,
     set_solution (VArr [VNum 0; VNum 1; VNum 4; VNum 7; VNum 8])
       (set_gridSize (VNum 3)
          (set_puzzle examplePuzzle (add_event request initialState)))) /\
  (exists st' : state,
     fetchPuzzle (answeringPage (envelope puzzleWithoutSolution)) initialState =
       (Threw TypeError, st') /\
     trace st' = [request; Console Error (FailedToFetch TypeError)]) /\
  (exists st' : state,
     fetchPuzzle (signedOutPage (VObj [("data", VObj [])])) initialState =
       (Threw TypeError, st') /\
     trace st' = [Console Warn CsrfTokenNotFound; request;
                  Console Error (FailedToFetch TypeError)]).
Proof.
  split; [| split].
  - apply (proj1 (proj2 (fetchPuzzle_extracts
                           (answeringPage (envelope examplePuzzle)) initialState initialState
                           "ajax:0123456789"
                           {| ok := true; status := 200; text := Returned "";
                              json := Returned (envelope examplePuzzle) |}
                           (envelope examplePuzzle)
                           ltac:(vm_compute; reflexivity) eq_refl eq_refl eq_refl))).
    reflexivity.
  - apply (proj2 (proj2 (fetchPuzzle_extracts
                           (answeringPage (envelope puzzleWithoutSolution))
                           initialState initialState
                           "ajax:0123456789"
                           {| ok := true; status := 200; text := Returned "";
                              json := Returned (envelope puzzleWithoutSolution) |}
                           (envelope puzzleWithoutSolution)
                           ltac:(vm_compute; reflexivity) eq_refl eq_refl eq_refl))
             (puzzlePath ++ [Key "solution"]) []).
    + rewrite app_nil_r. reflexivity.
    + reflexivity.
  - apply (proj2 (proj2 (fetchPuzzle_extracts
                           (signedOutPage (VObj [("data", VObj [])]))
                           initialState
                           (add_event (Console Warn CsrfTokenNotFound) initialState)
                           EmptyString
                           {| ok := true; status := 200; text := Returned "";
                              json := Returned (VObj [("data", VObj [])]) |}
                           (VObj [("data", VObj [])])
                           ltac:(vm_compute; reflexivity) eq_refl eq_refl eq_refl))
             [Key "included"] [First; Key "gamePuzzle"; Key "trailGamePuzzle"; Key "solution"]).
    + reflexivity.
    + reflexivity.
Defined.

(** C6, as stated, fails: a success response whose puzzle lacks [gridSize]
    is accepted; [fetchPuzzle] returns the puzzle, prints no error, and
    leaves [undefined] in [this.gridSize]. *)
Lemma fetchPuzzle_missing_gridSize_counterexample :
  dig (envelope puzzleWithoutGridSize) (puzzlePath ++ [Key "gridSize"]) = VUndefined /\
  fetchPuzzle (answeringPage (envelope puzzleWithoutGridSize)) initialState =
    (Returned puzzleWithoutGridSize,
     set_solution (VArr [VNum 0; VNum 1; VNum 4; VNum 7; VNum 8])
       (set_gridSize VUndefined
          (set_puzzle puzzleWithoutGridSize
             (add_event (CallFetch (PageFetch 0) (ArgString constructorApiUrl))
                initialState)))) /\
  this_gridSize
    (snd (fetchPuzzle (answeringPage (envelope puzzleWithoutGridSize)) initialState))
    = VUndefined.
Proof. repeat split; vm_compute; reflexivity. Qed.

(** The end-to-end example of the specification: the retrieved 3 x 3 puzzle
    is replayed as Right, Down, Down, Right, with a keydown and a keyup for
    each move. *)
Example fetch_then_solve :
  fst (fetchPuzzle (answeringPage (envelope examplePuzzle)) initialState)
    = Returned examplePuzzle /\
  keyEvents (trace (snd (solvePuzzle (answeringPage (envelope examplePuzzle)) 3
                           [0; 1; 4; 7; 8] 0 initialState)))
    = keyPair "ArrowRight" ++ keyPair "ArrowDown" ++ keyPair "ArrowDown" ++
      keyPair "ArrowRight".
Proof. split; vm_compute; reflexivity. Qed.

(** * Further properties *)

(** ** Coordinate mapper *)

(** X1: for a positive grid size, the cell at row r, column c (c within
    the grid) has identifier r * gridSize + c, and, when that identifier is
    a safe integer (below 2^53), [indexToCoords] gives back r and c. *)
Theorem indexToCoords_of_coords (gridSize r c : Z) :
  0 < gridSize ->
  0 <= r ->
  0 <= c < gridSize ->
  safeInteger (r * gridSize + c) ->
  indexToCoords gridSize (r * gridSize + c) = {| row := r; col := c |}.
Proof.
  intros HN Hr Hc Hsafe. unfold indexToCoords.
  rewrite floorQuotient_exact by assumption.
  rewrite rem_is_mod by nia.
  assert (Hdiv : (r * gridSize + c) / gridSize = r)
    by (rewrite Z.div_add_l, Z.div_small by lia; lia).
  assert (Hmod : (r * gridSize + c) mod gridSize = c)
    by (rewrite (Z.add_comm (r * gridSize) c), Z.mod_add, Z.mod_small by lia; reflexivity).
  rewrite Hdiv, Hmod. reflexivity.
Qed.

Lemma indexToCoords_of_coords_witness :
  indexToCoords 5 (2 * 5 + 3) = {| row := 2; col := 3 |}.
Proof.
  apply (indexToCoords_of_coords 5 2 3); unfold safeInteger; lia.
Defined.

(** X2: between valid cells that are safe integers (below 2^53), in terms
    of identifiers: Up is minus one row, Down plus one row, Left minus one
    unless the cell is in the first column, Right plus one unless it is in
    the last column (identifiers that differ by one across a row boundary are
    not adjacent). *)
Theorem getDirection_offsets (gridSize a b : Z) :
  0 < gridSize ->
  validCell gridSize a ->
  validCell gridSize b ->
  safeInteger a ->
  safeInteger b ->
  (getDirection gridSize a b = Some "ArrowUp" <-> b = a - gridSize) /\
  (getDirection gridSize a b = Some "ArrowDown" <-> b = a + gridSize) /\
  (getDirection gridSize a b = Some "ArrowLeft" <->
     b = a - 1 /\ a mod gridSize <> 0) /\
  (getDirection gridSize a b = Some "ArrowRight" <->
     b = a + 1 /\ a mod gridSize <> gridSize - 1).
Proof.
  intros HN [Ha _] [Hb _] Sa Sb.
  destruct (coords_facts gridSize a HN Ha) as [Ea Ca].
  destruct (coords_facts gridSize b HN Hb) as [Eb Cb].
  assert (Hcol : col (specCoords gridSize a) = a mod gridSize) by reflexivity.
  rewrite getDirection_deltas by assumption.
  unfold rowDelta, colDelta in *.
  rewrite <- Hcol.
  set (ra := row (specCoords gridSize a)) in *.
  set (ca := col (specCoords gridSize a)) in *.
  set (rb := row (specCoords gridSize b)) in *.
  set (cb := col (specCoords gridSize b)) in *.
  clearbody ra ca rb cb. clear Hcol. cbv zeta.
  split_eqb;
    repeat match goal with |- (_ <-> _) /\ _ => split end;
    (split; intros H); try discriminate; try reflexivity;
    try nia; try (split; nia).
Qed.

Lemma getDirection_offsets_witness :
  (getDirection 5 4 5 = Some "ArrowUp" <-> 5 = 4 - 5) /\
  (getDirection 5 4 5 = Some "ArrowDown" <-> 5 = 4 + 5) /\
  (getDirection 5 4 5 = Some "ArrowLeft" <-> 5 = 4 - 1 /\ 4 mod 5 <> 0) /\
  (getDirection 5 4 5 = Some "ArrowRight" <-> 5 = 4 + 1 /\ 4 mod 5 <> 5 - 1).
Proof.
  apply (getDirection_offsets 5 4 5); unfold validCell, safeInteger; lia.
Defined.

(** X3: swapping the two cells reverses the move, for any integers and any
    grid size: Up and Down, Left and Right change places, and a pair without
    a direction has none the other way round either. *)
Theorem getDirection_opposite (gridSize a b : Z) :
  getDirection gridSize b a = option_map oppositeKey (getDirection gridSize a b).
Proof.
  unfold getDirection.
  destruct (Z.eqb_spec gridSize 0); [reflexivity |].
  cbv zeta.
  set (ra := row (indexToCoords gridSize a)).
  set (ca := col (indexToCoords gridSize a)).
  set (rb := row (indexToCoords gridSize b)).
  set (cb := col (indexToCoords gridSize b)).
  clearbody ra ca rb cb.
  split_eqb; try reflexivity; exfalso; lia.
Qed.

(** ** Waiting for the board *)

(** The polling loop, round by round: it awaits [sleep(200)] some number of
    times and then either finds the board or gives up with the warning; a
    round only starts while less than [timeout] has elapsed. *)
Lemma pollGameBoard_rounds (pg : page) (startTime timeout : Z) (st : state) :
  exists (r : bool) (st' : state) (n : nat),
    pollGameBoard pg startTime timeout st = (Returned r, st') /\
    trace st' =
      trace st ++ repeat (Wait 200) n ++
      (if r then [] else [Console Warn (BoardTimeout timeout)]) /\
    (r = true -> boardReady (dom_at pg (now st')) = true) /\
    (r = false -> timeout <= now st' - startTime) /\
    (n = 0%nat \/ now st - startTime + 200 * (Z.of_nat n - 1) < timeout) /\
    untouched st st'.
Proof.
  funelim (pollGameBoard pg startTime timeout st).
  - pose proof (proj1 (Z.ltb_lt _ _) Hlt) as Hlt'.
    destruct (boardReady (dom_at pg (now st))) eqn:Hready.
    + exists true, st, 0%nat. cbn [repeat app]. rewrite app_nil_r.
      repeat split; auto; try discriminate; lia.
    + destruct H as (r & st' & n & Hrun & Htr & Htrue & Hfalse & Hn & Hsame).
      exists r, st', (S n).
      split; [exact Hrun |].
      split; [rewrite Htr; cbn; rewrite <- app_assoc; reflexivity |].
      split; [exact Htrue |]. split; [exact Hfalse |].
      split.
      * right. rewrite sleep_run in Hn. cbn [now set_now add_event snd] in Hn.
        change (timerDelay 200) with 200 in Hn. lia.
      * rewrite sleep_run in Hsame. unfold untouched in *.
        cbn [now set_now add_event snd window_fetch this_apiUrl this_puzzle
             this_gridSize this_solution] in Hsame.
        change (timerDelay 200) with 200 in Hsame.
        repeat split; try apply Hsame. lia.
  - pose proof (proj1 (Z.ltb_ge _ _) e) as Hge.
    exists false, (add_event (Console Warn (BoardTimeout timeout)) st), 0%nat.
    split; [reflexivity |].
    unfold untouched. cbn. repeat split; auto; try discriminate; lia.
Qed.

Lemma waitForGameBoard_rounds (pg : page) (timeout : Z) (st : state) :
  exists (r : bool) (st' : state) (n : nat),
    waitForGameBoard pg timeout st = (Returned r, st') /\
    trace st' =
      trace st ++ repeat (Wait 200) n ++
      (if r then [] else [Console Warn (BoardTimeout timeout)]) /\
    (r = true -> boardReady (dom_at pg (now st')) = true) /\
    (r = false -> timeout <= now st' - now st) /\
    (n = 0%nat \/ 200 * (Z.of_nat n - 1) < timeout) /\
    untouched st st'.
Proof.
  unfold waitForGameBoard, bind, document_now, read.
  destruct (boardReady (dom_at pg (now st))) eqn:Hready.
  - exists true, st, 0%nat. cbn [repeat app]. rewrite app_nil_r.
    unfold untouched. repeat split; auto; try discriminate; lia.
  - destruct (pollGameBoard_rounds pg (now st) timeout st)
      as (r & st' & n & Hrun & Htr & Htrue & Hfalse & Hn & Hsame).
    exists r, st', n. repeat (split; [assumption |]).
    split; [| exact Hsame]. destruct Hn as [Hn | Hn]; [left; exact Hn | right; lia].
Qed.

(** X4: [waitForGameBoard] never throws and its answer can be trusted:
    when it returns [true] the board is ready at that instant and no warning
    was printed; when it returns [false] at least [timeout] milliseconds have
    passed and the timeout warning is the last thing it did.  Either way it
    leaves [window.fetch] and the fields of [this] alone. *)
Theorem waitForGameBoard_sound (pg : page) (timeout : Z) (st : state) :
  exists (r : bool) (st' : state) (evs : list event),
    waitForGameBoard pg timeout st = (Returned r, st') /\
    trace st' = trace st ++ evs /\
    untouched st st' /\
    (r = true ->
     boardReady (dom_at pg (now st')) = true /\
     ~ In (Console Warn (BoardTimeout timeout)) evs) /\
    (r = false ->
     timeout <= now st' - now st /\
     exists waits, evs = waits ++ [Console Warn (BoardTimeout timeout)]).
Proof.
  destruct (waitForGameBoard_rounds pg timeout st)
    as (r & st' & n & Hrun & Htr & Htrue & Hfalse & _ & Hsame).
  exists r, st', (repeat (Wait 200) n ++
                  (if r then [] else [Console Warn (BoardTimeout timeout)])).
  repeat (split; [assumption |]).
  split.
  - intros ->. split; [auto |].
    rewrite app_nil_r. intros Hin. apply repeat_spec in Hin. discriminate.
  - intros ->. split; [auto |]. eexists. reflexivity.
Qed.

(** X5: the wait polls every 200 ms and no more often than the timeout
    allows: all it does is await [sleep(200)] n times, with
    200 * n < max(0, timeout) + 200, and then print the warning if it gives
    up. *)
Theorem waitForGameBoard_poll_bound (pg : page) (timeout : Z) (st : state) :
  exists (n : nat),
    trace (snd (waitForGameBoard pg timeout st)) =
      trace st ++ repeat (Wait 200) n ++
      (match fst (waitForGameBoard pg timeout st) with
       | Returned true => []
       | _ => [Console Warn (BoardTimeout timeout)]
       end) /\
    200 * Z.of_nat n < Z.max 0 timeout + 200.
Proof.
  destruct (waitForGameBoard_rounds pg timeout st)
    as (r & st' & n & Hrun & Htr & _ & _ & Hn & _).
  exists n. rewrite Hrun. cbn [fst snd]. split.
  - rewrite Htr. destruct r; reflexivity.
  - destruct Hn as [-> | Hn]; lia.
Qed.

Lemma pollGameBoard_finds (pg : page) (startTime timeout : Z) (st : state) (T : Z) :
  (forall t, timer_lag pg t <= 0) ->
  (forall t, T <= t < T + 200 -> boardReady (dom_at pg t) = true) ->
  T + 200 <= startTime + timeout ->
  now st < T + 200 ->
  fst (pollGameBoard pg startTime timeout st) = Returned true.
Proof.
  funelim (pollGameBoard pg startTime timeout st); intros Hlag Hready Hroom Hnow.
  - destruct (boardReady (dom_at pg (now st))) eqn:Hnot; [reflexivity |].
    apply H with (T := T); try assumption.
    rewrite sleep_run. cbn [now set_now add_event snd].
    change (timerDelay 200) with 200.
    assert (now st < T).
    { destruct (Z.lt_ge_cases (now st) T) as [Hlt2 | Hge]; [assumption |].
      rewrite Hready in Hnot by lia. discriminate. }
    pose proof (Hlag (now st)). lia.
  - pose proof (proj1 (Z.ltb_ge _ _) e) as Hge. lia.
Qed.

(** X6: with timers that fire on time, a board that is ready throughout
    some 200 ms that fit between the start of the wait and its deadline is
    found: [waitForGameBoard] returns [true]. *)
Theorem waitForGameBoard_finds (pg : page) (timeout : Z) (st : state) (T : Z) :
  (forall t, timer_lag pg t <= 0) ->
  (forall t, T <= t < T + 200 -> boardReady (dom_at pg t) = true) ->
  now st <= T ->
  T + 200 <= now st + timeout ->
  fst (waitForGameBoard pg timeout st) = Returned true.
Proof.
  intros Hlag Hready Hstart Hroom.
  unfold waitForGameBoard, bind, document_now, read.
  destruct (boardReady (dom_at pg (now st))); [reflexivity |].
  apply (pollGameBoard_finds pg (now st) timeout st T); try assumption. lia.
Qed.

Lemma waitForGameBoard_finds_witness :
  fst (waitForGameBoard latePage 11000 initialState) = Returned true.
Proof.
  apply (waitForGameBoard_finds latePage 11000 initialState 10100).
  - intros t. cbn. lia.
  - intros t Ht. unfold boardReady. cbn.
    destruct (Z.ltb_spec t 10100); [lia | reflexivity].
  - cbn. lia.
  - cbn. lia.
Defined.

(** ** What a replay dispatches *)

Lemma untouched_refl (st : state) : untouched st st.
Proof. unfold untouched. repeat split; lia. Qed.

Lemma untouched_trans (st1 st2 st3 : state) :
  untouched st1 st2 -> untouched st2 st3 -> untouched st1 st3.
Proof.
  unfold untouched.
  intros (H1 & H2 & H3 & H4 & H5 & H6) (K1 & K2 & K3 & K4 & K5 & K6).
  repeat split; try congruence. lia.
Qed.

Lemma untouched_add_event (e : event) (st : state) : untouched st (add_event e st).
Proof. unfold untouched. cbn. repeat split; lia. Qed.

Lemma untouched_sleep (pg : page) (ms : Z) (st : state) :
  untouched st (snd (sleep pg ms st)).
Proof.
  rewrite sleep_run. unfold untouched.
  cbn [snd now set_now add_event window_fetch this_apiUrl this_puzzle
       this_gridSize this_solution].
  pose proof (timerDelay_nonneg ms).
  repeat split; lia.
Qed.

Lemma untouched_afterStep (pg : page) (direction : string) (speed : Z) (st : state) :
  untouched st (afterStep pg direction speed st).
Proof.
  unfold afterStep. rewrite simulateKeyPress_run.
  destruct (trail_grid (dom_at pg (now st))); cbn [snd].
  - eapply untouched_trans; [| apply untouched_sleep].
    eapply untouched_trans; apply untouched_add_event.
  - apply untouched_sleep.
Qed.

Lemma getDirection_arrow (gridSize a b : Z) (key : string) :
  getDirection gridSize a b = Some key -> In key arrowKeys.
Proof.
  unfold getDirection, arrowKeys.
  destruct (gridSize =? 0); [discriminate |]. cbv zeta.
  repeat match goal with
         | |- context [if ?c then _ else _] => destruct c
         end; intros H; inversion H; cbn; auto.
Qed.

(** The replay loop, whatever the page does: it returns, it dispatches
    keydown/keyup pairs of arrow keys only, at most one pair for each cell
    after the first, and it clicks nothing. *)
Lemma replay_events (pg : page) (gridSize speed : Z) (rest : list Z) :
  forall (fromCell : Z) (st : state),
    exists (st' : state) (evs : list event) (keys : list string),
      replay pg gridSize speed fromCell rest st = (Returned tt, st') /\
      trace st' = trace st ++ evs /\
      keyEvents evs = flat_map keyPair keys /\
      activations evs = [] /\
      Forall (fun key => In key arrowKeys) keys /\
      (List.length keys <= List.length rest)%nat /\
      untouched st st'.
Proof.
  induction rest as [| toCell rest IH]; intros fromCell st.
  - exists st, [], []. rewrite app_nil_r.
    repeat match goal with |- _ /\ _ => split end; auto using untouched_refl.
  - destruct (getDirection gridSize fromCell toCell) as [direction |] eqn:Hdir.
    + rewrite (replay_step pg gridSize speed _ _ _ _ _ Hdir).
      destruct (IH toCell (afterStep pg direction speed st))
        as (st' & evs & keys & Hrun & Htr & Hkeys & Hact & Harrow & Hlen & Hsame).
      pose proof (getDirection_arrow _ _ _ _ Hdir) as Hkey.
      rewrite afterStep_trace in Htr.
      pose proof (untouched_afterStep pg direction speed st) as Hstep.
      destruct (trail_grid (dom_at pg (now st))).
      * exists st', ((keyPair direction ++ [Wait speed]) ++ evs), (direction :: keys).
        split; [exact Hrun |].
        split; [rewrite Htr, <- !app_assoc; reflexivity |].
        split; [rewrite keyEvents_app, Hkeys; reflexivity |].
        split; [rewrite activations_app, Hact; reflexivity |].
        split; [constructor; assumption |].
        split; [cbn; lia |].
        eapply untouched_trans; eassumption.
      * exists st', ([Wait speed] ++ evs), keys.
        split; [exact Hrun |].
        split; [rewrite Htr, <- !app_assoc; reflexivity |].
        split; [rewrite keyEvents_app, Hkeys; reflexivity |].
        split; [rewrite activations_app, Hact; reflexivity |].
        split; [assumption |].
        split; [cbn; lia |].
        eapply untouched_trans; eassumption.
    + rewrite replay_break by assumption.
      exists (add_event (Console Error (InvalidMove fromCell toCell)) st),
        [Console Error (InvalidMove fromCell toCell)], [].
      repeat match goal with |- _ /\ _ => split end;
        auto using untouched_add_event. cbn. lia.
Qed.

(** X8: the input events of any run of [solvePuzzle]: the key events are
    keydown/keyup pairs of arrow keys, at most one pair for each cell after
    the first; the only activation is one click on the first cell of the
    solution, and without that click no key is pressed. *)
Theorem solvePuzzle_input_events (pg : page) (gridSize speed : Z)
    (solution : list Z) (st : state) :
  exists (st' : state) (evs : list event) (keys : list string),
    solvePuzzle pg gridSize solution speed st = (Returned tt, st') /\
    trace st' = trace st ++ evs /\
    keyEvents evs = flat_map keyPair keys /\
    Forall (fun key => In key arrowKeys) keys /\
    (List.length keys <= List.length solution - 1)%nat /\
    ((activations evs = [] /\ keys = []) \/
     (exists startCell : Z,
        hd_error solution = Some startCell /\
        activations evs = [ClickCell startCell])).
Proof.
  destruct solution as [| startCell rest].
  - exists (add_event (Console Error NoSolutionLoaded) st),
      [Console Error NoSolutionLoaded], [].
    repeat split; auto.
  - destruct (solvePuzzle_shape pg gridSize speed startCell rest st)
      as (waited & st1 & evs & Hw & Htr & Hpas & _ & _ & Hcases).
    pose proof (Forall_passive_keyEvents evs Hpas) as Hk.
    pose proof (Forall_passive_activations evs Hpas) as Ha.
    destruct Hcases as [[_ Hrun] | (st2 & _ & Hs2 & [[_ Hrun] | (st3 & _ & Hs3 & Hrun)])].
    + exists (add_event (Console Error GameBoardNotFound) st1),
        (evs ++ [Console Error GameBoardNotFound]), [].
      split; [exact Hrun |].
      split; [cbn; rewrite Htr, <- app_assoc; reflexivity |].
      rewrite keyEvents_app, activations_app, Hk, Ha.
      repeat split; auto. cbn. lia.
    + rewrite sleep_run in Hs2. injection Hs2 as <-.
      eexists _, (evs ++ [Focus; Wait 200; Console Error StartCellNotFound]), [].
      split; [exact Hrun |].
      split; [cbn; rewrite Htr, <- !app_assoc; reflexivity |].
      rewrite keyEvents_app, activations_app, Hk, Ha.
      repeat split; auto. cbn. lia.
    + rewrite sleep_run in Hs2. injection Hs2 as <-.
      rewrite sleep_run in Hs3. injection Hs3 as <-.
      match type of Hrun with _ = _ ?s => set (st3 := s) in * end.
      destruct (replay_events pg gridSize speed rest startCell st3)
        as (st4 & evs4 & keys & Hrep & Htr4 & Hkeys & Hact & Harrow & Hlen & _).
      unfold bind in Hrun. rewrite Hrep, sleep_run in Hrun.
      eexists _, (evs ++ [Focus; Wait 200; ClickCell startCell; Wait 300] ++ evs4
                      ++ [Wait 1500]), keys.
      split; [exact Hrun |].
      split; [cbn; rewrite Htr4; subst st3; cbn; rewrite Htr, <- !app_assoc; reflexivity |].
      split; [rewrite !keyEvents_app, Hk, Hkeys; cbn; rewrite app_nil_r; reflexivity |].
      split; [exact Harrow |].
      split; [cbn; lia |].
      right. exists startCell. split; [reflexivity |].
      rewrite !activations_app, Ha, Hact. reflexivity.
Qed.

Lemma replay_with_grid (pg : page) (gridSize speed : Z) (rest : list Z) :
  (forall t, trail_grid (dom_at pg t) = true) ->
  forall (fromCell : Z) (st : state),
    exists (st' : state) (evs : list event),
      replay pg gridSize speed fromCell rest st = (Returned tt, st') /\
      trace st' = trace st ++ evs /\
      keyEvents evs = flat_map keyPair (directions gridSize fromCell rest) /\
      pressedKeys evs = directions gridSize fromCell rest /\
      activations evs = [].
Proof.
  intros Hgrid.
  induction rest as [| toCell rest IH]; intros fromCell st.
  - exists st, []. rewrite app_nil_r. repeat split.
  - cbn [directions].
    destruct (getDirection gridSize fromCell toCell) as [direction |] eqn:Hdir.
    + rewrite (replay_step pg gridSize speed _ _ _ _ _ Hdir).
      destruct (IH toCell (afterStep pg direction speed st))
        as (st' & evs & Hrun & Htr & Hkeys & Hpressed & Hact).
      rewrite afterStep_trace, Hgrid in Htr.
      exists st', ((keyPair direction ++ [Wait speed]) ++ evs).
      split; [exact Hrun |].
      split; [rewrite Htr, <- !app_assoc; reflexivity |].
      split; [rewrite keyEvents_app, Hkeys; reflexivity |].
      split; [rewrite pressedKeys_app, Hpressed; reflexivity |].
      rewrite activations_app, Hact. reflexivity.
    + rewrite replay_break by assumption.
      exists (add_event (Console Error (InvalidMove fromCell toCell)) st),
        [Console Error (InvalidMove fromCell toCell)].
      repeat split.
Qed.

(** X9: on a page whose board, start cell and key grid are there, the keys
    [solvePuzzle] presses are exactly the directions of the consecutive
    pairs of the solution, in order, up to the first pair that has none:
    one keydown and one keyup for each, after a single click on the start
    cell. *)
Theorem solvePuzzle_ready_keys (pg : page) (gridSize speed startCell : Z)
    (rest : list Z) (st : state) :
  (forall t, trail_board (dom_at pg t) = true) ->
  (forall t, hasCellElement (dom_at pg t) startCell = true) ->
  (forall t, trail_grid (dom_at pg t) = true) ->
  exists (st' : state) (evs : list event),
    solvePuzzle pg gridSize (startCell :: rest) speed st = (Returned tt, st') /\
    trace st' = trace st ++ evs /\
    pressedKeys evs = directions gridSize startCell rest /\
    keyEvents evs = flat_map keyPair (directions gridSize startCell rest) /\
    activations evs = [ClickCell startCell].
Proof.
  intros Hboard Hcell Hgrid.
  unfold solvePuzzle, bind.
  rewrite waitForGameBoard_ready
    by (unfold boardReady;
        rewrite Hboard, (hasCellElement_cells _ startCell (Hcell _)); reflexivity).
  unfold document_now, read. rewrite Hboard. cbn [negb].
  rewrite emit_run, sleep_run, Hcell. cbn [negb].
  rewrite emit_run, sleep_run.
  match goal with |- context [replay pg gridSize speed startCell rest ?s] =>
    destruct (replay_with_grid pg gridSize speed rest Hgrid startCell s)
      as (st4 & evs & Hrun & Htr & Hkeys & Hpressed & Hact)
  end.
  rewrite Hrun, sleep_run.
  eexists _, ([Focus; Wait 200; ClickCell startCell; Wait 300] ++ evs ++ [Wait 1500]).
  split; [reflexivity |].
  split; [cbn; rewrite Htr; cbn; rewrite <- !app_assoc; reflexivity |].
  rewrite !pressedKeys_app, !keyEvents_app, !activations_app, Hpressed, Hkeys, Hact.
  cbn. rewrite !app_nil_r. repeat split.
Qed.

Lemma solvePuzzle_ready_keys_witness :
  exists (st' : state) (evs : list event),
    solvePuzzle readyPage 3 (0 :: [1; 4; 7; 8]) 0 initialState = (Returned tt, st') /\
    trace st' = trace initialState ++ evs /\
    pressedKeys evs = directions 3 0 [1; 4; 7; 8] /\
    keyEvents evs = flat_map keyPair (directions 3 0 [1; 4; 7; 8]) /\
    activations evs = [ClickCell 0].
Proof.
  apply (solvePuzzle_ready_keys readyPage 3 0 0 [1; 4; 7; 8] initialState);
    intros t; reflexivity.
Defined.

Lemma replay_duration (pg : page) (gridSize speed : Z) (rest : list Z) :
  (forall t, timer_lag pg t <= 0) ->
  forall (fromCell : Z) (st : state),
    now (snd (replay pg gridSize speed fromCell rest st)) =
      now st + Z.of_nat (List.length (directions gridSize fromCell rest)) * timerDelay speed.
Proof.
  intros Hlag.
  induction rest as [| toCell rest IH]; intros fromCell st.
  - cbn. lia.
  - cbn [directions].
    destruct (getDirection gridSize fromCell toCell) as [direction |] eqn:Hdir.
    + rewrite (replay_step pg gridSize speed _ _ _ _ _ Hdir), IH.
      assert (Hstep : now (afterStep pg direction speed st) = now st + timerDelay speed).
      { unfold afterStep. rewrite simulateKeyPress_run, sleep_run.
        destruct (trail_grid (dom_at pg (now st)));
          cbn [snd now set_now add_event]; pose proof (Hlag (now st)); lia. }
      rewrite Hstep. cbn [List.length]. lia.
    + rewrite replay_break by assumption. cbn. lia.
Qed.

(** X10: every wait of a replay is a fixed delay.  With timers that fire
    on time and a [speed] in the signed 32-bit range that [setTimeout]
    takes as it is, on a page whose board and start cell are there, a run of
    [solvePuzzle] lasts 200 + 300 + 1500 ms plus [speed] (if positive) for
    each step taken, whether or not the key grid is there. *)
Theorem solvePuzzle_duration (pg : page) (gridSize speed startCell : Z)
    (rest : list Z) (st : state) :
  - 2 ^ 31 <= speed < 2 ^ 31 ->
  (forall t, timer_lag pg t <= 0) ->
  (forall t, trail_board (dom_at pg t) = true) ->
  (forall t, hasCellElement (dom_at pg t) startCell = true) ->
  now (snd (solvePuzzle pg gridSize (startCell :: rest) speed st)) =
    now st + 2000 +
    Z.of_nat (List.length (directions gridSize startCell rest)) * Z.max 0 speed.
Proof.
  intros Hspeed Hlag Hboard Hcell.
  rewrite <- (timerDelay_range speed Hspeed).
  unfold solvePuzzle, bind.
  rewrite waitForGameBoard_ready
    by (unfold boardReady;
        rewrite Hboard, (hasCellElement_cells _ startCell (Hcell _)); reflexivity).
  unfold document_now, read. rewrite Hboard. cbn [negb].
  rewrite emit_run, sleep_run, Hcell. cbn [negb].
  rewrite emit_run, sleep_run.
  change (timerDelay 200) with 200. change (timerDelay 300) with 300.
  match goal with |- context [replay pg gridSize speed startCell rest ?s] =>
    pose proof (replay_duration pg gridSize speed rest Hlag startCell s) as Hdur;
    destruct (replay_events pg gridSize speed rest startCell s)
      as (st4 & evs & keys & Hrun & _)
  end.
  rewrite Hrun in Hdur |- *. rewrite sleep_run.
  change (timerDelay 1500) with 1500.
  cbn [snd now set_now add_event] in Hdur |- *.
  rewrite Hdur.
  repeat match goal with
         | |- context [timer_lag pg ?u] =>
             lazymatch goal with
             | H : timer_lag pg u <= 0 |- _ => fail
             | _ => pose proof (Hlag u)
             end
         end.
  lia.
Qed.

Lemma solvePuzzle_duration_witness :
  now (snd (solvePuzzle gridlessPage 5 (0 :: [1; 2; 7; 12]) 100 initialState)) =
    now initialState + 2000 +
    Z.of_nat (List.length (directions 5 0 [1; 2; 7; 12])) * Z.max 0 100.
Proof.
  apply (solvePuzzle_duration gridlessPage 5 100 0 [1; 2; 7; 12] initialState).
  - lia.
  - intros t. cbn. lia.
  - intros t. reflexivity.
  - intros t. reflexivity.
Defined.

(** ** More on the endpoint discoverer *)

(** X11: the passive scan never throws and does nothing but, at most,
    print one warning along with a [null] result.  It returns a string
    exactly when the first logged entry with both markers has a name that
    [new URL] parses, and then the string is that URL's path and query: an
    entry further down the log is never tried. *)
Theorem findGameApiUrl_first_match (pg : page) (st : state) :
  exists (existingUrl : option string) (st' : state),
    findGameApiUrl pg st = (Returned existingUrl, st') /\
    (st' = st \/
     (existingUrl = None /\
      st' = add_event (Console Warn PerformanceApiUnavailable) st)) /\
    (forall fullPath : string,
       existingUrl = Some fullPath <->
       exists (perfEntries : list string) (name : string) (u : url),
         resource_entries pg = Returned perfEntries /\
         find isGameApiUrl perfEntries = Some name /\
         new_URL pg name = Returned u /\
         fullPath = (pathname u ++ search u)%string).
Proof.
  unfold findGameApiUrl, try_catch, bind, lift.
  destruct (resource_entries pg) as [perfEntries | e] eqn:Hlog.
  - destruct (find isGameApiUrl perfEntries) as [name |] eqn:Hfind.
    + destruct (new_URL pg name) as [u | e] eqn:Hurl.
      * eexists _, st. split; [reflexivity |]. split; [left; reflexivity |].
        intros fullPath. split.
        -- intros H. injection H as <-. exists perfEntries, name, u. auto.
        -- intros (es & n & u' & Hes & Hn & Hu & ->).
           injection Hes as <-. rewrite Hfind in Hn. injection Hn as <-.
           rewrite Hurl in Hu. injection Hu as <-. reflexivity.
      * eexists None, _. split; [reflexivity |]. split; [right; auto |].
        intros fullPath. split; [discriminate |].
        intros (es & n & u' & Hes & Hn & Hu & _).
        injection Hes as <-. rewrite Hfind in Hn. injection Hn as <-.
        rewrite Hurl in Hu. discriminate.
    + eexists None, st. split; [reflexivity |]. split; [left; reflexivity |].
      intros fullPath. split; [discriminate |].
      intros (es & n & u' & Hes & Hn & _).
      injection Hes as <-. rewrite Hfind in Hn. discriminate.
  - eexists None, _. split; [reflexivity |]. split; [right; auto |].
    intros fullPath. split; [discriminate |].
    intros (es & n & u' & Hes & _). discriminate.
Qed.

(** X12: when locating or activating the affordance throws, the promise of
    [detectApiUrl] is rejected with that exception, [window.fetch] is left
    as the wrapper, the original function is never assigned back, and
    [this.apiUrl] is unchanged. *)
Theorem detectApiUrl_rejects (pg : page) (st : state)
    (existingUrl : option string) (e : exn) :
  fst (findGameApiUrl pg st) = Returned existingUrl ->
  falsy existingUrl ->
  fst (captureSession pg (window_fetch st) (snd (findGameApiUrl pg st))) = Threw e ->
  exists (st' : state) (evs : list event),
    detectApiUrl pg st = (Threw e, st') /\
    trace st' = trace st ++ evs /\
    window_fetch st' = Interceptor (window_fetch st) /\
    assignments (window_fetch st) evs = 0%nat /\
    this_apiUrl st' = this_apiUrl st.
Proof.
  intros Hfind Hfalsy Hsession.
  destruct (detectApiUrl_active pg st existingUrl Hfind Hfalsy)
    as (st1 & warned & Hscan & Hdetect & Htr1 & Hwarned & Hwf1).
  rewrite Hscan in Hsession. cbn [snd] in Hsession.
  assert (Hurl1 : this_apiUrl st1 = this_apiUrl st).
  { destruct (findGameApiUrl_run pg st) as [r [Hr | [_ Hr]]];
      rewrite Hr in Hscan; injection Hscan as _ <-; reflexivity. }
  destruct (captureSession_run pg (window_fetch st) st1)
    as (o & st2 & evs & Hrun & Htr & Hevs & Hwf & _).
  rewrite Hrun in Hsession. cbn [fst] in Hsession. subst o.
  assert (Hurl2 : this_apiUrl st2 = this_apiUrl st1).
  { revert Hrun. unfold captureSession, assign_fetch, bind, modify. rewrite emit_run.
    match goal with |- context [triggerRefresh pg ?f [] ?s] =>
      destruct (triggerRefresh_run pg f s) as (o & evs' & Ht & _ & _)
    end.
    rewrite Ht. destruct o as [c | e'].
    - rewrite observationWindow_run. discriminate.
    - intros H. injection H as _ <-.
      clear. induction evs' as [| x xs IH] using rev_ind; [reflexivity |].
      rewrite add_events_app. cbn. exact IH. }
  exists st2, (warned ++ SetFetch (Interceptor (window_fetch st)) :: evs).
  split.
  { rewrite Hdetect. unfold interceptApiUrl, bind, read. rewrite Hwf1, Hrun. reflexivity. }
  split; [rewrite Htr, Htr1, <- app_assoc; reflexivity |].
  split; [exact Hwf |].
  split; [| congruence].
  rewrite assignments_app, (assignments_passive _ _ Hwarned).
  change (SetFetch (Interceptor (window_fetch st)) :: evs)
    with ([SetFetch (Interceptor (window_fetch st))] ++ evs).
  rewrite assignments_app, (assignments_session _ _ Hevs).
  unfold assignments. cbn [filter]. rewrite fetch_fn_eqb_wrapper. reflexivity.
Qed.

Lemma detectApiUrl_rejects_witness :
  exists (st' : state) (evs : list event),
    detectApiUrl throwingPage initialState = (Threw (PageError "click failed"), st') /\
    trace st' = trace initialState ++ evs /\
    window_fetch st' = Interceptor (window_fetch initialState) /\
    assignments (window_fetch initialState) evs = 0%nat /\
    this_apiUrl st' = this_apiUrl initialState.
Proof.
  apply (detectApiUrl_rejects throwingPage initialState None (PageError "click failed")).
  - reflexivity.
  - left. reflexivity.
  - reflexivity.
Defined.

(** X13: the active path, step by step, when the affordance is found (or
    there is none) and its click does not throw.  The wrapper is installed,
    at most one element is clicked, every request the page issues through
    [window.fetch] during the click and during the 3 s that follow is
    forwarded to the original function with its argument, in order, and the
    original function is put back.  The result is the first string among
    these requests that has both markers, else the fallback with a warning;
    requests whose first argument is not a string are never recorded.
    [this.apiUrl] is not updated on this path. *)
Theorem detectApiUrl_active_run (pg : page) (st : state)
    (existingUrl : option string) (target : option element) :
  fst (findGameApiUrl pg st) = Returned existingUrl ->
  falsy existingUrl ->
  affordance (dom_at pg (now st)) = Returned target ->
  (forall el, target = Some el -> click_throws el = None) ->
  exists st' : state,
    detectApiUrl pg st =
      (Returned (hd fallbackApiUrl
                   (matching (affordanceRequests target ++ page_requests pg (now st)))),
       st') /\
    trace st' =
      trace (snd (findGameApiUrl pg st)) ++
      [SetFetch (Interceptor (window_fetch st))] ++
      (match target with Some el => [Click el] | None => [] end) ++
      map (CallFetch (window_fetch st)) (affordanceRequests target) ++
      [Wait 3000] ++
      map (CallFetch (window_fetch st)) (page_requests pg (now st)) ++
      [SetFetch (window_fetch st)] ++
      (match matching (affordanceRequests target ++ page_requests pg (now st)) with
       | [] => [Console Warn NoApiUrlCaptured]
       | _ :: _ => []
       end) /\
    window_fetch st' = window_fetch st /\
    this_apiUrl st' = this_apiUrl st /\
    now st' = now st + 3000 + Z.max 0 (timer_lag pg (now st)).
Proof.
  intros Hfind Hfalsy Htarget Hclick.
  destruct (detectApiUrl_active pg st existingUrl Hfind Hfalsy)
    as (st1 & warned & Hscan & Hdetect & Htr1 & Hwarned & Hwf1).
  rewrite Hscan. cbn [snd].
  assert (Hsame : now st1 = now st /\ this_apiUrl st1 = this_apiUrl st).
  { destruct (findGameApiUrl_run pg st) as [r [Hr | [_ Hr]]];
      rewrite Hr in Hscan; injection Hscan as _ <-; split; reflexivity. }
  destruct Hsame as [Hnow1 Hurl1].
  rewrite Hdetect.
  unfold interceptApiUrl, captureSession, assign_fetch, bind, read, modify.
  rewrite !emit_run, triggerRefresh_affordance.
  cbn [now add_event set_window_fetch]. rewrite Hnow1, Hwf1, Htarget.
  assert (Hmatch : forall xs ys, matching (xs ++ ys) = matching xs ++ matching ys)
    by (intros; apply flat_map_app).
  destruct target as [el |].
  - rewrite click_run, (Hclick el eq_refl), observationWindow_run.
    rewrite add_events_now. cbn [now add_event set_window_fetch app].
    rewrite Hnow1, emit_run. cbn [affordanceRequests]. rewrite Hmatch.
    destruct (matching (click_requests el) ++ matching (page_requests pg (now st)))
      as [| gameUrl others] eqn:Hcaptured.
    + rewrite emit_run. eexists. split; [reflexivity |].
      cbn [trace window_fetch this_apiUrl now add_event set_window_fetch set_now].
      rewrite !add_events_trace, ?add_events_apiUrl.
      cbn [trace this_apiUrl add_event set_window_fetch].
      repeat split; try assumption.
      rewrite <- !app_assoc. reflexivity.
    + eexists. split; [reflexivity |].
      cbn [trace window_fetch this_apiUrl now add_event set_window_fetch set_now].
      rewrite !add_events_trace, ?add_events_apiUrl.
      cbn [trace this_apiUrl add_event set_window_fetch].
      repeat split; try assumption.
      rewrite <- !app_assoc. reflexivity.
  - rewrite observationWindow_run.
    cbn [now add_event set_window_fetch app affordanceRequests map].
    rewrite Hnow1, emit_run.
    destruct (matching (page_requests pg (now st))) as [| gameUrl others] eqn:Hcaptured.
    + rewrite emit_run. eexists. split; [reflexivity |].
      cbn [trace window_fetch this_apiUrl now add_event set_window_fetch set_now].
      rewrite !add_events_trace, ?add_events_apiUrl.
      cbn [trace this_apiUrl add_event set_window_fetch].
      repeat split; try assumption.
      rewrite <- !app_assoc. reflexivity.
    + eexists. split; [reflexivity |].
      cbn [trace window_fetch this_apiUrl now add_event set_window_fetch set_now].
      rewrite !add_events_trace, ?add_events_apiUrl.
      cbn [trace this_apiUrl add_event set_window_fetch].
      repeat split; try assumption.
      rewrite <- !app_assoc. reflexivity.
Qed.

Lemma detectApiUrl_active_run_witness :
  exists st' : state,
    detectApiUrl playPage initialState =
      (Returned (hd fallbackApiUrl
                   (matching (affordanceRequests (Some playButton) ++
                              page_requests playPage (now initialState)))),
       st') /\
    trace st' =
      trace (snd (findGameApiUrl playPage initialState)) ++
      [SetFetch (Interceptor (window_fetch initialState))] ++
      [Click playButton] ++
      map (CallFetch (window_fetch initialState)) (affordanceRequests (Some playButton)) ++
      [Wait 3000] ++
      map (CallFetch (window_fetch initialState))
        (page_requests playPage (now initialState)) ++
      [SetFetch (window_fetch initialState)] ++
      (match matching (affordanceRequests (Some playButton) ++
                       page_requests playPage (now initialState)) with
       | [] => [Console Warn NoApiUrlCaptured]
       | _ :: _ => []
       end) /\
    window_fetch st' = window_fetch initialState /\
    this_apiUrl st' = this_apiUrl initialState /\
    now st' = now initialState + 3000 + Z.max 0 (timer_lag playPage (now initialState)).
Proof.
  apply (detectApiUrl_active_run playPage initialState None (Some playButton)).
  - reflexivity.
  - left. reflexivity.
  - reflexivity.
  - intros el H. injection H as <-. reflexivity.
Defined.

(** ** More on the puzzle retriever *)

Ltac destruct_reads :=
  repeat match goal with
         | |- context [match getProp ?v ?k with _ => _ end] => destruct (getProp v k)
         | |- context [match getFirst ?v with _ => _ end] => destruct (getFirst v)
         end.

(** The extraction step only writes [this.puzzle], [this.gridSize] and
    [this.solution]. *)
Lemma extractPuzzle_frame (data : value) (st : state) :
  trace (snd (extractPuzzle data st)) = trace st /\
  window_fetch (snd (extractPuzzle data st)) = window_fetch st /\
  this_apiUrl (snd (extractPuzzle data st)) = this_apiUrl st /\
  now (snd (extractPuzzle data st)) = now st.
Proof.
  unfold extractPuzzle, bind, lift, modify, ret.
  destruct_reads; cbn; repeat split.
Qed.

(** X14: once the token is read, a response whose status is not a success
    makes [fetchPuzzle] read the body as text, print the status and the
    text, print the failure and throw an error that carries both; when the
    body cannot be read, the exception of the read is printed and thrown
    instead.  The body is never parsed, even if it holds a puzzle, and
    nothing of [this] changes.  The only effect before the request is the
    warning of a token not found. *)
Theorem fetchPuzzle_http_error (pg : page) (st st0 : state) (csrfToken : string)
    (r : response) :
  readCSRFToken pg st = (Returned csrfToken, st0) ->
  network pg (this_apiUrl st) = Returned r ->
  ok r = false ->
  let request := CallFetch (window_fetch st) (ArgString (this_apiUrl st)) in
  (st0 = st \/ st0 = add_event (Console Warn CsrfTokenNotFound) st) /\
  fetchPuzzle pg st =
    match text r with
    | Returned errorText =>
        (Threw (HttpError (status r) errorText),
         add_events
           [request;
            Console Error (HttpFailure (status r) errorText);
            Console Error (FailedToFetch (HttpError (status r) errorText))]
           st0)
    | Threw e =>
        (Threw e, add_events [request; Console Error (FailedToFetch e)] st0)
    end.
Proof.
  intros Hread Hnet Hok request.
  destruct (fetchPuzzle_token_read pg st st0 csrfToken Hread) as [Hcase ->].
  split; [exact Hcase |].
  unfold try_catch. unfold bind at 1 2 3.
  unfold lift at 1. rewrite emit_run, Hnet, Hok. cbn [negb].
  unfold bind at 1. unfold lift at 1.
  destruct (text r) as [errorText | e]; reflexivity.
Qed.

Lemma fetchPuzzle_http_error_witness :
  let request := CallFetch (PageFetch 0) (ArgString constructorApiUrl) in
  fetchPuzzle forbiddenPage initialState =
    (Threw (HttpError 403 "CSRF check failed"),
     add_events
       [request;
        Console Error (HttpFailure 403 "CSRF check failed");
        Console Error (FailedToFetch (HttpError 403 "CSRF check failed"))]
       initialState) /\
  fetchPuzzle brokenBodyPage initialState =
    (Threw (PageError "body stream already read"),
     add_events
       [request;
        Console Error (FailedToFetch (PageError "body stream already read"))]
       initialState).
Proof.
  split.
  - exact (proj2 (fetchPuzzle_http_error forbiddenPage initialState initialState
                    "ajax:0123456789"
                    {| ok := false; status := 403; text := Returned "CSRF check failed";
                       json := Returned (envelope examplePuzzle) |}
                    ltac:(vm_compute; reflexivity) eq_refl eq_refl)).
  - exact (proj2 (fetchPuzzle_http_error brokenBodyPage initialState initialState
                    "ajax:0123456789"
                    {| ok := false; status := 502;
                       text := Threw (PageError "body stream already read");
                       json := Threw (PageError "body stream already read") |}
                    ltac:(vm_compute; reflexivity) eq_refl eq_refl)).
Defined.

(** The request and what follows it, whatever the network answers. *)
Lemma requestPuzzle_effects (pg : page) (f : fetch_fn) (apiUrl : string) (st : state) :
  exists (o : outcome value) (st' : state) (evs : list event),
    try_catch
      (emit (CallFetch f (ArgString apiUrl)) ;;;
       response <- lift (network pg apiUrl) ;;
       (if negb (ok response) then
          errorText <- lift (text response) ;;
          emit (Console Error (HttpFailure (status response) errorText)) ;;;
          throw (HttpError (status response) errorText)
        else ret tt) ;;;
       data <- lift (json response) ;;
       extractPuzzle data)
      (fun error => emit (Console Error (FailedToFetch error)) ;;; throw error)
      st = (o, st') /\
    trace st' = trace st ++ CallFetch f (ArgString apiUrl) :: evs /\
    filter isCallFetch evs = [] /\
    window_fetch st' = window_fetch st /\
    this_apiUrl st' = this_apiUrl st /\
    now st' = now st /\
    (forall e, o = Threw e ->
               exists evs0, evs = evs0 ++ [Console Error (FailedToFetch e)]) /\
    (forall v, o = Returned v -> evs = []).
Proof.
  unfold try_catch. unfold bind at 1 2 3. unfold lift at 1. rewrite emit_run.
  destruct (network pg apiUrl) as [r | e].
  - destruct (ok r); cbn [negb].
    + unfold ret at 1. unfold bind at 1. unfold lift at 1.
      destruct (json r) as [data | e].
      * pose proof (extractPuzzle_frame data (add_event (CallFetch f (ArgString apiUrl)) st))
          as (Htr & Hwf & Hurl & Hnow).
        destruct (extractPuzzle data _) as [[v | e] st1]; cbn [snd] in *.
        -- exists (Returned v), st1, [].
           repeat split; auto; try discriminate.
        -- exists (Threw e), (add_event (Console Error (FailedToFetch e)) st1),
             [Console Error (FailedToFetch e)].
           split; [reflexivity |].
           split; [cbn; rewrite Htr; cbn; rewrite <- app_assoc; reflexivity |].
           repeat split; auto; try discriminate.
           intros e' H. injection H as <-. exists []. reflexivity.
      * eexists (Threw e), _, [Console Error (FailedToFetch e)].
        split; [reflexivity |].
        split; [cbn; rewrite <- app_assoc; reflexivity |].
        repeat split; auto; try discriminate.
        intros e' H. injection H as <-. exists []. reflexivity.
    + unfold bind at 1. unfold lift at 1.
      destruct (text r) as [errorText | e].
      * eexists (Threw (HttpError (status r) errorText)), _,
          [Console Error (HttpFailure (status r) errorText);
           Console Error (FailedToFetch (HttpError (status r) errorText))].
        split; [reflexivity |].
        split; [cbn; rewrite <- !app_assoc; reflexivity |].
        repeat split; auto; try discriminate.
        intros e' H. injection H as <-.
        exists [Console Error (HttpFailure (status r) errorText)]. reflexivity.
      * eexists (Threw e), _, [Console Error (FailedToFetch e)].
        split; [reflexivity |].
        split; [cbn; rewrite <- app_assoc; reflexivity |].
        repeat split; auto; try discriminate.
        intros e' H. injection H as <-. exists []. reflexivity.
  - eexists (Threw e), _, [Console Error (FailedToFetch e)].
    split; [reflexivity |].
    split; [cbn; rewrite <- app_assoc; reflexivity |].
    repeat split; auto; try discriminate.
    intros e' H. injection H as <-. exists []. reflexivity.
Qed.

(** What a call of [fetchPuzzle] does to the world, whatever the page holds
    and the network answers. *)
Lemma fetchPuzzle_effects (pg : page) (st : state) :
  exists (o : outcome value) (st' : state) (warned evs : list event),
    fetchPuzzle pg st = (o, st') /\
    (warned = [] \/
     (warned = [Console Warn CsrfTokenNotFound] /\
      fst (readCSRFToken pg st) = Returned EmptyString)) /\
    trace st' =
      trace st ++ warned ++
      (match fst (readCSRFToken pg st) with
       | Returned _ => [CallFetch (window_fetch st) (ArgString (this_apiUrl st))]
       | Threw _ => []
       end) ++ evs /\
    filter isCallFetch evs = [] /\
    window_fetch st' = window_fetch st /\
    this_apiUrl st' = this_apiUrl st /\
    now st' = now st /\
    (forall e, o = Threw e ->
               exists evs0, evs = evs0 ++ [Console Error (FailedToFetch e)]) /\
    (forall v, o = Returned v -> evs = []).
Proof.
  destruct (readCSRFToken pg st) as [[csrfToken | e] st0] eqn:Hread.
  - destruct (fetchPuzzle_token_read pg st st0 csrfToken Hread) as [Hcase ->].
    destruct (requestPuzzle_effects pg (window_fetch st) (this_apiUrl st) st0)
      as (o & st' & evs & Hrun & Htr & Hcalls & Hwf & Hurl & Hnow & Hthrow & Hret).
    destruct (readCSRFToken_run pg st) as (warned & Hrun0 & Hwarned).
    rewrite Hread in Hrun0, Hwarned. cbn [fst] in Hrun0, Hwarned.
    injection Hrun0 as Hst0.
    exists o, st', warned, evs.
    split; [exact Hrun |].
    split; [exact Hwarned |].
    cbn [fst]. rewrite Htr, Hwf, Hurl, Hnow, Hst0.
    rewrite add_events_trace, add_events_window_fetch, add_events_apiUrl, add_events_now.
    rewrite <- !app_assoc.
    repeat match goal with |- _ /\ _ => split end; auto.
  - assert (Hfst : fst (readCSRFToken pg st) = Threw e) by (rewrite Hread; reflexivity).
    rewrite (fetchPuzzle_token_throws pg st e Hfst).
    exists (Threw e), (add_event (Console Error (FailedToFetch e)) st), [],
      [Console Error (FailedToFetch e)].
    split; [reflexivity |].
    split; [left; reflexivity |].
    cbn [fst].
    repeat match goal with |- _ /\ _ => split end; try reflexivity.
    + intros e' H. injection H as <-. exists []. reflexivity.
    + intros v H. discriminate H.
Qed.


(** The two runs that differ from a plain request: on a page without a
    token the warning comes first and the request is issued all the same; in
    a document whose cookies cannot be read nothing is requested. *)
Example fetchPuzzle_token_runs :
  fetchPuzzle (signedOutPage (envelope examplePuzzle)) initialState =
    (Returned examplePuzzle,
     set_solution (VArr [VNum 0; VNum 1; VNum 4; VNum 7; VNum 8])
       (set_gridSize (VNum 3)
          (set_puzzle examplePuzzle
             (add_events [Console Warn CsrfTokenNotFound;
                          CallFetch (PageFetch 0) (ArgString constructorApiUrl)]
                initialState)))) /\
  fetchPuzzle (cookielessPage (envelope examplePuzzle)) initialState =
    (Threw TypeError, add_event (Console Error (FailedToFetch TypeError)) initialState).
Proof. split; vm_compute; reflexivity. Qed.

(** How far the extraction step gets before it throws or returns: nothing
    is written when the puzzle container is missing; [this.puzzle] alone is
    written (with [undefined] or [null]) when the puzzle itself is missing;
    otherwise all three fields are written, before the solution is looked
    at. *)
Lemma extractPuzzle_state (data : value) (st : state) :
  let container := dig data [Key "included"; First; Key "gamePuzzle"] in
  let puzzle := dig data puzzlePath in
  (absent container = true -> snd (extractPuzzle data st) = st) /\
  (absent container = false -> absent puzzle = true ->
   snd (extractPuzzle data st) = set_puzzle puzzle st) /\
  (absent puzzle = false ->
   snd (extractPuzzle data st) =
     set_solution (dig data (puzzlePath ++ [Key "solution"]))
       (set_gridSize (dig data (puzzlePath ++ [Key "gridSize"]))
          (set_puzzle puzzle st))).
Proof.
  cbv zeta.
  set (v1 := readStep data (Key "included")).
  set (v2 := readStep v1 First).
  set (v3 := readStep v2 (Key "gamePuzzle")).
  set (v4 := readStep v3 (Key "trailGamePuzzle")).
  set (sol := readStep v4 (Key "solution")).
  change (dig data [Key "included"; First; Key "gamePuzzle"]) with v3.
  change (dig data puzzlePath) with v4.
  change (dig data (puzzlePath ++ [Key "solution"])) with sol.
  change (dig data (puzzlePath ++ [Key "gridSize"])) with (readStep v4 (Key "gridSize")).
  assert (Hpast : forall v s, absent v = true -> absent (readStep v s) = true)
    by (intros v s Hv; rewrite readStep_absent by assumption; reflexivity).
  unfold extractPuzzle, bind, lift, modify.
  change (getProp data "included") with (getStep data (Key "included")).
  destruct (absent data) eqn:H0.
  { rewrite (getStep_absent data) by assumption.
    assert (absent v3 = true) by (subst v3 v2 v1; auto).
    assert (absent v4 = true) by (subst v4; auto).
    repeat split; intros; congruence. }
  rewrite (getStep_present data) by assumption. fold v1.
  change (getFirst v1) with (getStep v1 First).
  destruct (absent v1) eqn:H1.
  { rewrite (getStep_absent v1) by assumption.
    assert (absent v3 = true) by (subst v3 v2; auto).
    assert (absent v4 = true) by (subst v4; auto).
    repeat split; intros; congruence. }
  rewrite (getStep_present v1) by assumption. fold v2.
  change (getProp v2 "gamePuzzle") with (getStep v2 (Key "gamePuzzle")).
  destruct (absent v2) eqn:H2.
  { rewrite (getStep_absent v2) by assumption.
    assert (absent v3 = true) by (subst v3; auto).
    assert (absent v4 = true) by (subst v4; auto).
    repeat split; intros; congruence. }
  rewrite (getStep_present v2) by assumption. fold v3.
  change (getProp v3 "trailGamePuzzle") with (getStep v3 (Key "trailGamePuzzle")).
  destruct (absent v3) eqn:H3.
  { rewrite (getStep_absent v3) by assumption.
    assert (absent v4 = true) by (subst v4; auto).
    repeat split; intros; congruence. }
  rewrite (getStep_present v3) by assumption. fold v4.
  change (getProp v4 "gridSize") with (getStep v4 (Key "gridSize")).
  change (getProp v4 "solution") with (getStep v4 (Key "solution")).
  change (getProp v4 "orderedSequence") with (getStep v4 (Key "orderedSequence")).
  destruct (absent v4) eqn:H4.
  { rewrite (getStep_absent v4) by assumption.
    repeat split; intros; congruence. }
  rewrite !(getStep_present v4) by assumption. fold sol.
  change (getProp sol "length") with (getStep sol (Key "length")).
  destruct (absent sol) eqn:H5.
  { rewrite (getStep_absent sol) by assumption.
    repeat split; intros; congruence. }
  rewrite (getStep_present sol) by assumption.
  repeat split; intros; congruence.
Qed.

(** X16: a retrieval that fails half way leaves [this] half updated.  On a
    success response to the request, which is issued once the token is
    read, nothing of [this] is written when the puzzle container
    is missing; when the puzzle itself is missing, [this.puzzle] is
    overwritten with [undefined] (or [null]); when the puzzle is there, its
    [gridSize] and [solution] are stored as they are, missing or not, before
    the call throws for a missing solution: the solution of an earlier
    retrieval is lost. *)
Theorem fetchPuzzle_partial_update (pg : page) (st : state) (csrfToken : string)
    (r : response) (data : value) :
  fst (readCSRFToken pg st) = Returned csrfToken ->
  network pg (this_apiUrl st) = Returned r ->
  ok r = true ->
  json r = Returned data ->
  let st' := snd (fetchPuzzle pg st) in
  let container := dig data [Key "included"; First; Key "gamePuzzle"] in
  let puzzle := dig data puzzlePath in
  (absent container = true ->
   this_puzzle st' = this_puzzle st /\
   this_gridSize st' = this_gridSize st /\
   this_solution st' = this_solution st) /\
  (absent container = false -> absent puzzle = true ->
   this_puzzle st' = puzzle /\
   this_gridSize st' = this_gridSize st /\
   this_solution st' = this_solution st) /\
  (absent puzzle = false ->
   this_puzzle st' = puzzle /\
   this_gridSize st' = dig data (puzzlePath ++ [Key "gridSize"]) /\
   this_solution st' = dig data (puzzlePath ++ [Key "solution"])).
Proof.
  intros Hread Hnet Hok Hjson. cbv zeta.
  rewrite (fetchPuzzle_success_response pg st (snd (readCSRFToken pg st)) csrfToken r data
             ltac:(rewrite <- Hread; apply surjective_pairing) Hnet Hok Hjson).
  assert (Hkeep : this_puzzle (snd (readCSRFToken pg st)) = this_puzzle st /\
                  this_gridSize (snd (readCSRFToken pg st)) = this_gridSize st /\
                  this_solution (snd (readCSRFToken pg st)) = this_solution st).
  { destruct (readCSRFToken_run pg st) as (warned & Hrun & _).
    rewrite Hrun. cbn [snd]. apply add_events_puzzle. }
  destruct Hkeep as (Hp0 & Hg0 & Hs0). rewrite <- Hp0, <- Hg0, <- Hs0.
  set (st0 := add_event _ (snd (readCSRFToken pg st))).
  pose proof (extractPuzzle_state data st0) as Hstate. cbv zeta in Hstate.
  destruct Hstate as (Hnone & Hpuzzle & Hall).
  assert (Hfields : forall s,
             snd (extractPuzzle data st0) = s ->
             let st' := snd (try_catch (extractPuzzle data)
                               (fun error => emit (Console Error (FailedToFetch error)) ;;;
                                             throw error) st0) in
             this_puzzle st' = this_puzzle s /\
             this_gridSize st' = this_gridSize s /\
             this_solution st' = this_solution s).
  { intros s Hs. unfold try_catch.
    destruct (extractPuzzle data st0) as [[v | e] s1]; cbn [snd] in *; subst s1;
      repeat split. }
  split; [| split].
  - intros H. apply (Hfields st0). auto.
  - intros H1 H2. apply (Hfields (set_puzzle (dig data puzzlePath) st0)). auto.
  - intros H. apply (Hfields _ (Hall H)).
Qed.

Lemma fetchPuzzle_partial_update_witness :
  let pg := answeringPage (envelope (VObj [("gridSize", VNum 4)])) in
  let data := envelope (VObj [("gridSize", VNum 4)]) in
  let st := set_solution (VArr [VNum 0; VNum 1]) initialState in
  let st' := snd (fetchPuzzle pg st) in
  let container := dig data [Key "included"; First; Key "gamePuzzle"] in
  let puzzle := dig data puzzlePath in
  (absent container = true ->
   this_puzzle st' = this_puzzle st /\
   this_gridSize st' = this_gridSize st /\
   this_solution st' = this_solution st) /\
  (absent container = false -> absent puzzle = true ->
   this_puzzle st' = puzzle /\
   this_gridSize st' = this_gridSize st /\
   this_solution st' = this_solution st) /\
  (absent puzzle = false ->
   this_puzzle st' = puzzle /\
   this_gridSize st' = dig data (puzzlePath ++ [Key "gridSize"]) /\
   this_solution st' = dig data (puzzlePath ++ [Key "solution"])).
Proof.
  apply (fetchPuzzle_partial_update
           (answeringPage (envelope (VObj [("gridSize", VNum 4)])))
           (set_solution (VArr [VNum 0; VNum 1]) initialState)
           "ajax:0123456789"
           {| ok := true; status := 200; text := Returned "";
              json := Returned (envelope (VObj [("gridSize", VNum 4)])) |}
           (envelope (VObj [("gridSize", VNum 4)])));
    reflexivity.
Defined.

(** The run the witness is about: an earlier solution is replaced by
    [undefined] by a retrieval that throws. *)
Example fetchPuzzle_loses_solution :
  fst (fetchPuzzle (answeringPage (envelope (VObj [("gridSize", VNum 4)])))
         (set_solution (VArr [VNum 0; VNum 1]) initialState)) = Threw TypeError /\
  this_solution
    (snd (fetchPuzzle (answeringPage (envelope (VObj [("gridSize", VNum 4)])))
            (set_solution (VArr [VNum 0; VNum 1]) initialState))) = VUndefined.
Proof. split; vm_compute; reflexivity. Qed.

(** ** Detection followed by retrieval *)

Lemma detectApiUrl_passive_hit_state (pg : page) (st : state) (existing : string) :
  fst (findGameApiUrl pg st) = Returned (Some existing) ->
  truthy existing = true ->
  detectApiUrl pg st = (Returned existing, set_apiUrl existing st) /\
  findGameApiUrl pg st = (Returned (Some existing), st).
Proof.
  intros Hfind Htruthy.
  unfold detectApiUrl. unfold bind at 1.
  destruct (findGameApiUrl_run pg st) as [r [Hr | [-> Hr]]];
    rewrite Hr in Hfind |- *; cbn [fst] in Hfind; [| discriminate].
  injection Hfind as ->. rewrite Htruthy. split; reflexivity.
Qed.

(** When [detectApiUrl] resolves, [window.fetch] is what it was before the
    call. *)
Lemma detectApiUrl_resolved_restored (pg : page) (st st1 : state) (apiUrl : string) :
  detectApiUrl pg st = (Returned apiUrl, st1) ->
  window_fetch st1 = window_fetch st.
Proof.
  intros Hrun.
  destruct (findGameApiUrl_run pg st) as [r Hr].
  assert (Hfst : fst (findGameApiUrl pg st) = Returned r)
    by (destruct Hr as [Hr | [-> Hr]]; rewrite Hr; reflexivity).
  destruct r as [existing |].
  - destruct (truthy existing) eqn:Htruthy.
    + destruct (detectApiUrl_passive_hit_state pg st existing Hfst Htruthy) as [Heq _].
      rewrite Heq in Hrun. injection Hrun as _ <-. reflexivity.
    + assert (Hfalsy : falsy (Some existing))
        by (right; destruct existing; [reflexivity | discriminate]).
      destruct (detectApiUrl_active pg st _ Hfst Hfalsy)
        as (s1 & warned & Hscan & Hdetect & _ & _ & Hwf1).
      rewrite Hdetect in Hrun.
      destruct (fst (captureSession pg (window_fetch s1) s1)) as [c | e] eqn:Hsession.
      * destruct (interceptApiUrl_completes pg s1 c Hsession) as (s' & evs & Hi & _ & _ & Hwf & _).
        rewrite Hi in Hrun. injection Hrun as _ <-. congruence.
      * destruct (interceptApiUrl_rejects pg s1 e Hsession) as [Hthrow _].
        rewrite Hrun in Hthrow. discriminate.
  - destruct (detectApiUrl_active pg st None Hfst (or_introl eq_refl))
      as (s1 & warned & Hscan & Hdetect & _ & _ & Hwf1).
    rewrite Hdetect in Hrun.
    destruct (fst (captureSession pg (window_fetch s1) s1)) as [c | e] eqn:Hsession.
    + destruct (interceptApiUrl_completes pg s1 c Hsession) as (s' & evs & Hi & _ & _ & Hwf & _).
      rewrite Hi in Hrun. injection Hrun as _ <-. congruence.
    + destruct (interceptApiUrl_rejects pg s1 e Hsession) as [Hthrow _].
      rewrite Hrun in Hthrow. discriminate.
Qed.

(** X17: detection and retrieval compose as [run()] chains them.  When
    [detectApiUrl] resolves with a URL, [this.apiUrl] is that URL afterwards,
    and the retrieval that follows issues at most one request: when the token
    is read, one request to exactly that URL, through the page's own [fetch]
    (the wrapper is gone by then), preceded by nothing but the warning of a
    token not found, if it is printed; when reading the token throws, none. *)
Theorem detectThenFetch_request (pg : page) (st st1 : state) (apiUrl : string) :
  detectApiUrl pg st = (Returned apiUrl, st1) ->
  exists (o : outcome value) (st' : state) (warned evs : list event),
    detectThenFetch pg st = (o, st') /\
    (warned = [] \/
     (warned = [Console Warn CsrfTokenNotFound] /\
      fst (readCSRFToken pg st) = Returned EmptyString)) /\
    trace st' =
      trace st1 ++ warned ++
      (match fst (readCSRFToken pg st) with
       | Returned _ => [CallFetch (window_fetch st) (ArgString apiUrl)]
       | Threw _ => []
       end) ++ evs /\
    filter isCallFetch evs = [] /\
    this_apiUrl st' = apiUrl /\
    window_fetch st' = window_fetch st.
Proof.
  intros Hrun.
  pose proof (detectApiUrl_resolved_restored pg st st1 apiUrl Hrun) as Hwf.
  unfold detectThenFetch, bind, modify. rewrite Hrun.
  destruct (fetchPuzzle_effects pg (set_apiUrl apiUrl st1))
    as (o & st' & warned & evs & Hfetch & Hwarned & Htr & Hcalls & Hwf' & Hurl & _).
  rewrite (readCSRFToken_fst pg (set_apiUrl apiUrl st1) st) in Hwarned, Htr.
  exists o, st', warned, evs.
  split; [exact Hfetch |].
  cbn [trace window_fetch this_apiUrl set_apiUrl] in Htr, Hwf', Hurl.
  rewrite Hwf in Htr, Hwf'. auto.
Qed.

Lemma detectThenFetch_request_witness :
  exists (o : outcome value) (st' : state) (warned evs : list event),
    detectThenFetch playPage initialState = (o, st') /\
    (warned = [] \/
     (warned = [Console Warn CsrfTokenNotFound] /\
      fst (readCSRFToken playPage initialState) = Returned EmptyString)) /\
    trace st' =
      trace (snd (detectApiUrl playPage initialState)) ++ warned ++
      (match fst (readCSRFToken playPage initialState) with
       | Returned _ => [CallFetch (window_fetch initialState) (ArgString gameRequest)]
       | Threw _ => []
       end) ++ evs /\
    filter isCallFetch evs = [] /\
    this_apiUrl st' = gameRequest /\
    window_fetch st' = window_fetch initialState.
Proof.
  apply (detectThenFetch_request playPage initialState
           (snd (detectApiUrl playPage initialState)) gameRequest).
  vm_compute. reflexivity.
Defined.

(** ** Reading the token *)

(** Methods 1 to 3 of [getCSRFToken] do not look at the session storage. *)
Lemma getCSRFToken_early (c : string) (meta : option string)
    (stored : option (option string)) :
  snd (getCSRFToken {| cookie := c; metaContent := meta; sessionStored := None |}) = false ->
  getCSRFToken {| cookie := c; metaContent := meta; sessionStored := stored |} =
  getCSRFToken {| cookie := c; metaContent := meta; sessionStored := None |}.
Proof.
  unfold getCSRFToken, tokenFromMeta, tokenFromCookieRow, tokenFromStorage.
  cbn [cookie metaContent sessionStored].
  destruct (matchQuotedSession c); [reflexivity |].
  destruct meta as [content |];
    [destruct (truthy content); [reflexivity |] |];
    (destruct (find (prefix sessionKey) (splitCookies EmptyString c));
     [reflexivity | discriminate]).
Qed.

(** X22: [fetchPuzzle] reads the token as [getCSRFToken] computes it.  When
    [document.cookie] and the session storage can be read, the token is the
    one the four methods give on what the page holds, and the warning is
    printed exactly when all four fail.  When the session storage cannot be
    read, the read throws only if methods 1 to 3 find nothing: a token in the
    cookies or in the meta tag is returned without touching the storage. *)
Theorem readCSRFToken_sources (pg : page) (st : state) (c : string) :
  document_cookie pg = Returned c ->
  let sources stored :=
    {| cookie := c; metaContent := csrf_meta pg; sessionStored := stored |} in
  readCSRFToken pg st =
    match session_storage pg with
    | Returned stored =>
        (Returned (fst (getCSRFToken (sources stored))),
         if snd (getCSRFToken (sources stored))
         then add_event (Console Warn CsrfTokenNotFound) st
         else st)
    | Threw e =>
        if snd (getCSRFToken (sources None))
        then (Threw e, st)
        else (Returned (fst (getCSRFToken (sources None))), st)
    end.
Proof.
  intros Hcookie. cbv zeta.
  unfold readCSRFToken, bind, lift. rewrite Hcookie.
  destruct (snd (getCSRFToken
                   {| cookie := c; metaContent := csrf_meta pg; sessionStored := None |}))
    eqn:Hearly; cbn [negb].
  - destruct (session_storage pg) as [stored | e]; [| reflexivity].
    destruct (snd (getCSRFToken
                     {| cookie := c; metaContent := csrf_meta pg; sessionStored := stored |}));
      reflexivity.
  - destruct (session_storage pg) as [stored | e]; [| reflexivity].
    rewrite (getCSRFToken_early c (csrf_meta pg) stored Hearly), Hearly. reflexivity.
Qed.

Lemma readCSRFToken_sources_witness :
  readCSRFToken readyPage initialState = (Returned "ajax:0123456789", initialState) /\
  readCSRFToken (signedOutPage VNull) initialState =
    (Returned EmptyString, add_event (Console Warn CsrfTokenNotFound) initialState).
Proof.
  split.
  - rewrite (readCSRFToken_sources readyPage initialState sessionCookie eq_refl).
    vm_compute. reflexivity.
  - rewrite (readCSRFToken_sources (signedOutPage VNull) initialState EmptyString eq_refl).
    vm_compute. reflexivity.
Defined.

(** ** Long delays *)

(** X23: [setTimeout] takes its delay as a signed 32-bit integer, so that a
    wait of 2^31 ms or more is not the wait asked for: with timers that
    fire on time, [sleep(ms)] for [ms] from 2^31 up to 2^32 returns at once,
    and delays that differ by 2^32 are waited alike. *)
Theorem sleep_delay_wraps (pg : page) (ms : Z) (st : state) :
  (forall t, timer_lag pg t <= 0) ->
  (2 ^ 31 <= ms < 2 ^ 32 -> now (snd (sleep pg ms st)) = now st) /\
  now (snd (sleep pg (ms + 2 ^ 32) st)) = now (snd (sleep pg ms st)).
Proof.
  intros Hlag. rewrite !sleep_run. cbn [snd now set_now add_event].
  pose proof (Hlag (now st)) as Hl.
  assert (E31 : 2 ^ 31 = 2147483648) by reflexivity.
  assert (E32 : 2 ^ 32 = 4294967296) by reflexivity.
  split.
  - intros Hms. unfold timerDelay, toInt32. rewrite E31, E32 in *.
    assert (Hmod : (ms + 2147483648) mod 4294967296 = ms - 2147483648).
    { symmetry. apply Z.mod_unique with (q := 1); lia. }
    rewrite Hmod. lia.
  - unfold timerDelay, toInt32.
    replace (ms + 2 ^ 32 + 2 ^ 31) with (ms + 2 ^ 31 + 1 * 2 ^ 32) by lia.
    rewrite Z.mod_add by (rewrite E32; lia). reflexivity.
Qed.

Lemma sleep_delay_wraps_witness :
  now (snd (sleep readyPage 2147483648 initialState)) = now initialState /\
  now (snd (sleep readyPage (100 + 2 ^ 32) initialState)) =
    now (snd (sleep readyPage 100 initialState)).
Proof.
  destruct (sleep_delay_wraps readyPage 2147483648 initialState
              ltac:(intros t; simpl; lia)) as [Hwrap _].
  destruct (sleep_delay_wraps readyPage 100 initialState
              ltac:(intros t; simpl; lia)) as [_ Hsame].
  split; [apply Hwrap; lia | exact Hsame].
Defined.

(** ** The forgery-protection token *)

Example getCSRFToken_examples :
  getCSRFToken {| cookie := ("lang=v=2&lang=en-us; " ++ quotedSessionKey ++ "ajax:123"
                             ++ String dquote "; li_theme=light")%string;
                  metaContent := Some "from-meta"; sessionStored := None |}
    = ("ajax:123", false) /\
  getCSRFToken {| cookie := "lang=en; JSESSIONID=ajax:123==; li_theme=light";
                  metaContent := Some ""; sessionStored := None |}
    = ("ajax:123", false) /\
  getCSRFToken {| cookie := "lang=en; JSESSIONID=ajax:123";
                  metaContent := Some "from-meta"; sessionStored := None |}
    = ("from-meta", false) /\
  getCSRFToken {| cookie := "lang=en"; metaContent := None;
                  sessionStored := Some None |}
    = ("", true).
Proof. repeat split. Qed.

Lemma string_app_assoc (a b c : string) :
  ((a ++ b) ++ c = a ++ (b ++ c))%string.
Proof.
  induction a as [| x a IH]; cbn [append]; [reflexivity | rewrite IH; reflexivity].
Qed.

Lemma string_length_app (a b : string) :
  String.length (a ++ b)%string = (String.length a + String.length b)%nat.
Proof.
  induction a as [| x a IH]; cbn [append String.length]; [reflexivity |].
  rewrite IH. reflexivity.
Qed.

Lemma noChar_app (q : Ascii.ascii) (a b : string) :
  noChar q (a ++ b)%string = noChar q a && noChar q b.
Proof.
  induction a as [| x a IH]; cbn [append noChar]; [reflexivity |].
  rewrite IH, andb_assoc. reflexivity.
Qed.

Lemma noChar_cons (q c : Ascii.ascii) (s : string) :
  noChar q (String c s) = true <-> c <> q /\ noChar q s = true.
Proof.
  cbn [noChar]. rewrite andb_true_iff, negb_true_iff.
  split; intros [Hc Hs]; split; try assumption.
  - intros ->. rewrite Ascii.eqb_refl in Hc. discriminate.
  - apply Ascii.eqb_neq. assumption.
Qed.

Lemma prefix_drop (p : string) :
  forall s, prefix p s = true -> s = (p ++ dropChars (String.length p) s)%string.
Proof.
  induction p as [| a p IH]; intros s H; [reflexivity |].
  destruct s as [| b s]; cbn [prefix] in H; [discriminate |].
  destruct (Ascii.ascii_dec a b) as [-> |]; [| discriminate].
  cbn [append String.length dropChars]. rewrite <- (IH s H). reflexivity.
Qed.

Lemma prefix_app (p s : string) : prefix p (p ++ s)%string = true.
Proof.
  induction p as [| a p IH]; cbn [append prefix]; [destruct s; reflexivity |].
  destruct (Ascii.ascii_dec a a); [exact IH | contradiction].
Qed.

Lemma dropChars_app (p s : string) : dropChars (String.length p) (p ++ s)%string = s.
Proof.
  induction p as [| a p IH]; cbn [append String.length dropChars];
    [reflexivity | exact IH].
Qed.

Lemma untilQuote_sound (s : string) :
  forall body, untilQuote s = Some body ->
               noChar dquote body = true /\
               exists after, s = (body ++ String dquote after)%string.
Proof.
  induction s as [| c s IH]; intros body H; cbn [untilQuote] in H; [discriminate |].
  destruct (Ascii.eqb c dquote) eqn:Hc.
  - injection H as <-. split; [reflexivity |].
    apply Ascii.eqb_eq in Hc. subst c. exists s. reflexivity.
  - destruct (untilQuote s) as [b |]; [| discriminate].
    injection H as <-. destruct (IH b eq_refl) as (Hb & after & ->).
    split; [cbn [noChar]; rewrite Hc, Hb; reflexivity |].
    exists after. reflexivity.
Qed.

Lemma untilQuote_complete (body after : string) :
  noChar dquote body = true ->
  untilQuote (body ++ String dquote after)%string = Some body.
Proof.
  induction body as [| c body IH]; intros H; cbn [append untilQuote].
  - rewrite Ascii.eqb_refl. reflexivity.
  - apply noChar_cons in H. destruct H as [Hc Hb].
    apply Ascii.eqb_neq in Hc. rewrite Hc, (IH Hb). reflexivity.
Qed.

Lemma quotedSessionAt_sound (s group : string) :
  quotedSessionAt s = Some group ->
  group <> EmptyString /\
  noChar dquote group = true /\
  exists after, s = (quotedSessionKey ++ group ++ String dquote after)%string.
Proof.
  unfold quotedSessionAt.
  destruct (prefix quotedSessionKey s) eqn:Hp; [| discriminate].
  destruct (untilQuote (dropChars 12 s)) as [[| c body] |] eqn:Hu; try discriminate.
  intros H. injection H as <-.
  destruct (untilQuote_sound _ _ Hu) as (Hno & after & Hs).
  split; [discriminate |]. split; [exact Hno |].
  exists after. rewrite <- Hs. apply (prefix_drop _ _ Hp).
Qed.

Lemma quotedSessionAt_complete (token after : string) :
  token <> EmptyString ->
  noChar dquote token = true ->
  quotedSessionAt (quotedSessionKey ++ token ++ String dquote after)%string = Some token.
Proof.
  intros Hne Hno. unfold quotedSessionAt.
  rewrite prefix_app.
  change 12%nat with (String.length quotedSessionKey). rewrite dropChars_app.
  rewrite untilQuote_complete by assumption.
  destruct token; [contradiction | reflexivity].
Qed.

Lemma matchQuotedSession_unfold (s : string) :
  matchQuotedSession s =
    match quotedSessionAt s with
    | Some group => Some group
    | None =>
        match s with
        | EmptyString => None
        | String _ rest => matchQuotedSession rest
        end
    end.
Proof. destruct s; reflexivity. Qed.

(** What method 1 finds is a value of the cookie string: not empty, free of
    double quotes, and standing between the key with its opening quote and a
    closing quote. *)
Lemma matchQuotedSession_sound (s : string) :
  forall group, matchQuotedSession s = Some group ->
    group <> EmptyString /\
    noChar dquote group = true /\
    exists before after,
      s = (before ++ quotedSessionKey ++ group ++ String dquote after)%string.
Proof.
  induction s as [| c s IH]; intros group H; rewrite matchQuotedSession_unfold in H.
  - destruct (quotedSessionAt EmptyString) eqn:Hat; [| discriminate].
    unfold quotedSessionAt in Hat. discriminate.
  - destruct (quotedSessionAt (String c s)) as [g |] eqn:Hat.
    + injection H as <-.
      destruct (quotedSessionAt_sound _ _ Hat) as (Hne & Hno & after & Hs).
      repeat split; try assumption. exists EmptyString, after. exact Hs.
    + destruct (IH group H) as (Hne & Hno & before & after & ->).
      repeat split; try assumption. exists (String c before), after. reflexivity.
Qed.

Lemma matchQuotedSession_complete (before : string) :
  forall token after,
    token <> EmptyString ->
    noChar dquote token = true ->
    exists group,
      matchQuotedSession (before ++ quotedSessionKey ++ token ++ String dquote after)%string
      = Some group.
Proof.
  induction before as [| c before IH]; intros token after Hne Hno;
    rewrite matchQuotedSession_unfold.
  - exists token. cbn [append].
    rewrite (quotedSessionAt_complete token after Hne Hno). reflexivity.
  - destruct (quotedSessionAt _) as [g |]; [exists g; reflexivity |].
    cbn [append]. apply IH; assumption.
Qed.

Lemma get_noChar (q : Ascii.ascii) (x : string) :
  noChar q x = true ->
  forall (n : nat) (rest : string),
    (n < String.length x)%nat ->
    exists c, get n (x ++ rest)%string = Some c /\ c <> q.
Proof.
  induction x as [| a x IH]; intros H n rest Hn; cbn [String.length] in Hn; [lia |].
  apply noChar_cons in H. destruct H as [Ha Hx].
  destruct n as [| n]; cbn [append get].
  - exists a. split; [reflexivity | assumption].
  - apply IH; [assumption | lia].
Qed.

Lemma prefix_get (p : string) :
  forall (s : string) (n : nat) (c : Ascii.ascii),
    prefix p s = true -> get n p = Some c -> get n s = Some c.
Proof.
  induction p as [| a p IH]; intros s n c Hp Hg; [destruct n; discriminate |].
  destruct s as [| b s]; cbn [prefix] in Hp; [discriminate |].
  destruct (Ascii.ascii_dec a b) as [-> |]; [| discriminate].
  destruct n as [| n]; cbn [get] in *; [exact Hg |].
  apply (IH s n c Hp Hg).
Qed.

(** The expression of method 1 does not match at a position inside a
    quote-free stretch in front of the key. *)
Lemma quotedSessionAt_before (c : Ascii.ascii) (before rest : string) :
  noChar dquote (String c before) = true ->
  quotedSessionAt (String c before ++ sessionKey ++ rest)%string = None.
Proof.
  intros Hno. unfold quotedSessionAt.
  destruct (prefix quotedSessionKey _) eqn:Hp; [| reflexivity].
  exfalso.
  pose proof (prefix_get _ _ 11 dquote Hp eq_refl) as Hg.
  rewrite <- string_app_assoc in Hg.
  destruct (get_noChar dquote (String c before ++ sessionKey)%string) with
    (n := 11%nat) (rest := rest) as (x & Hx & Hneq).
  - rewrite noChar_app, Hno. reflexivity.
  - rewrite string_length_app. cbn [String.length sessionKey]. lia.
  - rewrite Hx in Hg. injection Hg as ->. contradiction.
Qed.

Lemma matchQuotedSession_first (before : string) :
  forall token after,
    noChar dquote before = true ->
    token <> EmptyString ->
    noChar dquote token = true ->
    matchQuotedSession (before ++ quotedSessionKey ++ token ++ String dquote after)%string
    = Some token.
Proof.
  induction before as [| c before IH]; intros token after Hb Hne Hno;
    rewrite matchQuotedSession_unfold.
  - cbn [append].
    rewrite (quotedSessionAt_complete token after Hne Hno). reflexivity.
  - assert (Hat : quotedSessionAt
                    (String c before ++ quotedSessionKey ++ token ++ String dquote after)%string
                  = None).
    { unfold quotedSessionKey. rewrite string_app_assoc.
      apply quotedSessionAt_before. exact Hb. }
    rewrite Hat. cbn [append].
    apply IH; try assumption.
    apply noChar_cons in Hb. apply Hb.
Qed.

Lemma stripOuterQuotes_noQuote (s : string) :
  noChar dquote s = true -> stripOuterQuotes s = s.
Proof.
  destruct s as [| c s]; [reflexivity |].
  intros H. apply noChar_cons in H. destruct H as [Hc _].
  apply Ascii.eqb_neq in Hc. unfold stripOuterQuotes. rewrite Hc. reflexivity.
Qed.

Lemma noQuote_no_match (s : string) :
  noChar dquote s = true -> matchQuotedSession s = None.
Proof.
  intros Hno. destruct (matchQuotedSession s) as [group |] eqn:Hm; [| reflexivity].
  destruct (matchQuotedSession_sound s group Hm) as (_ & _ & before & after & Hs).
  rewrite Hs in Hno. rewrite !noChar_app in Hno.
  apply andb_true_iff in Hno. destruct Hno as [_ Hno].
  apply andb_true_iff in Hno. destruct Hno as [Hkey _].
  discriminate.
Qed.

Lemma removeQuotes_noQuote (s : string) : noChar dquote (removeQuotes s) = true.
Proof.
  induction s as [| c s IH]; [reflexivity |].
  cbn [removeQuotes]. destruct (Ascii.eqb c dquote) eqn:Hc; [exact IH |].
  cbn [noChar]. rewrite Hc, IH. reflexivity.
Qed.

Lemma removeQuotes_id (s : string) : noChar dquote s = true -> removeQuotes s = s.
Proof.
  induction s as [| c s IH]; intros H; [reflexivity |].
  apply noChar_cons in H. destruct H as [Hc Hs].
  apply Ascii.eqb_neq in Hc. cbn [removeQuotes]. rewrite Hc, (IH Hs). reflexivity.
Qed.

Lemma string_app_nil_r (s : string) : (s ++ EmptyString)%string = s.
Proof. induction s as [| c s IH]; cbn [append]; [reflexivity | rewrite IH; reflexivity]. Qed.

Lemma splitCookies_unfold (piece s : string) :
  splitCookies piece s =
    match s with
    | EmptyString => [piece]
    | String c rest =>
        match rest with
        | String c' rest' =>
            if Ascii.eqb c semicolon && Ascii.eqb c' space
            then piece :: splitCookies EmptyString rest'
            else splitCookies (piece ++ String c EmptyString)%string rest
        | EmptyString => [(piece ++ String c EmptyString)%string]
        end
    end.
Proof. destruct s; reflexivity. Qed.

(** Characters other than a semicolon join the piece being read. *)
Lemma splitCookies_run (v : string) :
  forall piece rest,
    noChar semicolon v = true ->
    splitCookies piece (v ++ rest)%string = splitCookies (piece ++ v)%string rest.
Proof.
  induction v as [| c v IH]; intros piece rest Hv.
  - cbn [append]. rewrite string_app_nil_r. reflexivity.
  - apply noChar_cons in Hv. destruct Hv as [Hc Hv].
    apply Ascii.eqb_neq in Hc.
    cbn [append]. rewrite splitCookies_unfold.
    replace (piece ++ String c v)%string
      with ((piece ++ String c EmptyString) ++ v)%string
      by (rewrite string_app_assoc; reflexivity).
    destruct (v ++ rest)%string as [| c' r'] eqn:Hrest.
    + destruct v; [| discriminate]. cbn [append] in Hrest. subst rest.
      rewrite string_app_nil_r. reflexivity.
    + rewrite Hc. cbn [andb]. rewrite <- Hrest. apply IH. exact Hv.
Qed.

(** The first piece of a split starts with what was read so far. *)
Lemma splitCookies_first (s : string) :
  forall piece, exists r rows, splitCookies piece s = (piece ++ r)%string :: rows.
Proof.
  induction s as [| c s IH]; intros piece.
  - exists EmptyString, []. rewrite string_app_nil_r. reflexivity.
  - rewrite splitCookies_unfold. destruct s as [| c' s'].
    + exists (String c EmptyString), []. reflexivity.
    + destruct (Ascii.eqb c semicolon && Ascii.eqb c' space).
      * exists EmptyString. eexists. rewrite string_app_nil_r. reflexivity.
      * destruct (IH (piece ++ String c EmptyString)%string) as (r & rows & Hr).
        exists (String c r), rows. rewrite Hr, string_app_assoc. reflexivity.
Qed.

Lemma splitCookies_first_char (c : Ascii.ascii) (s piece : string) :
  c <> semicolon ->
  exists r rows, splitCookies piece (String c s) = (piece ++ String c r)%string :: rows.
Proof.
  intros Hc. apply Ascii.eqb_neq in Hc.
  rewrite splitCookies_unfold. destruct s as [| c' s'].
  - exists EmptyString, []. reflexivity.
  - rewrite Hc. cbn [andb].
    destruct (splitCookies_first (String c' s') (piece ++ String c EmptyString)%string)
      as (r & rows & Hr).
    exists r, rows. rewrite Hr, string_app_assoc. reflexivity.
Qed.

(** Characters other than the separator join the piece being read. *)
Lemma splitAt_run (sep : Ascii.ascii) (v : string) :
  forall piece rest,
    noChar sep v = true ->
    splitAt sep piece (v ++ rest)%string = splitAt sep (piece ++ v)%string rest.
Proof.
  induction v as [| c v IH]; intros piece rest Hv.
  - cbn [append]. rewrite string_app_nil_r. reflexivity.
  - apply noChar_cons in Hv. destruct Hv as [Hc Hv].
    apply Ascii.eqb_neq in Hc.
    cbn [append splitAt]. rewrite Hc, (IH _ _ Hv), string_app_assoc. reflexivity.
Qed.

(** The second piece of a row that starts with the key: the value up to the
    next equals sign. *)
Lemma splitAt_session_row (value r : string) :
  noChar equals value = true ->
  r = EmptyString \/ (exists r', r = String equals r') ->
  nth 1 (splitAt equals EmptyString (sessionKey ++ value ++ r)%string) EmptyString = value.
Proof.
  intros Hv Hr.
  change (sessionKey ++ value ++ r)%string
    with ("JSESSIONID" ++ String equals (value ++ r))%string.
  rewrite splitAt_run by reflexivity.
  cbn [splitAt]. rewrite Ascii.eqb_refl. cbn [nth].
  rewrite (splitAt_run equals value) by assumption. cbn [append].
  destruct Hr as [-> | [r' ->]]; cbn [splitAt]; [reflexivity |].
  rewrite Ascii.eqb_refl. reflexivity.
Qed.

(** X18: when the cookie string holds the key JSESSIONID= followed by a
    value in double quotes (not empty, free of double quotes), method 1
    applies whatever the meta tag and the session storage hold: the token is
    such a quoted value of the cookie string, without its quotes, and no
    warning is printed.  When no double quote precedes the key, the token is
    that very value. *)
Theorem getCSRFToken_quoted_cookie (b : csrfSources) (before value after : string) :
  value <> EmptyString ->
  noChar dquote value = true ->
  cookie b = (before ++ quotedSessionKey ++ value ++ String dquote after)%string ->
  exists token : string,
    getCSRFToken b = (token, false) /\
    token <> EmptyString /\
    noChar dquote token = true /\
    (exists before' after',
       cookie b = (before' ++ quotedSessionKey ++ token ++ String dquote after')%string) /\
    (noChar dquote before = true -> token = value).
Proof.
  intros Hne Hno Hcookie.
  destruct (matchQuotedSession_complete before value after Hne Hno) as (group & Hm).
  rewrite <- Hcookie in Hm.
  destruct (matchQuotedSession_sound _ _ Hm) as (Hgne & Hgno & Hplace).
  exists group. unfold getCSRFToken. rewrite Hm, (stripOuterQuotes_noQuote _ Hgno).
  repeat split; try assumption.
  intros Hb.
  pose proof (matchQuotedSession_first before value after Hb Hne Hno) as Hfirst.
  rewrite <- Hcookie, Hm in Hfirst. injection Hfirst as ->. reflexivity.
Qed.

Lemma getCSRFToken_quoted_cookie_witness :
  exists token : string,
    getCSRFToken {| cookie := ("lang=v=2&lang=en-us; " ++ quotedSessionKey ++ "ajax:123"
                               ++ String dquote "; li_theme=light")%string;
                    metaContent := Some "from-meta";
                    sessionStored := None |} = (token, false) /\
    token <> EmptyString /\
    noChar dquote token = true /\
    (exists before' after',
       cookie {| cookie := ("lang=v=2&lang=en-us; " ++ quotedSessionKey ++ "ajax:123"
                            ++ String dquote "; li_theme=light")%string;
                 metaContent := Some "from-meta";
                 sessionStored := None |}
       = (before' ++ quotedSessionKey ++ token ++ String dquote after')%string) /\
    (noChar dquote "lang=v=2&lang=en-us; " = true -> token = "ajax:123").
Proof.
  apply (getCSRFToken_quoted_cookie
           {| cookie := ("lang=v=2&lang=en-us; " ++ quotedSessionKey ++ "ajax:123"
                         ++ String dquote "; li_theme=light")%string;
              metaContent := Some "from-meta";
              sessionStored := None |}
           "lang=v=2&lang=en-us; " "ajax:123" "; li_theme=light").
  - discriminate.
  - reflexivity.
  - reflexivity.
Defined.

(** X19: an unquoted session cookie is read by method 3, and its value is
    cut at the first equals sign.  When the cookie string has no double
    quote and the meta tag gives nothing, and the string starts with the key
    JSESSIONID= and a value without equals sign or semicolon, which ends the
    string or is followed by an equals sign or by the separator of cookies,
    the token is that value and no warning is printed. *)
Theorem getCSRFToken_unquoted_cookie (b : csrfSources) (value tail : string) :
  noChar dquote (cookie b) = true ->
  metaContent b = None \/ metaContent b = Some EmptyString ->
  cookie b = (sessionKey ++ value ++ tail)%string ->
  noChar equals value = true ->
  noChar semicolon value = true ->
  tail = EmptyString \/
  (exists t, tail = String equals t) \/
  (exists t, tail = String semicolon (String space t)) ->
  getCSRFToken b = (value, false).
Proof.
  intros Hquote Hmeta Hcookie Heq Hsemi Htail.
  unfold getCSRFToken. rewrite (noQuote_no_match _ Hquote).
  assert (Hm : tokenFromMeta b = tokenFromCookieRow b)
    by (unfold tokenFromMeta; destruct Hmeta as [-> | ->]; reflexivity).
  rewrite Hm. unfold tokenFromCookieRow.
  assert (Hvalue : noChar dquote value = true).
  { rewrite Hcookie, !noChar_app in Hquote.
    apply andb_true_iff in Hquote. destruct Hquote as [_ Hquote].
    apply andb_true_iff in Hquote. apply Hquote. }
  assert (Hrow : exists r rows,
             splitCookies EmptyString (cookie b) = (sessionKey ++ value ++ r)%string :: rows /\
             (r = EmptyString \/ exists r', r = String equals r')).
  { rewrite Hcookie, <- string_app_assoc.
    rewrite splitCookies_run by (rewrite noChar_app, Hsemi; reflexivity).
    cbn [append].
    destruct Htail as [-> | [[t ->] | [t ->]]].
    - exists EmptyString, []. rewrite !string_app_nil_r. auto.
    - destruct (splitCookies_first_char equals t (sessionKey ++ value)%string)
        as (r & rows & Hr); [discriminate |].
      exists (String equals r), rows. rewrite Hr, string_app_assoc. eauto.
    - rewrite splitCookies_unfold. cbn [andb Ascii.eqb].
      rewrite !Ascii.eqb_refl. cbn [andb].
      exists EmptyString. eexists. rewrite !string_app_nil_r. auto. }
  destruct Hrow as (r & rows & Hsplit & Hr).
  rewrite Hsplit. cbn [find]. rewrite prefix_app.
  rewrite (splitAt_session_row value r Heq Hr), (removeQuotes_id _ Hvalue).
  reflexivity.
Qed.

Lemma getCSRFToken_unquoted_cookie_witness :
  getCSRFToken {| cookie := "JSESSIONID=ajax:123==; li_theme=light";
                  metaContent := Some ""; sessionStored := None |}
    = ("ajax:123", false).
Proof.
  apply (getCSRFToken_unquoted_cookie
           {| cookie := "JSESSIONID=ajax:123==; li_theme=light";
              metaContent := Some ""; sessionStored := None |}
           "ajax:123" "==; li_theme=light").
  - reflexivity.
  - right. reflexivity.
  - reflexivity.
  - reflexivity.
  - reflexivity.
  - right. left. exists "=; li_theme=light". reflexivity.
Defined.

(** X20: a token that comes from the cookie string holds no double quote:
    without a meta tag and without session storage, the result of
    [getCSRFToken] is free of double quotes, whatever the cookie string. *)
Theorem getCSRFToken_no_quote (b : csrfSources) :
  metaContent b = None ->
  sessionStored b = None ->
  noChar dquote (fst (getCSRFToken b)) = true.
Proof.
  intros Hmeta Hstore. unfold getCSRFToken.
  destruct (matchQuotedSession (cookie b)) as [group |] eqn:Hm.
  - destruct (matchQuotedSession_sound _ _ Hm) as (_ & Hno & _).
    cbn [fst]. rewrite stripOuterQuotes_noQuote; assumption.
  - unfold tokenFromMeta, tokenFromCookieRow, tokenFromStorage.
    rewrite Hmeta, Hstore.
    destruct (find (prefix sessionKey) (splitCookies EmptyString (cookie b)));
      cbn [fst]; [apply removeQuotes_noQuote | reflexivity].
Qed.

Lemma getCSRFToken_no_quote_witness :
  noChar dquote
    (fst (getCSRFToken {| cookie := ("a=1; JSESSIONID=" ++ String dquote "x")%string;
                          metaContent := None; sessionStored := None |})) = true.
Proof.
  apply (getCSRFToken_no_quote
           {| cookie := ("a=1; JSESSIONID=" ++ String dquote "x")%string;
              metaContent := None; sessionStored := None |});
    reflexivity.
Defined.

(** ** Identifiers outside the grid *)

(** X21: [indexToCoords] takes the floor of the quotient but the truncated
    remainder, so that for a negative identifier that is a safe integer
    (above -2^53) and not a multiple of the grid size the column is negative
    and row * gridSize + col falls one row short of the identifier. *)
Theorem indexToCoords_negative (gridSize id : Z) :
  0 < gridSize ->
  id < 0 ->
  safeInteger id ->
  id mod gridSize <> 0 ->
  col (indexToCoords gridSize id) < 0 /\
  row (indexToCoords gridSize id) * gridSize + col (indexToCoords gridSize id)
    = id - gridSize.
Proof.
  intros HN Hid Hsafe Hmod. cbn [indexToCoords row col].
  rewrite floorQuotient_exact by assumption.
  pose proof (Z.div_mod id gridSize ltac:(lia)) as Hfloor.
  pose proof (Z.mod_pos_bound id gridSize HN) as Hbound.
  pose proof (Z.quot_rem id gridSize ltac:(lia)) as Htrunc.
  pose proof (Z.rem_bound_pos_neg id gridSize HN ltac:(lia)) as Hrem.
  set (q := id / gridSize) in *. set (r := id mod gridSize) in *.
  set (q' := Z.quot id gridSize) in *. set (r' := Z.rem id gridSize) in *.
  assert (Hd : gridSize * (q - q') = r' - r) by lia.
  assert (Hq : q - q' = -1) by nia.
  split; [lia | nia].
Qed.

Lemma indexToCoords_negative_witness :
  col (indexToCoords 5 (-1)) < 0 /\
  row (indexToCoords 5 (-1)) * 5 + col (indexToCoords 5 (-1)) = -1 - 5.
Proof.
  apply (indexToCoords_negative 5 (-1));
    [lia | lia | unfold safeInteger; lia | discriminate].
Defined.
